(** * Recovery parsing of LLM responses: a shallow embedding of
      [1_response_to_json.py] (class [EnhancedJSONParser]).

    Text is modelled as a list of Latin-1 code points (Rocq's [ascii],
    0..255), the character classes of Python's [re] and [str] methods are
    written out for that range.  Regular expressions are kept as data and
    run by a backtracking matcher that follows the priorities of Python's
    [re] module (leftmost match, greedy and lazy repetition, capture of
    group 1, [$] and [\b]). *)

From Stdlib Require Import Strings.String Strings.Ascii Lists.List.
From Stdlib Require Import ZArith.ZArith NArith.NArith Bool.Bool micromega.Lia.
From stdpp Require Import base list strings gmap.

Import ListNotations.
Local Open Scope string_scope.
Local Open Scope list_scope.

(** ** Text *)

Definition str := list ascii.

Coercion list_ascii_of_string : string >-> list.

Definition code (c : ascii) : N := N_of_ascii c.

Definition in_range (lo hi : N) (c : ascii) : bool :=
  ((lo <=? code c) && (code c <=? hi))%N.

Definition chr_is (n : N) (c : ascii) : bool := (code c =? n)%N.

(** [\d] of a [str] pattern, and the digits [int()] reads: 0-9 are the only
    decimal digits below 256. *)
Definition is_decimal (c : ascii) : bool := in_range 48 57 c.

(** [str.isspace], also [\s]: TAB..CR, FS..US, SPACE, NEL, NBSP. *)
Definition is_space (c : ascii) : bool :=
  in_range 9 13 c || in_range 28 32 c || chr_is 133 c || chr_is 160 c.

(** [str.isalnum] below 256: ASCII letters and digits, the Latin-1 letters,
    and the superscript digits and vulgar fractions (numeric characters). *)
Definition is_alnum (c : ascii) : bool :=
  in_range 48 57 c || in_range 65 90 c || in_range 97 122 c
  || chr_is 170 c || chr_is 178 c || chr_is 179 c || chr_is 181 c
  || chr_is 185 c || chr_is 186 c || in_range 188 190 c
  || in_range 192 214 c || in_range 216 246 c || in_range 248 255 c.

(** [\w]: alphanumeric or underscore. *)
Definition is_word (c : ascii) : bool := is_alnum c || chr_is 95 c.

Definition newline : ascii := ascii_of_N 10.

Definition is_newline (c : ascii) : bool := chr_is 10 c.

(** [str.lower] below 256: A-Z and the upper-case Latin-1 letters (all of
    192..222 but the multiplication sign 215) move up by 32. *)
Definition lower_char (c : ascii) : ascii :=
  if in_range 65 90 c || (in_range 192 222 c && negb (chr_is 215 c))
  then ascii_of_N (code c + 32) else c.

Definition lower (s : str) : str := map lower_char s.

(** [str.strip()] *)
Fixpoint lstrip (s : str) : str :=
  match s with
  | c :: s' => if is_space c then lstrip s' else s
  | [] => []
  end.

Definition rstrip (s : str) : str := rev (lstrip (rev s)).

Definition strip (s : str) : str := rstrip (lstrip s).

Fixpoint starts_with (p s : str) : bool :=
  match p, s with
  | [], _ => true
  | a :: p', b :: s' => Ascii.eqb a b && starts_with p' s'
  | _ :: _, [] => false
  end.

(** [p in s] for strings *)
Fixpoint contains (p s : str) : bool :=
  starts_with p s ||
  match s with
  | [] => false
  | _ :: s' => contains p s'
  end.

(** [s.replace(a, b)] for one-character [a] and [b] *)
Definition replace_char (a b : ascii) (s : str) : str :=
  map (fun c => if Ascii.eqb c a then b else c) s.

Definition dquote : ascii := ascii_of_N 34.
Definition squote : ascii := ascii_of_N 39.
Definition backtick : ascii := ascii_of_N 96.

(** Text literals of this file: [~] stands for the double quote. *)
Definition txt (s : string) : str :=
  replace_char "~" dquote (list_ascii_of_string s).

(** ** Regular expressions *)

Module Re.

Inductive re : Type :=
| Eps
| Cls (p : ascii -> bool)          (* one character of a class *)
| Seq (r1 r2 : re)
| Star (greedy : bool) (r : re)    (* [r*] and [r*?] *)
| Group (r : re)                   (* the capturing group 1 *)
| Eol (multiline : bool)           (* [$] *)
| WordB.                           (* [\b] *)

Definition Chr (c : ascii) : re := Cls (Ascii.eqb c).

Fixpoint Lit (s : str) : re :=
  match s with
  | [] => Eps
  | c :: s' => Seq (Chr c) (Lit s')
  end.

Definition Plus (r : re) : re := Seq r (Star true r).

Definition none_of (s : str) (c : ascii) : bool :=
  negb (existsb (Ascii.eqb c) s).

(** [.]  without and with DOTALL *)
Definition dot (c : ascii) : bool := negb (is_newline c).
Definition dot_all (c : ascii) : bool := true.

(** The matcher's position: the character before it, the text after it,
    and what group 1 holds. *)
Record mstate : Type := MState {
  prev : option ascii;
  rest : str;
  grp : option str
}.

Definition advance (c : ascii) (s' : str) (st : mstate) : mstate :=
  MState (Some c) s' (grp st).

Definition consumed (st st' : mstate) : str :=
  take (length (rest st) - length (rest st')) (rest st).

Definition word_at (o : option ascii) : bool :=
  match o with Some c => is_word c | None => false end.

Definition at_eol (multiline : bool) (s : str) : bool :=
  match s with
  | [] => true
  | c :: s' =>
      is_newline c && (multiline || match s' with [] => true | _ => false end)
  end.

Definition or_else {A} (x y : option A) : option A :=
  match x with Some a => Some a | None => y end.

(** The loop of a repetition.  [step k st] matches the body once and goes
    on with [k]; a round must consume a character; [n] bounds the rounds,
    and one more than the length of the text left is enough. *)
Fixpoint star_loop (step : (mstate -> option mstate) -> mstate -> option mstate)
    (greedy : bool) (k : mstate -> option mstate) (n : nat) (st : mstate)
  : option mstate :=
  match n with
  | O => k st
  | S n' =>
      let again :=
        step (fun st' =>
                if Nat.ltb (length (rest st')) (length (rest st))
                then star_loop step greedy k n' st' else None) st in
      if greedy then or_else again (k st) else or_else (k st) again
  end.

(** Backtracking matcher in continuation-passing style: [run r k st] is the
    first way, in the order Python's engine tries them, to match [r] at
    [st] so that the continuation [k] succeeds on what follows. *)
Fixpoint run (r : re) (k : mstate -> option mstate) (st : mstate)
  : option mstate :=
  match r with
  | Eps => k st
  | Cls p =>
      match rest st with
      | c :: s' => if p c then k (advance c s' st) else None
      | [] => None
      end
  | Seq r1 r2 => run r1 (run r2 k) st
  | Star greedy r1 => star_loop (run r1) greedy k (S (length (rest st))) st
  | Group r1 =>
      run r1 (fun st' => k (MState (prev st') (rest st')
                                    (Some (consumed st st')))) st
  | Eol multiline => if at_eol multiline (rest st) then k st else None
  | WordB =>
      if xorb (word_at (prev st)) (word_at (head (rest st)))
      then k st else None
  end.

(** The end of a match at the top level; after an empty match the engine
    must advance, so an empty match at the starting point is refused. *)
Definition finish (must_advance : bool) (st0 st' : mstate) : option mstate :=
  if must_advance && Nat.eqb (length (rest st')) (length (rest st0))
  then None else Some st'.

Definition match_at (r : re) (must_advance : bool) (p : option ascii)
    (s : str) : option mstate :=
  let st0 := MState p s None in
  run r (finish must_advance st0) st0.

(** [search]: the leftmost position at which [r] matches; returns the text
    skipped before the match, the matched text and the end of the match. *)
Fixpoint search (r : re) (must_advance : bool) (p : option ascii) (s : str)
  : option (str * str * mstate) :=
  match match_at r must_advance p s with
  | Some st' => Some ([], consumed (MState p s None) st', st')
  | None =>
      match s with
      | [] => None
      | c :: s' =>
          match search r false (Some c) s' with
          | Some (skipped, whole, st') => Some (c :: skipped, whole, st')
          | None => None
          end
      end
  end.

(** Replacement templates: literal characters and [\1]. *)
Inductive titem : Type :=
| TChr (c : ascii)
| TGroup1.

Definition tlit (s : str) : list titem := map TChr s.

Definition expand (t : list titem) (g : option str) : str :=
  flat_map (fun i => match i with
                     | TChr c => [c]
                     | TGroup1 => match g with Some x => x | None => [] end
                     end) t.

Definition is_nil {A} (l : list A) : bool :=
  match l with [] => true | _ => false end.

(** The loop of [re.sub]: search from the end of the previous match. *)
Fixpoint sub_loop (fuel : nat) (r : re) (t : list titem)
    (must_advance : bool) (p : option ascii) (s : str) : str :=
  match fuel with
  | O => s
  | S fuel' =>
      match search r must_advance p s with
      | None => s
      | Some (skipped, whole, st') =>
          skipped ++ expand t (grp st')
                  ++ sub_loop fuel' r t (is_nil whole) (prev st') (rest st')
      end
  end.

(** Every round either consumes a character or is followed by one that must. *)
Definition loop_fuel (s : str) : nat := 2 * length s + 2.

Definition sub (r : re) (t : list titem) (s : str) : str :=
  sub_loop (loop_fuel s) r t false None s.

(** The loop of [re.findall]: the matches as (whole match, group 1). *)
Fixpoint findall_loop (fuel : nat) (r : re)
    (must_advance : bool) (p : option ascii) (s : str)
  : list (str * option str) :=
  match fuel with
  | O => []
  | S fuel' =>
      match search r must_advance p s with
      | None => []
      | Some (_, whole, st') =>
          (whole, grp st')
            :: findall_loop fuel' r (is_nil whole) (prev st') (rest st')
      end
  end.

Definition matches (r : re) (s : str) : list (str * option str) :=
  findall_loop (loop_fuel s) r false None s.

(** [re.findall] for a pattern without groups, and for one with one group *)
Definition findall (r : re) (s : str) : list str := map fst (matches r s).

Definition findall1 (r : re) (s : str) : list str :=
  map (fun m => match snd m with Some g => g | None => [] end) (matches r s).

End Re.

Import Re.

(** ** The sanitizer: [clean_json_string] *)

Definition fence : str := [backtick; backtick; backtick].

(** The pattern "```json\s*" *)
Definition re_fence_open : re := Seq (Lit (fence ++ "json")) (Star true (Cls is_space)).

(** The pattern "```\s*$" *)
Definition re_fence_close : re :=
  Seq (Lit fence) (Seq (Star true (Cls is_space)) (Eol false)).

(** The pattern "//.*$" with [re.MULTILINE] *)
Definition re_comment : re :=
  Seq (Lit "//") (Seq (Star true (Cls dot)) (Eol true)).

(** The pattern (spaces added) "(\d+) \s* \( [^)]* \)" *)
Definition re_paren_note : re :=
  Seq (Group (Plus (Cls is_decimal)))
      (Seq (Star true (Cls is_space))
           (Seq (Chr "(") (Seq (Star true (Cls (none_of ")"))) (Chr ")")))).

(** The pattern "(\w+):" *)
Definition re_bare_key : re := Seq (Group (Plus (Cls is_word))) (Chr ":").

(** The patterns ",\s*}" and ",\s*]" *)
Definition re_comma_before (close : ascii) : re :=
  Seq (Chr ",") (Seq (Star true (Cls is_space)) (Chr close)).

(** The six substitutions of [clean_json_string], one definition each. *)
Definition strip_fence_open (text : str) : str := sub re_fence_open [] text.
Definition strip_fence_close (text : str) : str := sub re_fence_close [] text.
Definition strip_comments (text : str) : str := sub re_comment [] text.
Definition strip_paren_notes (text : str) : str :=
  sub re_paren_note [TGroup1] text.
Definition quote_bare_keys (text : str) : str :=
  sub re_bare_key ([TChr dquote; TGroup1] ++ [TChr dquote; TChr ":"%char]) text.
Definition strip_trailing_commas (text : str) : str :=
  sub (re_comma_before "]") (tlit "]")
      (sub (re_comma_before "}") (tlit "}") text).

Definition clean_json_string (text : str) : str :=
  let text := strip_fence_open text in
  let text := strip_fence_close text in
  let text := strip_comments text in
  let text := strip_paren_notes text in
  let text := quote_bare_keys text in
  let text := strip_trailing_commas text in
  strip text.

(** ** The block locator: [extract_json_blocks] *)

(** The pattern (spaces added) "\{ [^{}]* (?: \{ [^{}]* \} [^{}]* )* \}" *)
Definition json_pattern : re :=
  Seq (Chr "{")
   (Seq (Star true (Cls (none_of "{}")))
    (Seq (Star true
            (Seq (Chr "{")
              (Seq (Star true (Cls (none_of "{}")))
                (Seq (Chr "}") (Star true (Cls (none_of "{}")))))))
         (Chr "}"))).

(** The pattern (spaces added) "\[ [^\[\]]* (?: \[ [^\[\]]* \] [^\[\]]* )* \]" *)
Definition array_pattern : re :=
  Seq (Chr "[")
   (Seq (Star true (Cls (none_of "[]")))
    (Seq (Star true
            (Seq (Chr "[")
              (Seq (Star true (Cls (none_of "[]")))
                (Seq (Chr "]") (Star true (Cls (none_of "[]")))))))
         (Chr "]"))).

(** The pattern "\{.*?\}" with [re.DOTALL] *)
Definition nested_pattern : re :=
  Seq (Chr "{") (Seq (Star false (Cls dot_all)) (Chr "}")).

Definition extract_json_blocks (text : str) : list str :=
  let json_blocks := [] in
  let json_blocks := json_blocks ++ findall json_pattern text in
  let json_blocks := json_blocks ++ findall array_pattern text in
  let json_blocks := json_blocks ++ findall nested_pattern text in
  json_blocks.


(** ** Python values *)

(** A string value is a list of code points: an escape can name a
    character above 255. *)
Definition ustr := list N.

Definition u (s : string) : ustr := map N_of_ascii (list_ascii_of_string s).

(** A finite float keeps the decimal value [m * 10^e] it was written as
    (rounding to binary64 is not modelled), except that a value which
    rounds to zero or to infinity is stored as such. *)
Inductive pyfloat : Type :=
| FFin (neg : bool) (m : N) (e : Z)
| FInf (neg : bool)
| FNan.

#[local] Unset Elimination Schemes.
Inductive pyval : Type :=
| PyNone
| PyBool (b : bool)
| PyInt (n : Z)
| PyFloat (f : pyfloat)
| PyStr (s : ustr)
| PyEllipsis
| PyList (l : list pyval)
| PyTuple (l : list pyval)
| PySet (l : list pyval)
| PyDict (kvs : list (pyval * pyval)).
#[local] Set Elimination Schemes.

(** Python's truth value, as [if parsed:] tests it. *)
Definition truthy (v : pyval) : bool :=
  match v with
  | PyNone => false
  | PyBool b => b
  | PyInt n => negb (n =? 0)%Z
  | PyFloat (FFin _ m _) => negb (m =? 0)%N
  | PyFloat _ => true
  | PyStr s => negb (is_nil s)
  | PyEllipsis => true
  | PyList l | PyTuple l | PySet l => negb (is_nil l)
  | PyDict kvs => negb (is_nil kvs)
  end.

Definition is_true (o : option pyval) : bool :=
  match o with Some v => truthy v | None => false end.

Module Float.

Fixpoint strip_zeros (fuel : nat) (m : N) (e : Z) : N * Z :=
  match fuel with
  | O => (m, e)
  | S fuel' =>
      if (m mod 10 =? 0)%N then strip_zeros fuel' (m / 10)%N (e + 1)%Z
      else (m, e)
  end.

(** [m * 10^e <= 2^-1075]: rounds to zero. *)
Definition underflows (m : N) (e : Z) : bool :=
  if (0 <=? e)%Z then false
  else if (Z.of_N (N.log2 m) + 1 + e <? -400)%Z then true
  else (Z.of_N m * 2 ^ 1075 <=? 10 ^ (- e))%Z.

(** [m * 10^e >= 2^1024 - 2^970]: rounds to infinity. *)
Definition overflows (m : N) (e : Z) : bool :=
  let top := (2 ^ 1024 - 2 ^ 970)%Z in
  if (400 <? e)%Z then true
  else if (0 <=? e)%Z then (top <=? Z.of_N m * 10 ^ e)%Z
  else (top * 10 ^ (- e) <=? Z.of_N m)%Z.

(** [float()] of a decimal numeral. *)
Definition of_decimal (neg : bool) (m : N) (e : Z) : pyfloat :=
  if (m =? 0)%N then FFin neg 0 0
  else if underflows m e then FFin neg 0 0
  else if overflows m e then FInf neg
  else let '(m', e') := strip_zeros (N.size_nat m) m e in FFin neg m' e'.

End Float.

Fixpoint digits_to_N (acc : N) (ds : str) : N :=
  match ds with
  | [] => acc
  | d :: ds' => digits_to_N (10 * acc + (code d - 48))%N ds'
  end.

(** [int(n)] of a run of decimal digits *)
Definition int_of_digits (ds : str) : Z := Z.of_N (digits_to_N 0 ds).

Fixpoint span (p : ascii -> bool) (s : str) : str * str :=
  match s with
  | c :: s' => if p c then let '(a, b) := span p s' in (c :: a, b) else ([], s)
  | [] => ([], [])
  end.

Definition drop_prefix (p s : str) : option str :=
  if starts_with p s then Some (drop (length p) s) else None.

Definition hex_digit (c : ascii) : option N :=
  if in_range 48 57 c then Some (code c - 48)%N
  else if in_range 97 102 c then Some (code c - 87)%N
  else if in_range 65 70 c then Some (code c - 55)%N
  else None.

Fixpoint hex_to_N (acc : N) (ds : str) : option N :=
  match ds with
  | [] => Some acc
  | d :: ds' =>
      match hex_digit d with
      | Some x => hex_to_N (16 * acc + x)%N ds'
      | None => None
      end
  end.

(** ** The strict decoder: Python's [json.loads]

    The grammar of the [json] module with its default settings: white space
    is space, TAB, LF and CR; a string may not hold a control character;
    [NaN], [Infinity] and [-Infinity] are accepted; the last of several
    equal keys wins.  The recursion limit of the interpreter is not
    modelled. *)
Module Json.

Definition is_ws (c : ascii) : bool :=
  chr_is 32 c || chr_is 9 c || chr_is 10 c || chr_is 13 c.

Fixpoint skip_ws (s : str) : str :=
  match s with
  | c :: s' => if is_ws c then skip_ws s' else s
  | [] => []
  end.

(** The four hex digits of a [\uXXXX] escape *)
Definition hex4 (s : str) : option (N * str) :=
  if Nat.ltb (length s) 4 then None
  else match hex_to_N 0 (take 4 s) with
       | Some n => Some (n, drop 4 s)
       | None => None
       end.

Definition simple_escape (c : ascii) : option N :=
  if chr_is 34 c then Some 34%N          (* quote *)
  else if chr_is 92 c then Some 92%N     (* backslash *)
  else if chr_is 47 c then Some 47%N     (* slash *)
  else if chr_is 98 c then Some 8%N      (* b *)
  else if chr_is 102 c then Some 12%N    (* f *)
  else if chr_is 110 c then Some 10%N    (* n *)
  else if chr_is 114 c then Some 13%N    (* r *)
  else if chr_is 116 c then Some 9%N     (* t *)
  else None.

Definition high_surrogate (n : N) : bool := ((55296 <=? n) && (n <=? 56319))%N.
Definition low_surrogate (n : N) : bool := ((56320 <=? n) && (n <=? 57343))%N.
Definition join_surrogates (hi lo : N) : N :=
  (65536 + (hi - 55296) * 1024 + (lo - 56320))%N.

(** After a high surrogate: a following escaped low surrogate joins it. *)
Definition scan_pair (uni : N) (s : str) : option (N * str) :=
  if high_surrogate uni && Nat.leb 6 (length s)
     && starts_with [ascii_of_N 92; "u"%char] s
  then match hex4 (drop 2 s) with
       | Some (uni2, s') =>
           if low_surrogate uni2 then Some (join_surrogates uni uni2, s')
           else Some (uni, s)
       | None => None
       end
  else Some (uni, s).

(** The body of a string up to its closing quote *)
Fixpoint scan_string (fuel : nat) (acc : ustr) (s : str)
  : option (ustr * str) :=
  match fuel with
  | O => None
  | S fuel' =>
      match s with
      | [] => None
      | c :: s' =>
          if chr_is 34 c then Some (rev acc, s')
          else if chr_is 92 c then
            match s' with
            | [] => None
            | e :: s'' =>
                if chr_is 117 e then
                  match hex4 s'' with
                  | Some (uni, s3) =>
                      match scan_pair uni s3 with
                      | Some (x, s4) => scan_string fuel' (x :: acc) s4
                      | None => None
                      end
                  | None => None
                  end
                else match simple_escape e with
                     | Some x => scan_string fuel' (x :: acc) s''
                     | None => None
                     end
            end
          else if (code c <? 32)%N then None
          else scan_string fuel' (code c :: acc) s'
      end
  end.

(** The number pattern (spaces added)
    "( -? (?: 0 | [1-9] \d* ) ) ( \. \d+ )? ( [eE] [-+]? \d+ )?":
    the integer part, then a fraction and an exponent where they match. *)
Definition scan_int_part (s : str) : option (str * str) :=
  match s with
  | c :: s' =>
      if chr_is 48 c then Some ([c], s')
      else if in_range 49 57 c
           then let '(ds, r) := span is_decimal s' in Some (c :: ds, r)
           else None
  | [] => None
  end.

Definition scan_frac (s : str) : option (str * str) :=
  match s with
  | c :: s' =>
      if chr_is 46 c
      then let '(ds, r) := span is_decimal s' in
           if is_nil ds then None else Some (ds, r)
      else None
  | [] => None
  end.

Definition scan_exp (s : str) : option (Z * str) :=
  match s with
  | c :: s' =>
      if chr_is 101 c || chr_is 69 c then
        let '(neg, s1) :=
          match s' with
          | g :: s'' => if chr_is 45 g then (true, s'')
                        else if chr_is 43 g then (false, s'') else (false, s')
          | [] => (false, s')
          end in
        let '(ds, r) := span is_decimal s1 in
        if is_nil ds then None
        else Some (if neg then (- int_of_digits ds)%Z else int_of_digits ds, r)
      else None
  | [] => None
  end.

Definition scan_number (s : str) : option (pyval * str) :=
  let '(neg, s0) :=
    match s with
    | c :: s' => if chr_is 45 c then (true, s') else (false, s)
    | [] => (false, s)
    end in
  match scan_int_part s0 with
  | None => None
  | Some (ints, s1) =>
      let '(frac, s2) :=
        match scan_frac s1 with
        | Some (ds, r) => (Some ds, r)
        | None => (None, s1)
        end in
      let '(ex, s3) :=
        match scan_exp s2 with
        | Some (x, r) => (Some x, r)
        | None => (None, s2)
        end in
      match frac, ex with
      | None, None =>
          let n := int_of_digits ints in
          Some (PyInt (if neg then (- n)%Z else n), s3)
      | _, _ =>
          let fd := match frac with Some ds => ds | None => [] end in
          let x := match ex with Some x => x | None => 0%Z end in
          Some (PyFloat (Float.of_decimal neg (digits_to_N 0 (ints ++ fd))
                                          (x - Z.of_nat (length fd))), s3)
      end
  end.

(** [dict(pairs)]: a repeated key keeps its place and takes the new value. *)
Fixpoint dict_set (kvs : list (pyval * pyval)) (k : ustr) (v : pyval)
  : list (pyval * pyval) :=
  match kvs with
  | [] => [(PyStr k, v)]
  | (PyStr k', v') :: kvs' =>
      if decide (k' = k) then (PyStr k', v) :: kvs'
      else (PyStr k', v') :: dict_set kvs' k v
  | kv :: kvs' => kv :: dict_set kvs' k v
  end.

Definition literal (word : str) (v : pyval) (s : str) : option (pyval * str) :=
  match drop_prefix word s with
  | Some r => Some (v, r)
  | None => None
  end.

(** [scan_once], with the loops of [JSONObject] and [JSONArray].  The fuel
    bounds the nesting; every call consumes a character first, so the
    length of the text is enough. *)
Fixpoint scan_once (fuel : nat) (s : str) : option (pyval * str) :=
  match fuel with
  | O => None
  | S fuel' =>
      match s with
      | [] => None
      | c :: s' =>
          if chr_is 34 c then
            match scan_string (length s') [] s' with
            | Some (x, r) => Some (PyStr x, r)
            | None => None
            end
          else if chr_is 123 c then
            match skip_ws s' with
            | d :: r => if chr_is 125 d then Some (PyDict [], r)
                        else object_items fuel' [] (d :: r)
            | [] => None
            end
          else if chr_is 91 c then
            match skip_ws s' with
            | d :: r => if chr_is 93 d then Some (PyList [], r)
                        else array_items fuel' [] (d :: r)
            | [] => None
            end
          else if chr_is 110 c then literal "null" PyNone s
          else if chr_is 116 c then literal "true" (PyBool true) s
          else if chr_is 102 c then literal "false" (PyBool false) s
          else match scan_number s with
               | Some x => Some x
               | None =>
                   if chr_is 78 c then literal "NaN" (PyFloat FNan) s
                   else if chr_is 73 c
                        then literal "Infinity" (PyFloat (FInf false)) s
                   else if chr_is 45 c
                        then literal "-Infinity" (PyFloat (FInf true)) s
                   else None
               end
      end
  end

with object_items (fuel : nat) (acc : list (pyval * pyval)) (s : str)
  : option (pyval * str) :=
  match fuel with
  | O => None
  | S fuel' =>
      match s with
      | q :: s1 =>
          if chr_is 34 q then
            match scan_string (length s1) [] s1 with
            | None => None
            | Some (key, s2) =>
                match skip_ws s2 with
                | col :: s3 =>
                    if chr_is 58 col then
                      match scan_once fuel' (skip_ws s3) with
                      | None => None
                      | Some (v, s4) =>
                          let acc' := dict_set acc key v in
                          match skip_ws s4 with
                          | d :: s5 =>
                              if chr_is 125 d then Some (PyDict acc', s5)
                              else if chr_is 44 d
                                   then object_items fuel' acc' (skip_ws s5)
                                   else None
                          | [] => None
                          end
                      end
                    else None
                | [] => None
                end
            end
          else None
      | [] => None
      end
  end

with array_items (fuel : nat) (acc : list pyval) (s : str)
  : option (pyval * str) :=
  match fuel with
  | O => None
  | S fuel' =>
      match scan_once fuel' s with
      | None => None
      | Some (v, s1) =>
          match skip_ws s1 with
          | d :: s2 =>
              if chr_is 93 d then Some (PyList (rev (v :: acc)), s2)
              else if chr_is 44 d
                   then array_items fuel' (v :: acc) (skip_ws s2)
                   else None
          | [] => None
          end
      end
  end.

(** [json.loads]: one value, white space around it, nothing else. *)
Definition loads (s : str) : option pyval :=
  match scan_once (2 * length s + 2) (skip_ws s) with
  | Some (v, r) => if is_nil (skip_ws r) then Some v else None
  | None => None
  end.

End Json.

(** ** The lenient decoder: Python's [ast.literal_eval]

    [literal_eval] parses its text as a Python expression and converts the
    syntax tree, refusing every node that is not a literal.  The model
    parses the literal fragment of the expression grammar: decimal integers
    and floats, quoted strings with their escapes (also triple-quoted and
    adjacent ones), [True], [False], [None], [...], names, parenthesised
    expressions, tuples, lists, sets, dicts, calls with positional
    arguments, unary and binary [+] and [-]; comments and line structure
    are read as the tokenizer of CPython 3.11 reads them.  Text outside the fragment is
    answered [Malformed].  CPython answers [ValueError] or [SyntaxError]
    there as well, with these exceptions, which the model leaves out:
    complex numbers, bytes and prefixed strings, numerals with a base prefix
    or digit-group underscores, named-character escapes and backslash line
    joining are literals it accepts; and where the text is a valid
    expression it converts an unhashable key or element before it meets the
    offending node, it raises [TypeError] first.  Equality of float keys
    compares the decimal values. *)
Module Ast.

Inductive token : Type :=
| TName (id : str)
| TNum (v : pyval)
| TStr (s : ustr)
| TOp (c : ascii)
| TEllipsis
| TNewline.

#[local] Unset Elimination Schemes.
Inductive expr : Type :=
| EConst (v : pyval)
| EName (id : str)
| ETuple (elts : list expr)
| EList (elts : list expr)
| ESet (elts : list expr)
| EDict (items : list (expr * expr))
| ECall (func : expr) (args : list expr)
| EUnary (minus : bool) (operand : expr)
| EBin (lhs : expr) (minus : bool) (rhs : expr).
#[local] Set Elimination Schemes.

(** What a conversion comes to: a value, a [ValueError] or [SyntaxError]
    (both caught by [try_parse_with_ast]), or the [TypeError] of an
    unhashable key or element, with the name of its type. *)
Inductive outcome (A : Type) : Type :=
| Val (a : A)
| Malformed
| Unhashable (ty : str).

Arguments Val {A} a.
Arguments Malformed {A}.
Arguments Unhashable {A} ty.

#[export] Instance outcome_ret : MRet outcome := fun A a => Val a.

#[export] Instance outcome_bind : MBind outcome := fun A B f x =>
  match x with
  | Val a => f a
  | Malformed => Malformed
  | Unhashable ty => Unhashable ty
  end.

(** *** The tokenizer *)

Definition is_ascii_alpha (c : ascii) : bool :=
  in_range 65 90 c || in_range 97 122 c.

Definition is_name_start (c : ascii) : bool :=
  is_ascii_alpha c || chr_is 95 c || chr_is 170 c || chr_is 181 c
  || chr_is 186 c || in_range 192 214 c || in_range 216 246 c
  || in_range 248 255 c.

Definition is_name_char (c : ascii) : bool :=
  is_name_start c || is_decimal c || chr_is 183 c.

Definition is_eol (c : ascii) : bool := chr_is 10 c || chr_is 13 c.

Definition is_blank (c : ascii) : bool :=
  chr_is 32 c || chr_is 9 c || chr_is 12 c.

Definition is_octal (c : ascii) : bool := in_range 48 55 c.

Fixpoint octal_to_N (acc : N) (ds : str) : N :=
  match ds with
  | [] => acc
  | d :: ds' => octal_to_N (8 * acc + (code d - 48))%N ds'
  end.

Definition take_hex (n : nat) (s : str) : option (N * str) :=
  if Nat.ltb (length s) n then None
  else match hex_to_N 0 (take n s) with
       | Some x => Some (x, drop n s)
       | None => None
       end.

Definition simple_escape (c : ascii) : option N :=
  if chr_is 92 c then Some 92%N          (* backslash *)
  else if chr_is 39 c then Some 39%N     (* single quote *)
  else if chr_is 34 c then Some 34%N     (* double quote *)
  else if chr_is 97 c then Some 7%N      (* a *)
  else if chr_is 98 c then Some 8%N      (* b *)
  else if chr_is 102 c then Some 12%N    (* f *)
  else if chr_is 110 c then Some 10%N    (* n *)
  else if chr_is 114 c then Some 13%N    (* r *)
  else if chr_is 116 c then Some 9%N     (* t *)
  else if chr_is 118 c then Some 11%N    (* v *)
  else None.

(** One escape sequence, after its backslash: the code points it stands
    for and the text after it. *)
Definition scan_escape (s : str) : option (ustr * str) :=
  match s with
  | [] => None
  | e :: s' =>
      match simple_escape e with
      | Some x => Some ([x], s')
      | None =>
          if is_eol e then Some ([], s')
          else if is_octal e then
            let '(ds, _) := span is_octal (take 3 s) in
            Some ([octal_to_N 0 ds], drop (length ds) s)
          else if chr_is 120 e then
            match take_hex 2 s' with
            | Some (x, r) => Some ([x], r)
            | None => None
            end
          else if chr_is 117 e then
            match take_hex 4 s' with
            | Some (x, r) => Some ([x], r)
            | None => None
            end
          else if chr_is 85 e then
            match take_hex 8 s' with
            | Some (x, r) => if (x <=? 1114111)%N then Some ([x], r) else None
            | None => None
            end
          else if chr_is 78 e then None
          else Some ([92%N; code e], s')
      end
  end.

(** The body of a string opened by [q], once or three times. *)
Fixpoint scan_string (fuel : nat) (q : ascii) (triple : bool) (acc : ustr)
    (s : str) : option (ustr * str) :=
  match fuel with
  | O => None
  | S fuel' =>
      match s with
      | [] => None
      | c :: s' =>
          if Ascii.eqb c q then
            if triple then
              if starts_with [q; q] s' then Some (rev acc, drop 2 s')
              else scan_string fuel' q triple (code c :: acc) s'
            else Some (rev acc, s')
          else if chr_is 92 c then
            match scan_escape s' with
            | Some (x, r) => scan_string fuel' q triple (rev x ++ acc) r
            | None => None
            end
          else if is_eol c && negb triple then None
          else scan_string fuel' q triple (code c :: acc) s'
      end
  end.

Definition scan_quoted (s : str) : option (ustr * str) :=
  match s with
  | q :: s' =>
      if starts_with [q; q] s'
      then scan_string (length s') q true [] (drop 2 s')
      else scan_string (length s') q false [] s'
  | [] => None
  end.

(** The exponent of a float, when the text has one *)
Definition scan_exp (s : str) : option (Z * str) := Json.scan_exp s.

Definition float_token (ints frac : str) (ex : Z) : token :=
  TNum (PyFloat (Float.of_decimal false (digits_to_N 0 (ints ++ frac))
                                   (ex - Z.of_nat (length frac)))).

(** A numeral that starts with a digit, or with a point and a digit *)
Definition scan_number (s : str) : option (token * str) :=
  let '(ints, s1) := span is_decimal s in
  let '(point, frac, s2) :=
    match s1 with
    | c :: s' =>
        if chr_is 46 c
        then let '(ds, r) := span is_decimal s' in (true, ds, r)
        else (false, [], s1)
    | [] => (false, [], s1)
    end in
  if is_nil ints && is_nil frac then None
  else
    match scan_exp s2 with
    | Some (x, s3) => Some (float_token ints frac x, s3)
    | None =>
        if point then Some (float_token ints frac 0, s2)
        else if starts_with "0" ints && negb (forallb (chr_is 48) ints)
             then None
             else Some (TNum (PyInt (int_of_digits ints)), s2)
    end.

Fixpoint skip_line (s : str) : str :=
  match s with
  | c :: s' => if is_eol c then s else skip_line s'
  | [] => []
  end.

Definition is_open (c : ascii) : bool :=
  chr_is 40 c || chr_is 91 c || chr_is 123 c.

Definition is_close (c : ascii) : bool :=
  chr_is 41 c || chr_is 93 c || chr_is 125 c.

Definition is_punct (c : ascii) : bool :=
  chr_is 44 c || chr_is 58 c || chr_is 43 c || chr_is 45 c.

(** The tokens of the text; [depth] counts the open brackets, inside which
    a line end is white space; [fresh] holds until the line has a token. *)
Fixpoint lex (fuel : nat) (depth : nat) (fresh : bool) (s : str)
  : option (list token) :=
  match fuel with
  | O => None
  | S fuel' =>
      match s with
      | [] => Some (if fresh then [] else [TNewline])
      | c :: s' =>
          if chr_is 0 c then None
          else if is_blank c then lex fuel' depth fresh s'
          else if is_eol c then
            if Nat.ltb 0 depth || fresh then lex fuel' depth fresh s'
            else option_map (cons TNewline) (lex fuel' depth true s')
          else if chr_is 35 c then lex fuel' depth fresh (skip_line s')
          else if is_decimal c || (chr_is 46 c && is_decimal (default c (head s')))
          then match scan_number s with
               | Some (t, r) =>
                   if Nat.ltb (length r) (length s)
                   then option_map (cons t) (lex fuel' depth false r)
                   else None
               | None => None
               end
          else if chr_is 34 c || chr_is 39 c
          then match scan_quoted s with
               | Some (x, r) =>
                   if Nat.ltb (length r) (length s)
                   then option_map (cons (TStr x)) (lex fuel' depth false r)
                   else None
               | None => None
               end
          else if is_name_start c
          then let '(id, r) := span is_name_char s in
               if starts_with [dquote] r || starts_with [squote] r then None
               else if Nat.ltb (length r) (length s)
               then option_map (cons (TName id)) (lex fuel' depth false r)
               else None
          else if starts_with "..." s
          then option_map (cons TEllipsis) (lex fuel' depth false (drop 3 s))
          else if is_open c
          then option_map (cons (TOp c)) (lex fuel' (S depth) false s')
          else if is_close c
          then option_map (cons (TOp c)) (lex fuel' (pred depth) false s')
          else if is_punct c
          then option_map (cons (TOp c)) (lex fuel' depth false s')
          else None
      end
  end.

(** The indentation of the first line that holds a token: a space or a TAB
    moves the column, a form feed resets it. *)
Fixpoint first_column (col : nat) (comment : bool) (s : str) : nat :=
  match s with
  | c :: s' =>
      if is_eol c then first_column 0 false s'
      else if comment then first_column col true s'
      else if chr_is 32 c || chr_is 9 c then first_column (S col) false s'
      else if chr_is 12 c then first_column 0 false s'
      else if chr_is 35 c then first_column 0 true s'
      else col
  | [] => 0
  end.

(** *** The parser *)

Definition keywords : list str :=
  map list_ascii_of_string
  [ "and"; "as"; "assert"; "async"; "await"; "break"; "class"; "continue";
    "def"; "del"; "elif"; "else"; "except"; "finally"; "for"; "from";
    "global"; "if"; "import"; "in"; "is"; "lambda"; "nonlocal"; "not"; "or";
    "pass"; "raise"; "return"; "try"; "while"; "with"; "yield" ].

Definition str_eqb (a b : str) : bool := bool_decide (a = b).

Definition name_atom (id : str) : option expr :=
  if str_eqb id "True" then Some (EConst (PyBool true))
  else if str_eqb id "False" then Some (EConst (PyBool false))
  else if str_eqb id "None" then Some (EConst PyNone)
  else if existsb (str_eqb id) keywords then None
  else Some (EName id).

(** Adjacent string literals are one string. *)
Fixpoint more_strings (acc : ustr) (ts : list token) : ustr * list token :=
  match ts with
  | TStr x :: ts' => more_strings (acc ++ x) ts'
  | _ => (acc, ts)
  end.

Definition plus : ascii := "+".
Definition minus_sign : ascii := "-".
Definition comma : ascii := ",".
Definition colon : ascii := ":".

Definition op_is (c : ascii) (t : token) : bool :=
  match t with TOp d => Ascii.eqb c d | _ => false end.

(** Recursive descent over the tokens.  [parse_seq] reads the elements
    after an opening bracket up to [close] and tells whether it met a
    comma.  At most four calls follow one another before a token is
    consumed, so four times the number of tokens is fuel enough. *)
Fixpoint parse_sum (fuel : nat) (ts : list token)
  : option (expr * list token) :=
  match fuel with
  | O => None
  | S fuel' =>
      match parse_factor fuel' ts with
      | Some (e, r) => sum_tail fuel' e r
      | None => None
      end
  end

with sum_tail (fuel : nat) (lhs : expr) (ts : list token)
  : option (expr * list token) :=
  match fuel with
  | O => None
  | S fuel' =>
      match ts with
      | TOp c :: r =>
          if Ascii.eqb c plus || Ascii.eqb c minus_sign then
            match parse_factor fuel' r with
            | Some (e, r') =>
                sum_tail fuel' (EBin lhs (Ascii.eqb c minus_sign) e) r'
            | None => None
            end
          else Some (lhs, ts)
      | _ => Some (lhs, ts)
      end
  end

with parse_factor (fuel : nat) (ts : list token)
  : option (expr * list token) :=
  match fuel with
  | O => None
  | S fuel' =>
      match ts with
      | TOp c :: r =>
          if Ascii.eqb c plus || Ascii.eqb c minus_sign then
            match parse_factor fuel' r with
            | Some (e, r') => Some (EUnary (Ascii.eqb c minus_sign) e, r')
            | None => None
            end
          else match parse_atom fuel' ts with
               | Some (a, r') => call_tail fuel' a r'
               | None => None
               end
      | _ => match parse_atom fuel' ts with
             | Some (a, r') => call_tail fuel' a r'
             | None => None
             end
      end
  end

with call_tail (fuel : nat) (func : expr) (ts : list token)
  : option (expr * list token) :=
  match fuel with
  | O => None
  | S fuel' =>
      match ts with
      | TOp c :: r =>
          if Ascii.eqb c "(" then
            match parse_seq fuel' ")" r with
            | Some (args, _, r') => call_tail fuel' (ECall func args) r'
            | None => None
            end
          else Some (func, ts)
      | _ => Some (func, ts)
      end
  end

with parse_atom (fuel : nat) (ts : list token)
  : option (expr * list token) :=
  match fuel with
  | O => None
  | S fuel' =>
      match ts with
      | TNum v :: r => Some (EConst v, r)
      | TStr x :: r =>
          let '(y, r') := more_strings x r in Some (EConst (PyStr y), r')
      | TEllipsis :: r => Some (EConst PyEllipsis, r)
      | TName id :: r =>
          match name_atom id with
          | Some e => Some (e, r)
          | None => None
          end
      | TOp c :: r =>
          if Ascii.eqb c "(" then
            match parse_seq fuel' ")" r with
            | Some ([e], false, r') => Some (e, r')
            | Some (elts, _, r') => Some (ETuple elts, r')
            | None => None
            end
          else if Ascii.eqb c "[" then
            match parse_seq fuel' "]" r with
            | Some (elts, _, r') => Some (EList elts, r')
            | None => None
            end
          else if Ascii.eqb c "{" then
            match r with
            | TOp d :: r0 =>
                if Ascii.eqb d "}" then Some (EDict [], r0)
                else brace_body fuel' r
            | _ => brace_body fuel' r
            end
          else None
      | _ => None
      end
  end

with brace_body (fuel : nat) (ts : list token)
  : option (expr * list token) :=
  match fuel with
  | O => None
  | S fuel' =>
      match parse_sum fuel' ts with
      | Some (e, t :: r) =>
          if op_is colon t then
            match parse_sum fuel' r with
            | Some (v, r') =>
                match dict_tail fuel' [(e, v)] r' with
                | Some (items, r'') => Some (EDict items, r'')
                | None => None
                end
            | None => None
            end
          else match seq_tail fuel' "}" [e] false (t :: r) with
               | Some (elts, _, r') => Some (ESet elts, r')
               | None => None
               end
      | _ => None
      end
  end

with dict_tail (fuel : nat) (acc : list (expr * expr)) (ts : list token)
  : option (list (expr * expr) * list token) :=
  match fuel with
  | O => None
  | S fuel' =>
      match ts with
      | t :: r =>
          if op_is "}" t then Some (rev acc, r)
          else if op_is comma t then
            match r with
            | t' :: r0 =>
                if op_is "}" t' then Some (rev acc, r0)
                else
                  match parse_sum fuel' r with
                  | Some (k, c :: r1) =>
                      if op_is colon c then
                        match parse_sum fuel' r1 with
                        | Some (v, r2) => dict_tail fuel' ((k, v) :: acc) r2
                        | None => None
                        end
                      else None
                  | _ => None
                  end
            | [] => None
            end
          else None
      | [] => None
      end
  end

with parse_seq (fuel : nat) (close : ascii) (ts : list token)
  : option (list expr * bool * list token) :=
  match fuel with
  | O => None
  | S fuel' =>
      match ts with
      | t :: r =>
          if op_is close t then Some ([], false, r)
          else match parse_sum fuel' ts with
               | Some (e, r') => seq_tail fuel' close [e] false r'
               | None => None
               end
      | [] => None
      end
  end

with seq_tail (fuel : nat) (close : ascii) (acc : list expr) (commas : bool)
    (ts : list token) : option (list expr * bool * list token) :=
  match fuel with
  | O => None
  | S fuel' =>
      match ts with
      | t :: r =>
          if op_is close t then Some (rev acc, commas, r)
          else if op_is comma t then
            match r with
            | t' :: r0 =>
                if op_is close t' then Some (rev acc, true, r0)
                else match parse_sum fuel' r with
                     | Some (e, r') => seq_tail fuel' close (e :: acc) true r'
                     | None => None
                     end
            | [] => None
            end
          else None
      | [] => None
      end
  end.

(** The elements of a tuple written without parentheses *)
Fixpoint top_tail (fuel : nat) (acc : list expr) (ts : list token)
  : option (list expr * list token) :=
  match fuel with
  | O => None
  | S fuel' =>
      match ts with
      | t :: r =>
          if op_is comma t then
            match r with
            | TNewline :: _ => Some (rev acc, r)
            | _ => match parse_sum fuel' r with
                   | Some (e, r') => top_tail fuel' (e :: acc) r'
                   | None => None
                   end
            end
          else Some (rev acc, ts)
      | [] => Some (rev acc, ts)
      end
  end.

(** [ast.parse(text, mode='eval')]: one expression on one logical line. *)
Definition parse (ts : list token) : option expr :=
  let fuel := 4 * length ts + 4 in
  match parse_sum fuel ts with
  | Some (e, [TNewline]) => Some e
  | Some (e, t :: r) =>
      if op_is comma t then
        match top_tail fuel [e] (t :: r) with
        | Some (elts, [TNewline]) => Some (ETuple elts)
        | _ => None
        end
      else None
  | _ => None
  end.

(** *** The conversion of the syntax tree *)

(** A number as a sign and a decimal value, for the equality of keys:
    [True == 1 == 1.0]. *)
Definition num_canon (v : pyval) : option pyfloat :=
  match v with
  | PyBool b => Some (FFin false (if b then 1 else 0) 0)
  | PyInt n =>
      let m := Z.abs_N n in
      let '(m', e') := Float.strip_zeros (N.size_nat m) m 0 in
      Some (FFin (n <? 0)%Z m' e')
  | PyFloat f => Some f
  | _ => None
  end.

Definition float_eq (a b : pyfloat) : bool :=
  match a, b with
  | FFin s1 m1 e1, FFin s2 m2 e2 =>
      ((m1 =? 0) && (m2 =? 0))%N
      || (Bool.eqb s1 s2 && (m1 =? m2)%N && (e1 =? e2)%Z)
  | FInf s1, FInf s2 => Bool.eqb s1 s2
  | _, _ => false
  end.

(** [==] on hashable values *)
Fixpoint py_eq (a b : pyval) : bool :=
  match num_canon a, num_canon b with
  | Some x, Some y => float_eq x y
  | Some _, None | None, Some _ => false
  | None, None =>
      match a, b with
      | PyNone, PyNone => true
      | PyEllipsis, PyEllipsis => true
      | PyStr x, PyStr y => bool_decide (x = y)
      | PyTuple xs, PyTuple ys =>
          (fix all2 (xs ys : list pyval) {struct xs} : bool :=
             match xs, ys with
             | [], [] => true
             | x :: xs', y :: ys' => py_eq x y && all2 xs' ys'
             | _, _ => false
             end) xs ys
      | _, _ => false
      end
  end.

(** [hash(v)] raises [TypeError] on a list, a dict or a set, also inside a
    tuple: the name of the first type it refuses. *)
Fixpoint unhashable (v : pyval) : option str :=
  match v with
  | PyList _ => Some (list_ascii_of_string "list")
  | PyDict _ => Some (list_ascii_of_string "dict")
  | PySet _ => Some (list_ascii_of_string "set")
  | PyTuple l =>
      (fix first (l : list pyval) : option str :=
         match l with
         | [] => None
         | x :: l' => or_else (unhashable x) (first l')
         end) l
  | _ => None
  end.

Definition hashed (v : pyval) : outcome pyval :=
  match unhashable v with
  | Some ty => Unhashable ty
  | None => Val v
  end.

(** [set.add]: an element equal to one of the set is not added. *)
Definition set_add (acc : list pyval) (v : pyval) : list pyval :=
  if existsb (py_eq v) acc then acc else acc ++ [v].

(** [d[k] = v]: an equal key keeps its place and takes the new value. *)
Fixpoint dict_put (kvs : list (pyval * pyval)) (k v : pyval)
  : list (pyval * pyval) :=
  match kvs with
  | [] => [(k, v)]
  | (k', v') :: kvs' =>
      if py_eq k' k then (k', v) :: kvs' else (k', v') :: dict_put kvs' k v
  end.

Definition negate (v : pyval) : pyval :=
  match v with
  | PyInt n => PyInt (- n)
  | PyFloat (FFin s m e) => PyFloat (FFin (negb s) m e)
  | PyFloat (FInf s) => PyFloat (FInf (negb s))
  | _ => v
  end.

(** [_convert_num]: a constant whose type is exactly [int] or [float] *)
Definition convert_num (e : expr) : outcome pyval :=
  match e with
  | EConst (PyInt n) => Val (PyInt n)
  | EConst (PyFloat f) => Val (PyFloat f)
  | _ => Malformed
  end.

(** [_convert_signed_num] *)
Definition convert_signed_num (e : expr) : outcome pyval :=
  match e with
  | EUnary minus operand =>
      v ← convert_num operand; Val (if minus then negate v else v)
  | _ => convert_num e
  end.

Definition is_set_call (func : expr) (args : list expr) : bool :=
  match func, args with
  | EName id, [] => str_eqb id "set"
  | _, _ => false
  end.

(** The loops of [_convert] over the elements of a display; they convert
    from left to right; a set hashes each element, a dict each key, as
    soon as it is converted. *)
Fixpoint convert_elts (conv : expr -> outcome pyval) (es : list expr)
  : outcome (list pyval) :=
  match es with
  | [] => Val []
  | x :: es' => v ← conv x; vs ← convert_elts conv es'; Val (v :: vs)
  end.

Fixpoint convert_set (conv : expr -> outcome pyval) (es : list expr)
    (acc : list pyval) : outcome pyval :=
  match es with
  | [] => Val (PySet acc)
  | x :: es' => v ← conv x; v ← hashed v; convert_set conv es' (set_add acc v)
  end.

Fixpoint convert_dict (conv : expr -> outcome pyval)
    (items : list (expr * expr)) (acc : list (pyval * pyval))
  : outcome pyval :=
  match items with
  | [] => Val (PyDict acc)
  | (k, x) :: items' =>
      k ← conv k; v ← conv x; k ← hashed k;
      convert_dict conv items' (dict_put acc k v)
  end.

(** [_convert] *)
Fixpoint convert (e : expr) : outcome pyval :=
  match e with
  | EConst v => Val v
  | ETuple elts => vs ← convert_elts convert elts; Val (PyTuple vs)
  | EList elts => vs ← convert_elts convert elts; Val (PyList vs)
  | ESet elts => convert_set convert elts []
  | EDict items => convert_dict convert items []
  | ECall func args =>
      if is_set_call func args then Val (PySet []) else convert_signed_num e
  | EBin lhs _ rhs =>
      _ ← convert_signed_num lhs; _ ← convert_num rhs; Malformed
  | _ => convert_signed_num e
  end.

(** [str.lstrip(" \t")] *)
Fixpoint lstrip_blanks (s : str) : str :=
  match s with
  | c :: s' => if chr_is 32 c || chr_is 9 c then lstrip_blanks s' else s
  | [] => []
  end.

(** A last line of blanks only, not closed by a line end, counts as
    indented (CPython 3.11). *)
Fixpoint dangling_indent (col : nat) (blank : bool) (s : str) : bool :=
  match s with
  | [] => blank && Nat.ltb 0 col
  | c :: s' =>
      if is_eol c then dangling_indent 0 true s'
      else if chr_is 32 c || chr_is 9 c then dangling_indent (S col) blank s'
      else if chr_is 12 c then dangling_indent 0 blank s'
      else dangling_indent col false s'
  end.

Definition literal_eval (text : str) : outcome pyval :=
  let text := lstrip_blanks text in
  if existsb (chr_is 0) text then Malformed
  else if Nat.ltb 0 (first_column 0 false text) then Malformed
  else if dangling_indent 0 true text then Malformed
  else match lex (S (length text)) 0 true text with
       | None => Malformed
       | Some ts =>
           match parse ts with
           | Some e => convert e
           | None => Malformed
           end
       end.

End Ast.

(** ** The decoders of [EnhancedJSONParser] *)

(** Exceptions that leave a method of the parser; [ReadError] stands for
    the exception that reading a file raised ([OSError],
    [UnicodeDecodeError]). *)
Inductive exn : Type :=
| TypeError (msg : str)
| UnicodeEncodeError (msg : str)
| ReadError (msg : str).

(** [str(e)] *)
Definition exn_message (e : exn) : str :=
  match e with
  | TypeError msg => msg
  | UnicodeEncodeError msg => msg
  | ReadError msg => msg
  end.

Inductive result (A : Type) : Type :=
| Ok (a : A)
| Raise (e : exn).

Arguments Ok {A} a.
Arguments Raise {A} e.

(** [try_parse_json]: [json.loads], [None] on [JSONDecodeError] *)
Definition try_parse_json (json_str : str) : option pyval :=
  Json.loads json_str.

(** [try_parse_with_ast]: every single quote becomes a double quote, the
    text is evaluated as a literal; [ValueError] and [SyntaxError] give
    [None], a [TypeError] is not caught. *)
Definition try_parse_with_ast (json_str : str) : result (option pyval) :=
  let json_str := replace_char squote dquote json_str in
  match Ast.literal_eval json_str with
  | Ast.Val v => Ok (Some v)
  | Ast.Malformed => Ok None
  | Ast.Unhashable ty =>
      Raise (TypeError ("unhashable type: '" ++ ty ++ "'"))
  end.

(** ** The score heuristic: [extract_scores_from_text] *)

(** The pattern "\b(\d+)\b" *)
Definition re_number : re :=
  Seq WordB (Seq (Group (Plus (Cls is_decimal))) WordB).

Record scores : Type := Scores {
  ad_attitude_scores : list Z;
  purchase_intention_scores : list Z
}.

Definition in_likert (n : Z) : bool := ((1 <=? n) && (n <=? 7))%Z.

Definition extract_scores_from_text (text : str) : scores :=
  let result := Scores [] [] in
  let numbers := findall1 re_number text in
  if negb (is_nil numbers) then
    let nums := List.filter in_likert (map int_of_digits numbers) in
    let result :=
      if contains "attitude" (lower text) || contains "like" (lower text)
      then Scores (if Nat.leb 4 (length nums) then take 4 nums else nums)
                  (purchase_intention_scores result)
      else result in
    let result :=
      if contains "intention" (lower text) || contains "purchase" (lower text)
      then Scores (ad_attitude_scores result)
                  (if Nat.leb 7 (length nums)
                   then drop 4 (take 7 nums) else drop 4 nums)
      else result in
    result
  else result.

Definition int_list (l : list Z) : pyval := PyList (map PyInt l).

(** [result = {'ad_type': 'unknown'}; result.update(scores)] *)
Definition unknown_record (sc : scores) : pyval :=
  PyDict [ (PyStr (u "ad_type"), PyStr (u "unknown"));
           (PyStr (u "ad_attitude_scores"), int_list (ad_attitude_scores sc));
           (PyStr (u "purchase_intention_scores"),
            int_list (purchase_intention_scores sc)) ].

(** ** The pipeline: [parse_response] *)

(** The strategies, and what a run of the pipeline tried: the pipeline is
    instrumented with the list of its attempts, in order. *)
Inductive strategy : Type :=
| StructDirect
| BlockStruct
| BlockLenient
| Heuristic.

Record event : Type := Event {
  ev_strategy : strategy;
  ev_input : str;
  ev_success : bool
}.

Definition traced (A : Type) : Type := list event * result A.

#[export] Instance traced_ret : MRet traced := fun A a => ([], Ok a).

#[export] Instance traced_bind : MBind traced := fun A B f x =>
  match x with
  | (t, Ok a) => let '(t', r) := f a in (t ++ t', r)
  | (t, Raise e) => (t, Raise e)
  end.

(** One attempt: its outcome, and its entry in the trace; the attempt
    succeeds when the value it returns is true for [if parsed:]. *)
Definition attempt (s : strategy) (input : str) (r : result (option pyval))
  : traced (option pyval) :=
  match r with
  | Ok parsed => ([Event s input (is_true parsed)], Ok parsed)
  | Raise e => ([Event s input false], Raise e)
  end.

(** [for block in json_blocks: parsed = decode(block); if parsed: return
    parsed]: the value returned from inside the loop, [None] when the loop
    runs to its end. *)
Fixpoint first_success (s : strategy) (decode : str -> result (option pyval))
    (json_blocks : list str) : traced (option pyval) :=
  match json_blocks with
  | [] => mret None
  | block :: json_blocks' =>
      parsed ← attempt s block (decode block);
      if is_true parsed then mret parsed
      else first_success s decode json_blocks'
  end.

Definition parse_response (response_text : str) : traced (option pyval) :=
  if is_nil (strip response_text) then mret None
  else
    let cleaned_text := clean_json_string response_text in
    parsed ← attempt StructDirect cleaned_text
               (Ok (try_parse_json cleaned_text));
    if is_true parsed then mret parsed
    else
      let json_blocks := extract_json_blocks cleaned_text in
      parsed ← first_success BlockStruct (fun b => Ok (try_parse_json b))
                 json_blocks;
      if is_true parsed then mret parsed
      else
        parsed ← first_success BlockLenient try_parse_with_ast json_blocks;
        if is_true parsed then mret parsed
        else
          let sc := extract_scores_from_text response_text in
          let found := negb (is_nil (ad_attitude_scores sc))
                       || negb (is_nil (purchase_intention_scores sc)) in
          parsed ← attempt Heuristic response_text
                     (Ok (if found then Some (unknown_record sc) else None));
          mret parsed.

(** What [parse_response] returns or raises, and what it tried. *)
Definition parse (response_text : str) : result (option pyval) :=
  snd (parse_response response_text).

Definition attempts (response_text : str) : list event :=
  fst (parse_response response_text).

(** ** One response file: [process_file] *)

(** What the surrounding I/O layer hands over: the text of the response
    file, or the message of the exception that reading it raised; and the
    metadata file, absent, loaded by [json.load], or failing likewise. *)
Inductive read : Type :=
| ReadOk (text : str)
| ReadFails (msg : str).

Inductive meta : Type :=
| MetaAbsent
| MetaLoaded (v : pyval)
| MetaFails (msg : str).

Definition type_name (v : pyval) : str :=
  list_ascii_of_string
    match v with
    | PyNone => "NoneType"
    | PyBool _ => "bool"
    | PyInt _ => "int"
    | PyFloat _ => "float"
    | PyStr _ => "str"
    | PyEllipsis => "ellipsis"
    | PyList _ => "list"
    | PyTuple _ => "tuple"
    | PySet _ => "set"
    | PyDict _ => "dict"
    end.

Definition mapping_items (v : pyval) : result (list (pyval * pyval)) :=
  match v with
  | PyDict kvs => Ok kvs
  | _ => Raise (TypeError ("'" ++ type_name v ++ "' object is not a mapping"))
  end.

(** The display [{**metadata, **parsed_json}]: the keys of both, a key of
    both with the value of [parsed_json]. *)
Definition merge (metadata parsed_json : pyval) : result pyval :=
  match mapping_items metadata with
  | Raise e => Raise e
  | Ok ms =>
      match mapping_items parsed_json with
      | Raise e => Raise e
      | Ok ps =>
          Ok (PyDict (fold_left (fun acc kv => Ast.dict_put acc kv.1 kv.2)
                                (ms ++ ps) []))
      end
  end.

Definition no_valid_json : str := "No valid JSON found".

Definition process_file (response_file : read) (metadata_file : meta)
  : bool * str * option pyval :=
  match response_file with
  | ReadFails msg => (false, msg, None)
  | ReadOk response_text =>
      match metadata_file with
      | MetaFails msg => (false, msg, None)
      | _ =>
          let metadata :=
            match metadata_file with
            | MetaLoaded v => v
            | _ => PyDict []
            end in
          match parse response_text with
          | Raise e => (false, exn_message e, None)
          | Ok parsed_json =>
              if is_true parsed_json then
                match merge metadata (default PyNone parsed_json) with
                | Ok result => (true, list_ascii_of_string "Success", Some result)
                | Raise e => (false, exn_message e, None)
                end
              else (false, no_valid_json, None)
          end
      end
  end.

(** ** The batch: [process_experiment_directory] *)

Definition is_surrogate (n : N) : bool := ((55296 <=? n) && (n <=? 57343))%N.

Definition encode_error (x : ustr) : option exn :=
  if existsb is_surrogate x
  then Some (UnicodeEncodeError "surrogates not allowed")
  else None.

Definition not_serializable (v : pyval) : exn :=
  TypeError ("Object of type " ++ type_name v ++ " is not JSON serializable").

Definition bad_key (k : pyval) : exn :=
  TypeError ("keys must be str, int, float, bool or None, not " ++ type_name k).

(** [json.dump(result, f, indent=2, ensure_ascii=False)] to a UTF-8 file:
    the exception it raises, if any.  A set and [...] are not
    serializable, a key is a string, a number or [None], and a lone
    surrogate cannot be written. *)
Fixpoint dump_error (v : pyval) : option exn :=
  match v with
  | PyNone | PyBool _ | PyInt _ | PyFloat _ => None
  | PyStr x => encode_error x
  | PyList l | PyTuple l =>
      (fix first (l : list pyval) : option exn :=
         match l with
         | [] => None
         | x :: l' => or_else (dump_error x) (first l')
         end) l
  | PyDict kvs =>
      (fix first (kvs : list (pyval * pyval)) : option exn :=
         match kvs with
         | [] => None
         | (k, x) :: kvs' =>
             or_else
               match k with
               | PyStr y => encode_error y
               | PyNone | PyBool _ | PyInt _ | PyFloat _ => None
               | _ => Some (bad_key k)
               end
               (or_else (dump_error x) (first kvs'))
         end) kvs
  | PySet _ | PyEllipsis => Some (not_serializable v)
  end.

Record stats : Type := Stats {
  total_processed : nat;
  successful : nat;
  failed : nat;
  error_types : gmap str nat
}.

(** [self.stats] as [__init__] leaves it *)
Definition fresh_stats : stats := Stats 0 0 0 ∅.

(** [error_msg.split(':')[0] if ':' in error_msg else error_msg] *)
Definition error_type (error_msg : str) : str :=
  fst (span (fun c => negb (Ascii.eqb c ":")) error_msg).

Definition count_error (st : stats) (error_msg : str) : stats :=
  let ty := error_type error_msg in
  Stats (total_processed st) (successful st) (S (failed st))
        (<[ty := S (default 0 (error_types st !! ty))]> (error_types st)).

Record response_entry : Type := Entry {
  response_file : read;
  metadata_file : meta
}.

(** One round of the loop over the response files: the statistics after
    it, and the exception that leaves the loop, if one does.  Writing the
    output files is left to the I/O layer; of [json.dump] the model keeps
    the exception it raises on a record it cannot write.  After a failure
    the response file is read once more for the error report, outside any
    [try]: a file that could not be read the first time cannot be read
    then either. *)
Definition process_entry (st : stats) (f : response_entry)
  : stats * option exn :=
  let st := Stats (S (total_processed st)) (successful st) (failed st)
                  (error_types st) in
  let '(success, error_msg, result) :=
    process_file (response_file f) (metadata_file f) in
  if success then
    match dump_error (default PyNone result) with
    | Some e => (st, Some e)
    | None =>
        (Stats (total_processed st) (S (successful st)) (failed st)
               (error_types st), None)
    end
  else
    let st := count_error st error_msg in
    match response_file f with
    | ReadOk _ => (st, None)
    | ReadFails msg => (st, Some (ReadError msg))
    end.

Fixpoint process_experiment_directory (st : stats)
    (response_files : list response_entry) : stats * option exn :=
  match response_files with
  | [] => (st, None)
  | f :: response_files' =>
      match process_entry st f with
      | (st', None) => process_experiment_directory st' response_files'
      | (st', Some e) => (st', Some e)
      end
  end.

(** [process_all_experiments]: the directories one after the other, on the
    same statistics. *)
Fixpoint process_all_experiments (st : stats)
    (experiments : list (list response_entry)) : stats * option exn :=
  match experiments with
  | [] => (st, None)
  | d :: experiments' =>
      match process_experiment_directory st d with
      | (st', None) => process_all_experiments st' experiments'
      | (st', Some e) => (st', Some e)
      end
  end.

(** ** The names of the files of a directory

    [process_experiment_directory] takes the response files from the
    listing of the directory and makes the names of the files that go with
    them; [process_all_experiments] makes the name of the output
    directory. *)

(** [s.endswith(suffix)] *)
Definition ends_with (suffix s : str) : bool :=
  starts_with (rev suffix) (rev s).

(** [s.replace(old, new)] for a non-empty [old]: every occurrence of
    [old], from left to right, none overlapping another; [skip] counts
    the characters of an occurrence that are still to be passed over. *)
Fixpoint replace_from (skip : nat) (old new s : str) : str :=
  match s with
  | [] => []
  | c :: s' =>
      match skip with
      | S n => replace_from n old new s'
      | O =>
          if starts_with old s
          then new ++ replace_from (pred (length old)) old new s'
          else c :: replace_from 0 old new s'
      end
  end.

Definition replace (old new s : str) : str := replace_from 0 old new s.

(** The test of the comprehension over [os.listdir(response_dir)] *)
Definition is_response_file (f : str) : bool :=
  ends_with ".txt" f && negb (ends_with "_metadata.json" f).

Definition response_files (listing : list str) : list str :=
  List.filter is_response_file listing.

(** The files that go with a response file *)
Definition metadata_filename (response_file : str) : str :=
  replace ".txt" "_metadata.json" response_file.

Definition json_filename (response_file : str) : str :=
  replace ".txt" ".json" response_file.

Definition error_filename (response_file : str) : str :=
  replace ".txt" "_parse_error.txt" response_file.

(** The output directory of an experiment directory *)
Definition json_experiment_dir (experiment_dir : str) : str :=
  replace "experiment_responses_" "experiment_outputs_" experiment_dir.

(** ** Notions used to state the properties *)

(** Bracket nesting of a text for one pair of brackets: the depth never
    falls below zero and ends at zero. *)
Fixpoint balanced_from (o c : ascii) (depth : nat) (s : str) : bool :=
  match s with
  | [] => Nat.eqb depth 0
  | x :: s' =>
      if Ascii.eqb x o then balanced_from o c (S depth) s'
      else if Ascii.eqb x c then
        match depth with
        | O => false
        | S d => balanced_from o c d s'
        end
      else balanced_from o c depth s'
  end.

Definition balanced (o c : ascii) (s : str) : bool := balanced_from o c 0 s.

(** The values JSON can denote: no tuple, no set, no [...]; keys are
    strings. *)
Fixpoint json_value (v : pyval) : bool :=
  match v with
  | PyNone | PyBool _ | PyInt _ | PyFloat _ | PyStr _ => true
  | PyList l => forallb json_value l
  | PyDict kvs =>
      forallb (fun kv => match fst kv with
                         | PyStr _ => json_value (snd kv)
                         | _ => false
                         end) kvs
  | PyTuple _ | PySet _ | PyEllipsis => false
  end.

(** A word character immediately followed by a colon *)
Fixpoint bare_key_in (s : str) : bool :=
  match s with
  | a :: s' =>
      match s' with
      | b :: _ => (is_word a && Ascii.eqb b ":") || bare_key_in s'
      | [] => false
      end
  | [] => false
  end.

(** The texts a pattern can match, whatever stands around them: [$] and
    [\b] match the empty text. *)
Fixpoint lang (r : re) (w : str) : Prop :=
  match r with
  | Eps | Eol _ | WordB => w = []
  | Cls p => exists c, w = [c] /\ p c = true
  | Seq r1 r2 => exists w1 w2, w = w1 ++ w2 /\ lang r1 w1 /\ lang r2 w2
  | Star _ r1 => exists ws, w = concat ws /\ Forall (lang r1) ws
  | Group r1 => lang r1 w
  end.

(** The deepest nesting of one pair of brackets in a text, from [depth]. *)
Fixpoint max_depth (o c : ascii) (depth : nat) (s : str) : nat :=
  match s with
  | [] => depth
  | x :: s' =>
      if Ascii.eqb x o then max depth (max_depth o c (S depth) s')
      else if Ascii.eqb x c then max depth (max_depth o c (pred depth) s')
      else max_depth o c depth s'
  end.

(** A matching step is sound for a set of texts: a match consumes one of
    them, and the continuation succeeds on what is left. *)
Definition sound_step
    (step : (mstate -> option mstate) -> mstate -> option mstate)
    (L : str -> Prop) : Prop :=
  forall k st out, step k st = Some out ->
  exists w st', rest st = w ++ rest st' /\ L w /\ k st' = Some out.


(** The next character, if there is one, is not of the class: a
    repetition of the class stops here. *)
Definition stops (p : ascii -> bool) (tail : str) : Prop :=
  match tail with [] => True | y :: _ => p y = false end.

(** Text without the brackets [o] and [c], and the inner pair of the
    object and array patterns: an opening bracket, plain text, a closing
    bracket, plain text. *)
Definition plain_text (o c : ascii) (w : str) : Prop :=
  forallb (none_of [o; c]) w = true.

Definition inner_pair (o c : ascii) : re :=
  Seq (Chr o) (Seq (Star true (Cls (none_of [o; c])))
                   (Seq (Chr c) (Star true (Cls (none_of [o; c]))))).


(** The replacement of the bare-key rule: the group between quotes, and
    the colon. *)
Definition bare_key_template : list titem :=
  [TChr dquote; TGroup1] ++ [TChr dquote; TChr ":"%char].

(** The bare-key rule in the words of its description: every longest run
    of word characters that a colon follows at once is put between double
    quotes, wherever it stands; [word] holds the run read so far,
    backwards. *)
Fixpoint wrap_bare_words (word : str) (s : str) : str :=
  match s with
  | [] => rev word
  | x :: s' =>
      if is_word x then wrap_bare_words (x :: word) s'
      else if Ascii.eqb x ":" && negb (is_nil word)
      then dquote :: rev word ++ dquote :: x :: wrap_bare_words [] s'
      else rev word ++ x :: wrap_bare_words [] s'
  end.

(** The pattern has no match in the text. *)
Definition no_match (r : re) (s : str) : Prop := search r false None s = None.

(** The attempts the pipeline makes when none succeeds, in order. *)
Definition plan (response_text : str) : list (strategy * str) :=
  let cleaned_text := clean_json_string response_text in
  let json_blocks := extract_json_blocks cleaned_text in
  (StructDirect, cleaned_text)
    :: map (pair BlockStruct) json_blocks
    ++ map (pair BlockLenient) json_blocks
    ++ [(Heuristic, response_text)].

Definition ev_key (e : event) : strategy * str := (ev_strategy e, ev_input e).

(** The keywords of the heuristic, and the numbers it keeps *)
Definition attitude_keyword (text : str) : bool :=
  contains "attitude" (lower text) || contains "like" (lower text).

Definition intention_keyword (text : str) : bool :=
  contains "intention" (lower text) || contains "purchase" (lower text).

Definition likert_numbers (text : str) : list Z :=
  List.filter in_likert (map int_of_digits (findall1 re_number text)).

Definition entry_count (experiments : list (list response_entry)) : nat :=
  length (concat experiments).

(** The response file can be read, and its record, if there is one, can
    be written by [json.dump]. *)
Definition writable (f : response_entry) : Prop :=
  (exists text, response_file f = ReadOk text)
  /\ match process_file (response_file f) (metadata_file f) with
     | (true, _, Some result) => dump_error result = None
     | _ => True
     end.

Definition metadata_loaded (m : meta) : Prop :=
  match m with MetaFails _ => False | _ => True end.

(** No attempt of the trace succeeded. *)
Definition failing (t : list event) : Prop :=
  Forall (fun e => ev_success e = false) t.

(** What the heuristic contributes to [parse_response] *)
Definition heuristic_result (text : str) : option pyval :=
  let sc := extract_scores_from_text text in
  if negb (is_nil (ad_attitude_scores sc))
     || negb (is_nil (purchase_intention_scores sc))
  then Some (unknown_record sc) else None.

(** A block is given up by a decoder: the decoder returns, and returns
    nothing that is true for [if parsed:]. *)
Definition gives_up (decode : str -> result (option pyval)) (b : str) : Prop :=
  exists o, decode b = Ok o /\ is_true o = false.

(** The failures the statistics record by type, all types together. *)
Definition type_total (m : gmap str nat) : nat :=
  map_fold (fun _ n acc => n + acc) 0 m.

Definition error_total (st : stats) : nat := type_total (error_types st).

(** The statistics are consistent: the failures by type add up to the
    failures, no type holds a colon, and no type is recorded with a count
    of zero. *)
Definition consistent (st : stats) : Prop :=
  error_total st = failed st
  /\ forall ty n, error_types st !! ty = Some n -> (":"%char ∉ ty) /\ 0 < n.

(** [d.get(k)]: the value of the first pair whose key equals [k]. *)
Fixpoint dict_get (kvs : list (pyval * pyval)) (k : pyval) : option pyval :=
  match kvs with
  | [] => None
  | (k', v) :: kvs' => if Ast.py_eq k' k then Some v else dict_get kvs' k
  end.

(** The texts [bs] are parts of [s] that follow one another without
    overlap. *)
Fixpoint scattered (bs : list str) (s : str) : Prop :=
  match bs with
  | [] => True
  | b :: bs' => exists pre post, s = pre ++ b ++ post /\ scattered bs' post
  end.

(** The exception [json.dump] raises on a key, if any. *)
Definition key_error (k : pyval) : option exn :=
  match k with
  | PyStr y => encode_error y
  | PyNone | PyBool _ | PyInt _ | PyFloat _ => None
  | _ => Some (bad_key k)
  end.

(** The pairs of a dict that JSON can denote: string keys, JSON values. *)
Definition json_items (kvs : list (pyval * pyval)) : bool :=
  forallb (fun kv => match fst kv with
                     | PyStr _ => json_value (snd kv)
                     | _ => false
                     end) kvs.

(** The metadata, where there is any, can be written by [json.dump]. *)
Definition metadata_writable (m : meta) : Prop :=
  match m with
  | MetaLoaded md => dump_error md = None
  | _ => True
  end.

(** The comment rule in the words of its description: every line is cut
    at its first double slash; [in_comment] holds from there to the end of
    the line. *)
Fixpoint cut_comments (in_comment : bool) (s : str) : str :=
  match s with
  | [] => []
  | c :: s' =>
      if in_comment then
        if is_newline c then c :: cut_comments false s'
        else cut_comments true s'
      else if starts_with "//" s then cut_comments true s'
      else c :: cut_comments false s'
  end.

(** The numbers of a text in the words of the pattern of the heuristic:
    the longest runs of word characters that are made of digits only, in
    the order of the text; [word] holds the run read so far, backwards. *)
Definition number_word (word : str) : list str :=
  if negb (is_nil word) && forallb is_decimal word then [rev word] else [].

Fixpoint digit_words (word : str) (s : str) : list str :=
  match s with
  | [] => number_word word
  | x :: s' =>
      if is_word x then digit_words (x :: word) s'
      else number_word word ++ digit_words [] s'
  end.

(** The patterns of the sanitizer, in the order of its rules *)
Definition sanitizer_patterns : list re :=
  [ re_fence_open; re_fence_close; re_comment; re_paren_note; re_bare_key;
    re_comma_before "}"; re_comma_before "]" ].

(** The exception comes from reading a file. *)
Definition read_error (e : exn) : bool :=
  match e with ReadError _ => true | _ => false end.

(** How the counters stand when a run ends: they add up, unless the
    exception of [json.dump] ended it, which leaves the last input counted
    as processed only. *)
Definition counters_stand (st : stats) (x : option exn) : Prop :=
  match x with
  | Some e =>
      if read_error e
      then successful st + failed st = total_processed st
      else S (successful st + failed st) = total_processed st
  | None => successful st + failed st = total_processed st
  end.

(** The longest run of decimal digits in a text; [run] counts the digits
    just read. *)
Fixpoint longest_digit_run (run : nat) (s : str) : nat :=
  match s with
  | [] => run
  | c :: s' =>
      if is_decimal c then longest_digit_run (S run) s'
      else max run (longest_digit_run 0 s')
  end.

(** The names of the types that cannot be hashed *)
Definition unhashable_types : list str :=
  map list_ascii_of_string ["list"; "dict"; "set"].

(** * Properties *)

Arguments clean_json_string : simpl never.
Arguments extract_json_blocks : simpl never.
Arguments extract_scores_from_text : simpl never.
Arguments try_parse_json : simpl never.
Arguments try_parse_with_ast : simpl never.

(** ** The heuristic *)

Lemma extract_scores_spec (text : str) :
  extract_scores_from_text text =
  Scores (if attitude_keyword text then take 4 (likert_numbers text) else [])
         (if intention_keyword text
          then take 3 (drop 4 (likert_numbers text)) else []).
Proof.
  unfold extract_scores_from_text, attitude_keyword, intention_keyword,
    likert_numbers.
  destruct (findall1 re_number text) as [|n ns] eqn:Hn; simpl negb; cbv iota.
  - simpl. destruct (_ || _); destruct (_ || _); reflexivity.
  - set (nums := List.filter in_likert (map int_of_digits (n :: ns))).
    assert (Ha : (if Nat.leb 4 (length nums) then take 4 nums else nums)
                 = take 4 nums).
    { destruct (Nat.leb_spec 4 (length nums)); [reflexivity|].
      symmetry. apply take_ge. lia. }
    assert (Hi : (if Nat.leb 7 (length nums)
                  then drop 4 (take 7 nums) else drop 4 nums)
                 = take 3 (drop 4 nums)).
    { destruct (Nat.leb_spec 7 (length nums)).
      - rewrite take_drop_commute. reflexivity.
      - symmetry. apply take_ge. rewrite length_drop. lia. }
    rewrite Ha, Hi.
    destruct (_ || _); destruct (_ || _); reflexivity.
Qed.


(** ** The pipeline *)

(** [parse_response] with the binds of its monad carried out. *)
Lemma parse_response_eq (text : str) :
  parse_response text =
  if is_nil (strip text) then ([], Ok None)
  else
    let c := clean_json_string text in
    let e0 := Event StructDirect c (is_true (try_parse_json c)) in
    if is_true (try_parse_json c) then ([e0], Ok (try_parse_json c))
    else
      let bs := extract_json_blocks c in
      match first_success BlockStruct (fun b => Ok (try_parse_json b)) bs with
      | (t1, Raise e) => (e0 :: t1, Raise e)
      | (t1, Ok p1) =>
          if is_true p1 then (e0 :: t1, Ok p1)
          else
            match first_success BlockLenient try_parse_with_ast bs with
            | (t2, Raise e) => (e0 :: t1 ++ t2, Raise e)
            | (t2, Ok p2) =>
                if is_true p2 then (e0 :: t1 ++ t2, Ok p2)
                else
                  let h := heuristic_result text in
                  (e0 :: t1 ++ t2 ++ [Event Heuristic text (is_true h)], Ok h)
            end
      end.
Proof.
  unfold parse_response, heuristic_result.
  destruct (is_nil (strip text)); [reflexivity|].
  cbv zeta. unfold mbind, traced_bind, mret, traced_ret, attempt.
  destruct (is_true (try_parse_json (clean_json_string text))) eqn:Hd;
    [reflexivity|].
  destruct (first_success BlockStruct _ _) as [t1 [p1|e1]]; [|reflexivity].
  destruct (is_true p1); [simpl; rewrite app_nil_r; reflexivity|].
  destruct (first_success BlockLenient _ _) as [t2 [p2|e2]]; [|reflexivity].
  destruct (is_true p2); [simpl; rewrite app_nil_r; reflexivity|].
  reflexivity.
Qed.

Section FirstSuccess.
Variable s : strategy.
Variable decode : str -> result (option pyval).

Lemma first_success_cons (b : str) (bs : list str) :
  first_success s decode (b :: bs) =
  match decode b with
  | Raise e => ([Event s b false], Raise e)
  | Ok o =>
      if is_true o then ([Event s b true], Ok o)
      else let '(t, r) := first_success s decode bs in
           (Event s b false :: t, r)
  end.
Proof.
  simpl. unfold mbind, traced_bind, attempt, mret, traced_ret.
  destruct (decode b) as [o|e]; [|reflexivity].
  destruct (is_true o) eqn:Ho; [reflexivity|].
  destruct (first_success s decode bs). reflexivity.
Qed.

Lemma first_success_strategy (bs : list str) :
  Forall (fun e => ev_strategy e = s) (fst (first_success s decode bs)).
Proof.
  induction bs as [|b bs IH]; [constructor|].
  rewrite first_success_cons.
  destruct (decode b) as [o|e]; [|repeat constructor].
  destruct (is_true o); [repeat constructor|].
  destruct (first_success s decode bs). simpl in *. constructor; auto.
Qed.

Lemma first_success_prefix (bs : list str) :
  map ev_key (fst (first_success s decode bs)) `prefix_of` map (pair s) bs.
Proof.
  induction bs as [|b bs IH]; [reflexivity|].
  rewrite first_success_cons.
  destruct (decode b) as [o|e].
  - destruct (is_true o).
    + simpl. exists (map (pair s) bs). reflexivity.
    + destruct (first_success s decode bs). simpl in *.
      apply prefix_cons. exact IH.
  - simpl. exists (map (pair s) bs). reflexivity.
Qed.

(** The loop returns a true value: from the last block it tried. *)
Lemma first_success_found (bs : list str) (t : list event) (o : option pyval) :
  first_success s decode bs = (t, Ok o) -> is_true o = true ->
  exists t' b, t = t' ++ [Event s b true] /\ failing t' /\ decode b = Ok o.
Proof.
  revert t. induction bs as [|b bs IH]; intros t.
  - simpl. intros [= <- <-]. discriminate.
  - rewrite first_success_cons.
    destruct (decode b) as [o'|e] eqn:Hb; [|discriminate].
    destruct (is_true o') eqn:Ho'.
    + intros [= <- <-] _. exists [], b. repeat split; [constructor|exact Hb].
    + destruct (first_success s decode bs) as [t0 r0].
      intros [= <- ->] Ho.
      destruct (IH t0 eq_refl Ho) as (t' & b' & -> & Hf & Hd).
      exists (Event s b false :: t'), b'.
      repeat split; [constructor; auto | exact Hd].
Qed.

(** The loop runs to its end: every block was tried and given up. *)
Lemma first_success_exhausted (bs : list str) (t : list event)
    (o : option pyval) :
  first_success s decode bs = (t, Ok o) -> is_true o = false ->
  o = None /\ t = map (fun b => Event s b false) bs /\ Forall (gives_up decode) bs.
Proof.
  revert t. induction bs as [|b bs IH]; intros t.
  - simpl. intros [= <- <-] _. repeat split. constructor.
  - rewrite first_success_cons.
    destruct (decode b) as [o'|e] eqn:Hb; [|discriminate].
    destruct (is_true o') eqn:Ho'.
    + intros [= <- <-] Ho. congruence.
    + destruct (first_success s decode bs) as [t0 r0].
      intros [= <- ->] Ho.
      destruct (IH t0 eq_refl Ho) as (-> & -> & Hall).
      repeat split. constructor; [|exact Hall]. exists o'. auto.
Qed.

Lemma first_success_all_give_up (bs : list str) :
  Forall (gives_up decode) bs ->
  first_success s decode bs = (map (fun b => Event s b false) bs, Ok None).
Proof.
  induction 1 as [|b bs (o & Hb & Ho) _ IH]; [reflexivity|].
  rewrite first_success_cons, Hb, Ho, IH. reflexivity.
Qed.

(** The loop is left by an exception: nothing before it was true. *)
Lemma first_success_raised (bs : list str) (t : list event) (e : exn) :
  first_success s decode bs = (t, Raise e) ->
  failing t /\ ~ Forall (gives_up decode) bs.
Proof.
  revert t. induction bs as [|b bs IH]; intros t.
  - simpl. discriminate.
  - rewrite first_success_cons.
    destruct (decode b) as [o'|e'] eqn:Hb.
    + destruct (is_true o') eqn:Ho'; [discriminate|].
      destruct (first_success s decode bs) as [t0 r0].
      intros [= <- ->]. destruct (IH t0 eq_refl) as [Hf Hn].
      split; [constructor; auto|].
      intros Hall. apply Hn. inversion Hall; assumption.
    + intros [= <- <-]. split; [repeat constructor|].
      intros Hall. inversion Hall as [|? ? (o & Ho & _) _]; congruence.
Qed.
End FirstSuccess.

Lemma failing_app (t1 t2 : list event) :
  failing t1 -> failing t2 -> failing (t1 ++ t2).
Proof. apply Forall_app_2. Qed.

Lemma failing_given_up (s : strategy) (bs : list str) :
  failing (map (fun b => Event s b false) bs).
Proof. apply Forall_forall. intros e [b [-> _]]%list_elem_of_fmap. reflexivity. Qed.

(** After attempts that all failed, at most one more: a success is last. *)
Lemma success_is_last (f : list event) (tl : list event) :
  failing f -> length tl <= 1 ->
  forall pre e post,
    f ++ tl = pre ++ e :: post -> ev_success e = true -> post = [].
Proof.
  intros Hf Htl pre e post Heq He.
  destruct (decide (length pre < length f)) as [Hlt|Hge].
  - exfalso.
    assert (Hl : (f ++ tl) !! length pre = Some e)
      by (rewrite Heq; apply list_lookup_middle; reflexivity).
    rewrite lookup_app_l in Hl by exact Hlt.
    rewrite (Forall_lookup_1 _ _ _ _ Hf Hl) in He. discriminate.
  - apply (f_equal length) in Heq. rewrite !length_app in Heq.
    simpl in Heq. destruct post; [reflexivity|simpl in Heq; lia].
Qed.

(** The seven ways through [parse_response]: blank text; a true value
    from the whole text, from a block by the strict decoder, from a block
    by the lenient decoder; the heuristic; and an exception in either
    loop. *)
Ltac pipeline_cases text :=
  unfold attempts, parse; rewrite (parse_response_eq text);
  destruct (is_nil (strip text)) eqn:Hblank;
  [|cbv zeta;
    destruct (is_true (try_parse_json (clean_json_string text))) eqn:Hdirect;
    [|destruct (first_success BlockStruct _ _) as [t1 [p1|e1]] eqn:Hs1;
      [destruct (is_true p1) eqn:Hp1;
       [|destruct (first_success BlockLenient _ _) as [t2 [p2|e2]] eqn:Hs2;
         [destruct (is_true p2) eqn:Hp2|]]|]]];
  simpl fst; simpl snd.

Lemma is_nil_true {A} (l : list A) : is_nil l = true <-> l = [].
Proof. destruct l; simpl; split; congruence. Qed.

Lemma is_nil_false {A} (l : list A) : is_nil l = false <-> l <> [].
Proof. destruct l; simpl; split; congruence. Qed.

Lemma map_ev_key_given_up (s : strategy) (bs : list str) :
  map ev_key (map (fun b => Event s b false) bs) = map (pair s) bs.
Proof. rewrite map_map. reflexivity. Qed.

Lemma attempts_follow_plan (text : str) :
  map ev_key (attempts text) `prefix_of` plan text.
Proof.
  pose proof (first_success_prefix BlockStruct (fun b => Ok (try_parse_json b))
                (extract_json_blocks (clean_json_string text))) as H1.
  pose proof (first_success_prefix BlockLenient try_parse_with_ast
                (extract_json_blocks (clean_json_string text))) as H2.
  unfold plan. pipeline_cases text.
  - apply prefix_nil.
  - apply prefix_cons, prefix_nil.
  - cbn [fst] in H1. rewrite map_cons.
    apply prefix_cons, prefix_app_r. exact H1.
  - apply first_success_exhausted in Hs1 as (_ & -> & _); [|exact Hp1].
    cbn [fst] in H2.
    rewrite map_cons, map_app, map_ev_key_given_up.
    apply prefix_cons, prefix_app, prefix_app_r. exact H2.
  - apply first_success_exhausted in Hs1 as (_ & -> & _); [|exact Hp1].
    apply first_success_exhausted in Hs2 as (_ & -> & _); [|exact Hp2].
    rewrite map_cons, !map_app, !map_ev_key_given_up. reflexivity.
  - apply first_success_exhausted in Hs1 as (_ & -> & _); [|exact Hp1].
    cbn [fst] in H2.
    rewrite map_cons, map_app, map_ev_key_given_up.
    apply prefix_cons, prefix_app, prefix_app_r. exact H2.
  - cbn [fst] in H1. rewrite map_cons.
    apply prefix_cons, prefix_app_r. exact H1.
Qed.

Lemma attempts_success_last (text : str) (pre : list event) (e : event)
    (post : list event) :
  attempts text = pre ++ e :: post -> ev_success e = true -> post = [].
Proof.
  revert pre e post. pipeline_cases text; intros pre e post.
  - destruct pre; discriminate.
  - apply (success_is_last [] [_]); [constructor|simpl; lia].
  - apply first_success_found in Hs1 as (t' & b & -> & Hf & _); [|exact Hp1].
    apply (success_is_last (_ :: t') [_]); [|simpl; lia].
    constructor; [reflexivity|exact Hf].
  - apply first_success_exhausted in Hs1 as (_ & -> & _); [|exact Hp1].
    apply first_success_found in Hs2 as (t' & b & -> & Hf & _); [|exact Hp2].
    rewrite app_assoc.
    apply (success_is_last (_ :: _ ++ t') [_]); [|simpl; lia].
    constructor; [reflexivity|].
    apply failing_app; [apply failing_given_up|exact Hf].
  - apply first_success_exhausted in Hs1 as (_ & -> & _); [|exact Hp1].
    apply first_success_exhausted in Hs2 as (_ & -> & _); [|exact Hp2].
    rewrite app_assoc.
    apply (success_is_last (_ :: _ ++ _) [_]); [|simpl; lia].
    constructor; [reflexivity|].
    apply failing_app; apply failing_given_up.
  - apply first_success_exhausted in Hs1 as (_ & -> & _); [|exact Hp1].
    apply first_success_raised in Hs2 as [Hf _].
    rewrite <- (app_nil_r (_ :: _ ++ t2)).
    apply (success_is_last (_ :: _ ++ t2) []); [|simpl; lia].
    constructor; [reflexivity|].
    apply failing_app; [apply failing_given_up|exact Hf].
  - apply first_success_raised in Hs1 as [Hf _].
    rewrite <- (app_nil_r (_ :: t1)).
    apply (success_is_last (_ :: t1) []); [|simpl; lia].
    constructor; [reflexivity|exact Hf].
Qed.

Lemma heuristic_tried_iff (text : str) :
  (exists e, e ∈ attempts text /\ ev_strategy e = Heuristic) <->
  strip text <> []
  /\ is_true (try_parse_json (clean_json_string text)) = false
  /\ Forall (gives_up (fun b => Ok (try_parse_json b)))
            (extract_json_blocks (clean_json_string text))
  /\ Forall (gives_up try_parse_with_ast)
            (extract_json_blocks (clean_json_string text)).
Proof.
  set (bs := extract_json_blocks (clean_json_string text)).
  pose proof (first_success_strategy BlockStruct
                (fun b => Ok (try_parse_json b)) bs) as S1.
  pose proof (first_success_strategy BlockLenient try_parse_with_ast bs) as S2.
  pose proof (first_success_all_give_up BlockStruct
                (fun b => Ok (try_parse_json b)) bs) as A1.
  pose proof (first_success_all_give_up BlockLenient try_parse_with_ast bs)
    as A2.
  assert (Hno : forall (s : strategy) (t : list event) (e : event),
             Forall (fun e => ev_strategy e = s) t -> s <> Heuristic ->
             e ∈ t -> ev_strategy e = Heuristic -> False).
  { intros s t e Hall Hs Hin He. apply Hs. rewrite <- He.
    symmetry. exact (proj1 (Forall_forall _ _) Hall e Hin). }
  subst bs. pipeline_cases text; cbn [fst] in S1, S2.
  - split.
    + intros (e & Hin & _). inversion Hin.
    + intros (Hne & _). apply is_nil_true in Hblank. contradiction.
  - split.
    + intros (e & Hin & He).
      apply list_elem_of_singleton in Hin as ->. discriminate.
    + intros (_ & Hd & _). congruence.
  - split.
    + intros (e & Hin & He). exfalso.
      apply elem_of_cons in Hin as [->|Hin]; [discriminate|].
      eapply (Hno BlockStruct); eauto; discriminate.
    + intros (_ & _ & G1 & _). specialize (A1 G1).
      apply (f_equal snd) in A1. cbn [snd] in A1.
      injection A1 as ->. discriminate.
  - split.
    + intros (e & Hin & He). exfalso.
      apply elem_of_cons in Hin as [->|Hin]; [discriminate|].
      apply elem_of_app in Hin as [Hin|Hin].
      * eapply (Hno BlockStruct); eauto; discriminate.
      * eapply (Hno BlockLenient); eauto; discriminate.
    + intros (_ & _ & _ & G2). specialize (A2 G2).
      apply (f_equal snd) in A2. cbn [snd] in A2.
      injection A2 as ->. discriminate.
  - split.
    + intros _. apply is_nil_false in Hblank.
      apply first_success_exhausted in Hs1 as (_ & _ & G1); [|exact Hp1].
      apply first_success_exhausted in Hs2 as (_ & _ & G2); [|exact Hp2].
      auto.
    + intros _.
      exists (Event Heuristic text (is_true (heuristic_result text))).
      split; [|reflexivity].
      rewrite !app_comm_cons, !app_assoc. apply elem_of_app. right.
      apply list_elem_of_singleton. reflexivity.
  - split.
    + intros (e & Hin & He). exfalso.
      apply elem_of_cons in Hin as [->|Hin]; [discriminate|].
      apply elem_of_app in Hin as [Hin|Hin].
      * eapply (Hno BlockStruct); eauto; discriminate.
      * eapply (Hno BlockLenient); eauto; discriminate.
    + intros (_ & _ & _ & G2). specialize (A2 G2).
      apply (f_equal snd) in A2. cbn [snd] in A2. discriminate.
  - split.
    + intros (e & Hin & He). exfalso.
      apply elem_of_cons in Hin as [->|Hin]; [discriminate|].
      eapply (Hno BlockStruct); eauto; discriminate.
    + intros (_ & _ & G1 & _). specialize (A1 G1).
      apply (f_equal snd) in A1. cbn [snd] in A1. discriminate.
Qed.

(** What [parse_response] returns is what its last attempt found: a
    record exactly when an attempt succeeded. *)
Lemma parse_returns_success (text : str) :
  (forall v, parse text = Ok (Some v) ->
     truthy v = true /\ exists e, e ∈ attempts text /\ ev_success e = true)
  /\ ((exists e, e ∈ attempts text /\ ev_success e = true) ->
      exists v, parse text = Ok (Some v)).
Proof.
  assert (Hsome : forall o, is_true o = true -> exists v, o = Some v).
  { intros [v|]; [eauto|discriminate]. }
  assert (Hfail : forall t e, e ∈ t -> ev_success e = true -> failing t -> False).
  { intros t e Hin He Hf.
    rewrite (proj1 (Forall_forall _ _) Hf e Hin) in He. discriminate. }
  pipeline_cases text.
  - split; [discriminate|]. intros (e & Hin & _). inversion Hin.
  - split.
    + intros v Hv. injection Hv as Hv. rewrite Hv in Hdirect.
      split; [exact Hdirect|]. eexists. split; [left|reflexivity].
    + intros _. destruct (Hsome _ Hdirect) as [v ->]. eauto.
  - split.
    + intros v [= ->]. split; [exact Hp1|].
      apply first_success_found in Hs1 as (t' & b & -> & _ & _); [|exact Hp1].
      eexists.
      split; [rewrite ?app_comm_cons, ?app_assoc; apply elem_of_app; right; left
             |reflexivity].
    + intros _. destruct (Hsome _ Hp1) as [v ->]. eauto.
  - split.
    + intros v [= ->]. split; [exact Hp2|].
      apply first_success_found in Hs2 as (t' & b & -> & _ & _); [|exact Hp2].
      eexists.
      split; [rewrite ?app_comm_cons, ?app_assoc; apply elem_of_app; right; left
             |reflexivity].
    + intros _. destruct (Hsome _ Hp2) as [v ->]. eauto.
  - apply first_success_exhausted in Hs1 as (_ & -> & _); [|exact Hp1].
    apply first_success_exhausted in Hs2 as (_ & -> & _); [|exact Hp2].
    split.
    + intros v Hv. injection Hv as Hv. rewrite Hv.
      unfold heuristic_result in Hv.
      destruct (_ || _); [|discriminate]. injection Hv as <-.
      split; [reflexivity|]. eexists.
      split; [rewrite ?app_comm_cons, ?app_assoc; apply elem_of_app; right; left
             |reflexivity].
    + intros (e & Hin & He).
      apply elem_of_cons in Hin as [->|Hin]; [cbn [ev_success] in He; congruence|].
      apply elem_of_app in Hin as [Hin|Hin];
        [exfalso; apply (Hfail _ _ Hin He), failing_given_up|].
      apply elem_of_app in Hin as [Hin|Hin];
        [exfalso; apply (Hfail _ _ Hin He), failing_given_up|].
      apply list_elem_of_singleton in Hin as ->. cbn [ev_success] in He.
      destruct (Hsome _ He) as [v ->]. eauto.
  - apply first_success_exhausted in Hs1 as (_ & -> & _); [|exact Hp1].
    apply first_success_raised in Hs2 as [Hf _].
    split; [discriminate|]. intros (e & Hin & He). exfalso.
    apply elem_of_cons in Hin as [->|Hin]; [cbn [ev_success] in He; congruence|].
    apply elem_of_app in Hin as [Hin|Hin]; apply (Hfail _ _ Hin He);
      [apply failing_given_up|exact Hf].
  - apply first_success_raised in Hs1 as [Hf _].
    split; [discriminate|]. intros (e & Hin & He). exfalso.
    apply elem_of_cons in Hin as [->|Hin]; [cbn [ev_success] in He; congruence|].
    apply (Hfail _ _ Hin He). exact Hf.
Qed.

(** ** Trimming *)

Lemma lstrip_length (s : str) : length (lstrip s) <= length s.
Proof. induction s as [|c s IH]; simpl; [lia|]. destruct (is_space c); simpl; lia. Qed.

Lemma lstrip_fixed (s : str) :
  lstrip s = s <-> match s with [] => True | c :: _ => is_space c = false end.
Proof.
  destruct s as [|c s]; simpl; [tauto|].
  destruct (is_space c) eqn:Hc; split; try congruence.
  intros H. pose proof (lstrip_length s) as Hl. rewrite H in Hl.
  simpl in Hl. lia.
Qed.

Lemma lstrip_idem (s : str) : lstrip (lstrip s) = lstrip s.
Proof.
  induction s as [|c s IH]; [reflexivity|]. simpl.
  destruct (is_space c) eqn:Hc; [exact IH|]. simpl. rewrite Hc. reflexivity.
Qed.

(** [lstrip] removes a run of white space from the front. *)
Lemma lstrip_split (s : str) :
  exists ws, s = ws ++ lstrip s /\ forallb is_space ws = true.
Proof.
  induction s as [|c s (ws & Hs & Hws)]; [exists []; auto|]. simpl.
  destruct (is_space c) eqn:Hc.
  - exists (c :: ws). split; [simpl; congruence|simpl; rewrite Hc; exact Hws].
  - exists []. auto.
Qed.

Lemma rstrip_split (s : str) :
  exists ws, s = rstrip s ++ ws /\ forallb is_space ws = true.
Proof.
  unfold rstrip. destruct (lstrip_split (rev s)) as (ws & Hs & Hws).
  exists (rev ws). split.
  - rewrite <- rev_app_distr, <- Hs, rev_involutive. reflexivity.
  - rewrite forallb_forall in *. intros x Hx. apply Hws, in_rev. exact Hx.
Qed.

Lemma strip_split (s : str) :
  exists l r, s = l ++ strip s ++ r
              /\ forallb is_space l = true /\ forallb is_space r = true.
Proof.
  unfold strip. destruct (lstrip_split s) as (l & Hl & Hls).
  destruct (rstrip_split (lstrip s)) as (r & Hr & Hrs).
  exists l, r. split; [|auto]. rewrite <- Hr. exact Hl.
Qed.

Lemma strip_idem (s : str) : strip (strip s) = strip s.
Proof.
  assert (Hl : lstrip (strip s) = strip s).
  { apply lstrip_fixed. unfold strip.
    destruct (rstrip_split (lstrip s)) as (ws & Hs & _).
    destruct (rstrip (lstrip s)) as [|c x] eqn:Hx; [exact I|].
    pose proof (lstrip_idem s) as Hi. rewrite Hs in Hi. simpl in Hi.
    destruct (is_space c) eqn:Hc; [|reflexivity].
    pose proof (lstrip_length (x ++ ws)) as Hlen. rewrite Hi in Hlen.
    simpl in Hlen. lia. }
  unfold strip at 1. rewrite Hl. unfold strip, rstrip.
  rewrite rev_involutive, lstrip_idem. reflexivity.
Qed.

Lemma clean_json_string_stripped (text : str) :
  strip (clean_json_string text) = clean_json_string text.
Proof. unfold clean_json_string. apply strip_idem. Qed.

(** ** The strict decoder comes first *)

(** When the sanitized text decodes to a true value, that value is
    returned, from the first attempt. *)
Lemma parse_direct (text : str) (v : pyval) :
  strip text <> [] ->
  try_parse_json (clean_json_string text) = Some v -> truthy v = true ->
  parse text = Ok (Some v)
  /\ attempts text = [Event StructDirect (clean_json_string text) true].
Proof.
  intros Hne Hd Hv. unfold parse, attempts. rewrite parse_response_eq.
  apply is_nil_false in Hne. rewrite Hne. cbv zeta. rewrite Hd.
  cbn [is_true]. rewrite Hv. split; reflexivity.
Qed.

Lemma parse_blank (text : str) :
  strip text = [] -> parse text = Ok None /\ attempts text = [].
Proof.
  intros Hb. unfold parse, attempts. rewrite parse_response_eq.
  apply is_nil_true in Hb. rewrite Hb. split; reflexivity.
Qed.

(** ** The order of the strategies *)

(** C6 (as amended): the attempts follow the plan -- the whole sanitized
    text, then every block by the strict decoder, then every block by the
    lenient decoder, then the heuristic -- and stop at the first attempt
    that returns a value true for [if parsed:], which is what [parse]
    returns.  The heuristic is tried if and only if the raw text is not
    blank, the strict decoder returned nothing true on the whole sanitized
    text, and both decoders returned, and returned nothing true, on every
    block.  A value that is not true (an empty object, an empty list, 0)
    counts as a failure of its attempt. *)
Theorem C6_strategies_in_order (text : str) :
  map ev_key (attempts text) `prefix_of` plan text
  /\ (forall pre e post,
        attempts text = pre ++ e :: post -> ev_success e = true -> post = [])
  /\ ((exists e, e ∈ attempts text /\ ev_strategy e = Heuristic) <->
      strip text <> []
      /\ is_true (try_parse_json (clean_json_string text)) = false
      /\ Forall (gives_up (fun b => Ok (try_parse_json b)))
                (extract_json_blocks (clean_json_string text))
      /\ Forall (gives_up try_parse_with_ast)
                (extract_json_blocks (clean_json_string text)))
  /\ (forall v, parse text = Ok (Some v) ->
        truthy v = true /\ exists e, e ∈ attempts text /\ ev_success e = true)
  /\ ((exists e, e ∈ attempts text /\ ev_success e = true) ->
      exists v, parse text = Ok (Some v)).
Proof.
  split; [apply attempts_follow_plan|].
  split; [apply attempts_success_last|].
  split; [apply heuristic_tried_iff|].
  apply parse_returns_success.
Qed.

(** C6 fails as stated, in both directions.  On the text of an empty
    object the strict decoder does not fail, on the whole text or on the
    blocks, and the heuristic is tried all the same; on a blank text the
    strict decoder fails on the sanitized text and there is no block, and
    the heuristic is not tried. *)
Lemma C6_counterexample :
  clean_json_string "{}" = "{}"
  /\ try_parse_json "{}" = Some (PyDict [])
  /\ map ev_key (attempts "{}")
     = [ (StructDirect, "{}" : str); (BlockStruct, "{}" : str);
         (BlockStruct, "{}" : str); (BlockLenient, "{}" : str);
         (BlockLenient, "{}" : str); (Heuristic, "{}" : str) ]
  /\ try_parse_json (clean_json_string " ") = None
  /\ extract_json_blocks (clean_json_string " ") = []
  /\ attempts " " = [].
Proof. repeat split; vm_compute; reflexivity. Qed.

(** ** Blank input *)

(** C9 (as amended): on a blank raw text [parse_response] tries nothing
    and returns [None].  [process_file] then reports a failure: with the
    reason [No valid JSON found], which is also its error type in the
    statistics, when the metadata file is absent or has been loaded --
    the reason it reports whenever [parse_response] returns [None], so
    also when every strategy has failed; and with the message of the
    exception when the metadata file could not be loaded, for the
    metadata is read before the response is parsed. *)
Theorem C9_blank_input_fails (text : str) (m : meta) :
  strip text = [] ->
  attempts text = []
  /\ parse text = Ok None
  /\ process_file (ReadOk text) m
     = match m with
       | MetaFails msg => (false, msg, None)
       | _ => (false, no_valid_json, None)
       end
  /\ error_type no_valid_json = no_valid_json
  /\ forall text' : str,
       parse text' = Ok None ->
       process_file (ReadOk text') m = process_file (ReadOk text) m.
Proof.
  intros Hb. destruct (parse_blank text Hb) as [Hp Ha].
  assert (Hnone : forall t, parse t = Ok None ->
            process_file (ReadOk t) m
            = match m with
              | MetaFails msg => (false, msg, None)
              | _ => (false, no_valid_json, None)
              end).
  { intros t Ht. unfold process_file. rewrite Ht. destruct m; reflexivity. }
  split; [exact Ha|]. split; [exact Hp|]. split; [apply Hnone, Hp|].
  split; [reflexivity|].
  intros text' Ht. rewrite !Hnone by assumption. reflexivity.
Qed.

Lemma C9_blank_input_fails_witness :
  let text : str := "  " in
  let m := MetaFails "Expecting value: line 1 column 1 (char 0)" in
  strip text = []
  /\ attempts text = []
  /\ parse text = Ok None
  /\ process_file (ReadOk text) m
     = (false, "Expecting value: line 1 column 1 (char 0)" : str, None)
  /\ process_file (ReadOk text) MetaAbsent = (false, no_valid_json, None).
Proof.
  cbv zeta. split; [reflexivity|].
  destruct (C9_blank_input_fails "  "
              (MetaFails "Expecting value: line 1 column 1 (char 0)")
              eq_refl) as (H1 & H2 & H3 & _).
  destruct (C9_blank_input_fails "  " MetaAbsent eq_refl)
    as (_ & _ & H4 & _).
  auto.
Defined.

(** C9 fails as stated: there is no kind [EmptyInput].  The empty text and
    a text from which nothing can be recovered get the same failure, with
    the same reason, and are counted under the same error type. *)
Lemma C9_counterexample :
  process_file (ReadOk []) MetaAbsent
  = (false, "No valid JSON found" : str, None)
  /\ process_file (ReadOk "Sorry, I cannot answer.") MetaAbsent
     = (false, "No valid JSON found" : str, None)
  /\ error_type (snd (fst (process_file (ReadOk []) MetaAbsent)))
     = error_type
         (snd (fst (process_file (ReadOk "Sorry, I cannot answer.") MetaAbsent))).
Proof. repeat split; vm_compute; reflexivity. Qed.

(** ** The counters *)

(** The run comes to its end when every record can be written. *)
Lemma process_experiment_directory_completes (files : list response_entry)
    (st : stats) :
  Forall writable files ->
  snd (process_experiment_directory st files) = None.
Proof.
  intros Hall. revert st.
  induction Hall as [|f files Hf _ IH]; intros st; [reflexivity|]. simpl.
  assert (Hx : snd (process_entry st f) = None).
  { unfold process_entry, writable in *. destruct Hf as [[text Hr] Hf].
    rewrite Hr in *.
    destruct (process_file _ _) as [[[|] msg] [r|]]; try reflexivity.
    simpl. rewrite Hf. reflexivity. }
  destruct (process_entry st f) as [st1 [e|]]; [discriminate|]. apply IH.
Qed.

(** ** The quote substitution of the lenient decoder *)

Lemma replace_char_lookup (a b : ascii) (s : str) (i : nat) :
  replace_char a b s !! i
  = ((fun c => if Ascii.eqb c a then b else c) <$> (s !! i)).
Proof. unfold replace_char. apply list_lookup_fmap. Qed.

(** C5 (as amended): the quote substitution replaces every single quote of
    the block by a double quote, wherever it stands, inside double-quoted
    string literals as well; every other character stays in its place, and
    only a block without single quotes is left untouched. *)
Theorem C5_every_single_quote_replaced (json_str : str) :
  let replaced := replace_char squote dquote json_str in
  length replaced = length json_str
  /\ (forall i c, json_str !! i = Some c ->
        replaced !! i = Some (if Ascii.eqb c squote then dquote else c))
  /\ (squote ∉ replaced)
  /\ (replaced = json_str <-> squote ∉ json_str)
  /\ try_parse_with_ast json_str = try_parse_with_ast replaced.
Proof.
  cbv zeta. split; [apply length_map|].
  split; [intros i c Hi; rewrite replace_char_lookup, Hi; reflexivity|].
  assert (Hno : forall s, squote ∉ replace_char squote dquote s).
  { intros s [c [Hc _]]%list_elem_of_fmap.
    destruct (Ascii.eqb c squote) eqn:E; [discriminate|].
    subst c. rewrite Ascii.eqb_refl in E. discriminate. }
  assert (Hid : forall s, squote ∉ s -> replace_char squote dquote s = s).
  { induction s as [|c s IH]; [reflexivity|]. intros Hn. simpl.
    rewrite IH by set_solver.
    destruct (Ascii.eqb_spec c squote) as [->|]; [set_solver|reflexivity]. }
  split; [apply Hno|]. split.
  - split; [intros <-; apply Hno|apply Hid].
  - unfold try_parse_with_ast. rewrite (Hid (replace_char _ _ _)) by apply Hno.
    reflexivity.
Qed.

(** C5 fails as stated: in a block whose double-quoted string value holds
    an apostrophe, the substitution turns the apostrophe into a double
    quote; the text that results is no literal any more, and the lenient
    decoder returns nothing for a block that the strict decoder reads. *)
Lemma C5_counterexample :
  replace_char squote dquote (txt "{~a~: ~it's~}") = txt "{~a~: ~it~s~}"
  /\ try_parse_with_ast (txt "{~a~: ~it's~}") = Ok None
  /\ try_parse_json (txt "{~a~: ~it's~}")
     = Some (PyDict [(PyStr (u "a"), PyStr (u "it's"))]).
Proof. repeat split; vm_compute; reflexivity. Qed.

(** ** The lenient decoder accepts Python literals *)


(** ** What a match of a pattern is *)

Lemma or_else_some {A} (x y : option A) (a : A) :
  or_else x y = Some a -> x = Some a \/ y = Some a.
Proof. destruct x; simpl; auto. Qed.

Lemma star_loop_sound step L (greedy : bool) :
  sound_step step L ->
  forall n, sound_step (fun k => star_loop step greedy k n)
                       (fun w => exists ws, w = concat ws /\ Forall L ws).
Proof.
  intros Hstep n. induction n as [|n IH]; intros k st out; simpl.
  - intros Hk. exists [], st. split; [reflexivity|].
    split; [exists []; auto|exact Hk].
  - intros H.
    assert (Hcases : k st = Some out \/
              step (fun st' =>
                      if Nat.ltb (length (rest st')) (length (rest st))
                      then star_loop step greedy k n st' else None) st
              = Some out).
    { destruct greedy; apply or_else_some in H; tauto. }
    destruct Hcases as [Hk|Hagain].
    + exists [], st. split; [reflexivity|]. split; [exists []; auto|exact Hk].
    + apply Hstep in Hagain as (w1 & st1 & Hr1 & Hw1 & Hk1).
      destruct (Nat.ltb _ _); [|discriminate].
      apply IH in Hk1 as (w2 & st2 & Hr2 & (ws & -> & Hws) & Hk2).
      exists (w1 ++ concat ws), st2.
      split; [rewrite Hr1, Hr2, app_assoc; reflexivity|].
      split; [exists (w1 :: ws); split; [reflexivity|constructor; auto]|].
      exact Hk2.
Qed.

Lemma run_sound (r : re) : sound_step (run r) (lang r).
Proof.
  induction r as [|p|r1 IH1 r2 IH2|greedy r1 IH1|r1 IH1|m|];
    intros k st out; cbn [run lang].
  - intros Hk. exists [], st. auto.
  - destruct st as [pv [|c s'] g]; simpl; [discriminate|].
    destruct (p c) eqn:Hp; [|discriminate]. intros Hk.
    exists [c], (advance c s' (MState pv (c :: s') g)). simpl. eauto.
  - intros H. apply IH1 in H as (w1 & st1 & Hr1 & Hw1 & H).
    apply IH2 in H as (w2 & st2 & Hr2 & Hw2 & H).
    exists (w1 ++ w2), st2. rewrite Hr1, Hr2, app_assoc.
    split; [reflexivity|]. split; [exists w1, w2; auto|exact H].
  - apply (star_loop_sound (run r1) (lang r1) greedy IH1).
  - intros H. apply IH1 in H as (w1 & st1 & Hr1 & Hw1 & H).
    eexists w1, (MState _ (rest st1) _). simpl.
    split; [exact Hr1|]. split; [exact Hw1|exact H].
  - destruct (at_eol m (rest st)); [|discriminate]. intros Hk.
    exists [], st. auto.
  - destruct (xorb _ _); [|discriminate]. intros Hk. exists [], st. auto.
Qed.

Lemma consumed_app (p : option ascii) (w : str) (st' : mstate) :
  consumed (MState p (w ++ rest st') None) st' = w.
Proof.
  unfold consumed. simpl. rewrite length_app.
  replace (length w + length (rest st') - length (rest st')) with (length w)
    by lia.
  apply take_app_length.
Qed.

Lemma match_at_sound (r : re) (adv : bool) (p : option ascii) (s : str)
    (st' : mstate) :
  match_at r adv p s = Some st' ->
  exists w, s = w ++ rest st' /\ lang r w /\ (adv = true -> w <> []).
Proof.
  unfold match_at. intros H.
  apply run_sound in H as (w & st1 & Hr & Hw & Hfin). simpl in Hr.
  unfold finish in Hfin. simpl in Hfin.
  destruct (adv && _) eqn:Hadv; [discriminate|]. injection Hfin as <-.
  exists w. split; [exact Hr|]. split; [exact Hw|].
  intros -> ->. simpl in Hr. subst s. simpl in Hadv.
  rewrite Nat.eqb_refl in Hadv. discriminate.
Qed.

Lemma match_at_consumed (r : re) (adv : bool) (p : option ascii) (s : str)
    (st' : mstate) :
  match_at r adv p s = Some st' ->
  let whole := consumed (MState p s None) st' in
  s = whole ++ rest st' /\ lang r whole /\ (adv = true -> whole <> []).
Proof.
  intros H. apply match_at_sound in H as (w & -> & Hw & Hadv).
  cbv zeta. rewrite consumed_app. auto.
Qed.

(** What [search] finds: the text splits into what was skipped, the match,
    and what is left; the match is in the language of the pattern. *)
Lemma search_sound (r : re) (s : str) :
  forall adv p skipped whole st',
  search r adv p s = Some (skipped, whole, st') ->
  s = skipped ++ whole ++ rest st' /\ lang r whole
  /\ (adv = true -> skipped = [] -> whole <> []).
Proof.
  induction s as [|c s IH]; intros adv p skipped whole st'; simpl.
  - destruct (match_at r adv p []) as [st1|] eqn:Hm; [|discriminate].
    intros [= <- <- <-].
    apply match_at_consumed in Hm as (Hs & Hw & Hadv). auto.
  - destruct (match_at r adv p (c :: s)) as [st1|] eqn:Hm.
    + intros [= <- <- <-].
      apply match_at_consumed in Hm as (Hs & Hw & Hadv). auto.
    + destruct (search r false (Some c) s) as [[[sk wh] st1]|] eqn:Hsr;
        [|discriminate].
      intros [= <- <- <-]. apply IH in Hsr as (Hs & Hw & _).
      split; [simpl; congruence|]. split; [exact Hw|]. discriminate.
Qed.

Lemma findall_loop_sound (r : re) (fuel : nat) :
  forall adv p s b g,
  (b, g) ∈ findall_loop fuel r adv p s -> lang r b.
Proof.
  induction fuel as [|fuel IH]; intros adv p s b g; simpl.
  - intros H. inversion H.
  - destruct (search r adv p s) as [[[sk wh] st1]|] eqn:Hsr;
      [|intros H; inversion H].
    intros [[= -> ->]|Hin]%elem_of_cons.
    + apply search_sound in Hsr. tauto.
    + eapply IH. exact Hin.
Qed.

(** Every text that [findall] returns is in the language of the pattern. *)
Lemma findall_sound (r : re) (s : str) (b : str) :
  b ∈ findall r s -> lang r b.
Proof.
  unfold findall, matches.
  intros [[b' g] [-> Hin]]%list_elem_of_fmap.
  eapply findall_loop_sound. exact Hin.
Qed.

Lemma search_whole (r : re) (Q : str -> Prop) :
  (forall adv p s st', match_at r adv p s = Some st' ->
                       Q (consumed (MState p s None) st')) ->
  forall s adv p skipped whole st',
    search r adv p s = Some (skipped, whole, st') -> Q whole.
Proof.
  intros HQ s. induction s as [|c s IH]; intros adv p skipped whole st'; simpl.
  - destruct (match_at r adv p []) as [st1|] eqn:Hm; [|discriminate].
    intros [= <- <- <-]. eapply HQ. exact Hm.
  - destruct (match_at r adv p (c :: s)) as [st1|] eqn:Hm.
    + intros [= <- <- <-]. eapply HQ. exact Hm.
    + destruct (search r false (Some c) s) as [[[sk wh] st1]|] eqn:Hsr;
        [|discriminate].
      intros [= <- <- <-]. eapply IH. exact Hsr.
Qed.

(** What holds of every match of a pattern holds of every text that
    [findall] returns. *)
Lemma findall_whole (r : re) (Q : str -> Prop) :
  (forall adv p s st', match_at r adv p s = Some st' ->
                       Q (consumed (MState p s None) st')) ->
  forall s b, b ∈ findall r s -> Q b.
Proof.
  intros HQ s b. unfold findall, matches.
  intros [[b' g] [-> Hin]]%list_elem_of_fmap. simpl.
  revert Hin. generalize (loop_fuel s), false, (@None ascii). revert s.
  intros s' fuel. revert s'.
  induction fuel as [|fuel IH]; intros s' adv p; simpl.
  - intros H. inversion H.
  - destruct (search r adv p s') as [[[sk wh] st1]|] eqn:Hsr;
      [|intros H; inversion H].
    intros [[= -> ->]|Hin]%elem_of_cons.
    + eapply search_whole; eauto.
    + eapply IH. exact Hin.
Qed.

(** ** The block locator *)

Lemma lang_chr (c : ascii) (w : str) : lang (Chr c) w -> w = [c].
Proof.
  intros (x & -> & Hx). apply Ascii.eqb_eq in Hx. subst x. reflexivity.
Qed.

Lemma lang_star_cls (greedy : bool) (p : ascii -> bool) (w : str) :
  lang (Star greedy (Cls p)) w -> forallb p w = true.
Proof.
  intros (ws & -> & Hws). induction Hws as [|x ws (c & -> & Hc) _ IH];
    [reflexivity|].
  simpl. rewrite Hc. exact IH.
Qed.

Section Nesting.
Variables o c : ascii.
Hypothesis o_c : o <> c.

Lemma none_of_brackets (x : ascii) :
  none_of [o; c] x = true -> Ascii.eqb x o = false /\ Ascii.eqb x c = false.
Proof.
  unfold none_of. simpl. rewrite orb_false_r, negb_true_iff, orb_false_iff.
  auto.
Qed.

Lemma balanced_from_plain (w s : str) (d : nat) :
  plain_text o c w -> balanced_from o c d (w ++ s) = balanced_from o c d s.
Proof.
  unfold plain_text. induction w as [|x w IH]; [reflexivity|]. simpl.
  intros [Hx Hw]%andb_true_iff.
  apply none_of_brackets in Hx as [-> ->]. auto.
Qed.

Lemma max_depth_plain (w s : str) (d : nat) :
  plain_text o c w -> max_depth o c d (w ++ s) = max_depth o c d s.
Proof.
  unfold plain_text. induction w as [|x w IH]; [reflexivity|]. simpl.
  intros [Hx Hw]%andb_true_iff.
  apply none_of_brackets in Hx as [-> ->]. auto.
Qed.

Lemma eqb_c_o : Ascii.eqb c o = false.
Proof. apply Ascii.eqb_neq. congruence. Qed.

Lemma lang_inner (g : str) :
  lang (inner_pair o c) g ->
  exists b a, g = o :: b ++ c :: a /\ plain_text o c b /\ plain_text o c a.
Proof.
  intros (w1 & r1 & -> & ->%lang_chr & w2 & r2 & -> & Hb%lang_star_cls
          & w3 & w4 & -> & ->%lang_chr & Ha%lang_star_cls).
  exists w2, w4. auto.
Qed.

Lemma inner_groups_nest (gs : list str) :
  Forall (lang (inner_pair o c)) gs ->
  balanced_from o c 1 (concat gs ++ [c]) = true
  /\ max_depth o c 1 (concat gs ++ [c]) <= 2.
Proof.
  induction 1 as [|g gs (b & a & -> & Hb & Ha)%lang_inner _ [IHb IHd]];
    simpl.
  - rewrite eqb_c_o, Ascii.eqb_refl. split; [reflexivity|lia].
  - rewrite Ascii.eqb_refl, <- !app_assoc. simpl.
    rewrite balanced_from_plain, max_depth_plain by exact Hb. simpl.
    rewrite eqb_c_o, Ascii.eqb_refl.
    rewrite balanced_from_plain, max_depth_plain by exact Ha.
    simpl. split; [exact IHb|lia].
Qed.

(** The texts of the pattern of an object or an array: a pair of
    brackets around plain text and inner pairs. *)
Lemma nest_pattern_balanced (w : str) :
  lang (Seq (Chr o)
         (Seq (Star true (Cls (none_of [o; c])))
           (Seq (Star true (inner_pair o c)) (Chr c)))) w ->
  balanced o c w = true /\ max_depth o c 0 w <= 2.
Proof.
  intros (w1 & r1 & -> & ->%lang_chr & w2 & r2 & -> & Ha%lang_star_cls
          & w3 & w4 & -> & (gs & -> & Hgs) & ->%lang_chr).
  unfold balanced. simpl. rewrite Ascii.eqb_refl.
  rewrite balanced_from_plain, max_depth_plain by exact Ha.
  destruct (inner_groups_nest gs Hgs) as [Hb Hd]. split; [exact Hb|lia].
Qed.
End Nesting.

Lemma run_cls_cons (p : ascii -> bool) (k : mstate -> option mstate)
    (pv : option ascii) (x : ascii) (s' : str) (g : option str) :
  run (Cls p) k (MState pv (x :: s') g)
  = if p x then k (MState (Some x) s' g) else None.
Proof. reflexivity. Qed.

Lemma run_cls_nil (p : ascii -> bool) (k : mstate -> option mstate)
    (pv : option ascii) (g : option str) :
  run (Cls p) k (MState pv [] g) = None.
Proof. reflexivity. Qed.

Lemma run_chr_cons (c : ascii) (k : mstate -> option mstate)
    (pv : option ascii) (x : ascii) (s' : str) (g : option str) :
  run (Chr c) k (MState pv (x :: s') g)
  = if Ascii.eqb c x then k (MState (Some x) s' g) else None.
Proof. reflexivity. Qed.

(** What follows a lazy [.*?] is tried first: the repetition stops before
    the first closing brace. *)
Lemma lazy_until_brace (kf : mstate -> option mstate) (bound : nat) :
  (forall st, length (rest st) < bound -> kf st = Some st) ->
  forall n st out,
    length (rest st) <= bound ->
    star_loop (run (Cls dot_all)) false (run (Chr "}") kf) n st = Some out ->
    exists body, rest st = body ++ "}"%char :: rest out
                 /\ "}"%char ∉ body.
Proof.
  intros Hkf.
  assert (Hk : forall pv x s' g out, length (x :: s') <= bound ->
             run (Chr "}") kf (MState pv (x :: s') g) = Some out ->
             x = "}"%char /\ rest out = s').
  { intros pv x s' g out Hlen. rewrite run_chr_cons.
    destruct (Ascii.eqb_spec "}" x) as [<-|]; [|discriminate].
    rewrite Hkf by (cbn [rest length] in *; lia).
    intros [= <-]. auto. }
  induction n as [|n IH]; intros [pv s g] out Hlen; cbn [star_loop rest] in *.
  - destruct s as [|x s']; [discriminate|].
    intros [-> Hr]%Hk; [|exact Hlen]. exists [].
    split; [rewrite Hr; reflexivity|apply not_elem_of_nil].
  - destruct s as [|x s']; [discriminate|].
    destruct (run (Chr "}") kf (MState pv (x :: s') g)) as [out'|] eqn:Hfirst;
      cbn [or_else].
    + intros [= <-]. apply Hk in Hfirst as [-> Hr]; [|exact Hlen].
      exists []. split; [rewrite Hr; reflexivity|apply not_elem_of_nil].
    + rewrite run_cls_cons. cbn [dot_all rest].
      rewrite (proj2 (Nat.ltb_lt (length s') (length (x :: s'))))
        by (cbn [length]; lia).
      intros H. apply IH in H as (body & Hr & Hnot);
        [|cbn [rest length] in *; lia].
      cbn [rest] in Hr. exists (x :: body).
      split; [cbn [app]; congruence|].
      intros [<-|Hin]%elem_of_cons; [|contradiction].
      rewrite run_chr_cons, Ascii.eqb_refl in Hfirst.
      rewrite Hkf in Hfirst by (cbn [rest length] in *; lia).
      discriminate.
Qed.

Lemma nested_pattern_match (adv : bool) (p : option ascii) (s : str)
    (st' : mstate) :
  match_at nested_pattern adv p s = Some st' ->
  exists body, consumed (MState p s None) st' = "{"%char :: body ++ ["}"%char]
               /\ "}"%char ∉ body.
Proof.
  unfold match_at, nested_pattern. cbn [run].
  destruct s as [|x s]; [discriminate|]. rewrite run_chr_cons.
  destruct (Ascii.eqb_spec "{" x) as [<-|]; [|discriminate].
  cbn [rest]. intros H.
  apply (lazy_until_brace _ (length s)) in H as (body & Hr & Hnot);
    [| |cbn [rest]; lia].
  - cbn [rest] in Hr. exists body. split; [|exact Hnot].
    rewrite Hr.
    replace ("{"%char :: body ++ "}"%char :: rest st')
      with (("{"%char :: body ++ ["}"%char]) ++ rest st')
      by (cbn [app]; rewrite <- app_assoc; reflexivity).
    apply consumed_app.
  - intros st Hlen. unfold finish. cbn [rest length].
    destruct (Nat.eqb_spec (length (rest st)) (S (length s))) as [E|_];
      [lia|]. rewrite andb_false_r. reflexivity.
Qed.

(** A text that opens a brace and closes one only at its end is balanced
    exactly when it opens no other brace. *)
Lemma balanced_one_closing (body : str) (d : nat) :
  "}"%char ∉ body -> 1 <= d ->
  balanced_from "{" "}" d (body ++ ["}"%char]) = true
  <-> d = 1 /\ "{"%char ∉ body.
Proof.
  revert d. induction body as [|x body IH]; intros d Hno Hd.
  - destruct d as [|[|d]]; [lia| |]; simpl.
    + split; [intros _; split; [reflexivity|apply not_elem_of_nil]|reflexivity].
    + split; [discriminate|intros [[=] _]].
  - apply not_elem_of_cons in Hno as [Hx Hno]. cbn [app balanced_from].
    destruct (Ascii.eqb_spec x "{") as [->|Hx'].
    + rewrite IH by (auto; lia). split; [lia|].
      intros [_ Hn]. exfalso. apply Hn. left.
    + destruct (Ascii.eqb_spec x "}") as [->|_]; [congruence|].
      rewrite IH by auto. rewrite not_elem_of_cons. intuition congruence.
Qed.

(** C2 (as amended): the block locator is a total function made of three
    patterns, without a depth counter.  Every candidate of the object
    pattern is balanced in its braces and every candidate of the array
    pattern in its square brackets, and neither nests deeper than two; a
    candidate of the third pattern runs from an opening brace to the first
    closing brace after it, and so is balanced only when it holds no other
    opening brace. *)
Theorem C2_candidates_of_the_patterns (text : str) (b : str) :
  extract_json_blocks text
  = findall json_pattern text ++ findall array_pattern text
    ++ findall nested_pattern text
  /\ (b ∈ findall json_pattern text ->
      balanced "{" "}" b = true /\ max_depth "{" "}" 0 b <= 2)
  /\ (b ∈ findall array_pattern text ->
      balanced "[" "]" b = true /\ max_depth "[" "]" 0 b <= 2)
  /\ (b ∈ findall nested_pattern text ->
      exists body,
        b = "{"%char :: body ++ ["}"%char] /\ ("}"%char ∉ body)
        /\ (balanced "{" "}" b = true <-> "{"%char ∉ body)).
Proof.
  split; [unfold extract_json_blocks; rewrite app_assoc; reflexivity|].
  split; [|split].
  - intros Hb%findall_sound.
    apply (nest_pattern_balanced "{" "}"); [discriminate|exact Hb].
  - intros Hb%findall_sound.
    apply (nest_pattern_balanced "[" "]"); [discriminate|exact Hb].
  - intros Hb.
    apply (findall_whole nested_pattern
             (fun b => exists body,
                b = "{"%char :: body ++ ["}"%char] /\ "}"%char ∉ body))
      in Hb as (body & -> & Hno); [|apply nested_pattern_match].
    exists body. split; [reflexivity|]. split; [exact Hno|].
    unfold balanced. cbn [balanced_from]. rewrite Ascii.eqb_refl.
    rewrite balanced_one_closing by (auto; lia). intuition.
Qed.

(** C2 fails as stated: the candidates come from regular expressions, not
    from a depth counter.  Of an object inside an object the third pattern
    returns the text up to the first closing brace, which is not balanced;
    of an object nested three deep the object itself is no candidate at
    all, only its inner part and an unbalanced beginning. *)
Lemma C2_counterexample :
  extract_json_blocks (txt "{~a~: {~b~: 1}}")
  = [txt "{~a~: {~b~: 1}}"; txt "{~a~: {~b~: 1}"]
  /\ balanced "{" "}" (txt "{~a~: {~b~: 1}") = false
  /\ extract_json_blocks (txt "{~a~:{~b~:{~c~:1}}}")
     = [txt "{~b~:{~c~:1}}"; txt "{~a~:{~b~:{~c~:1}"]
  /\ balanced "{" "}" (txt "{~a~:{~b~:{~c~:1}") = false.
Proof. repeat split; vm_compute; reflexivity. Qed.

(** ** The rounds of [re.sub] *)

Lemma sub_loop_skip (r : re) (t : list titem) (f : nat) (adv : bool)
    (p : option ascii) (x : ascii) (s' : str) :
  match_at r adv p (x :: s') = None ->
  sub_loop (S f) r t adv p (x :: s')
  = x :: sub_loop (S f) r t false (Some x) s'.
Proof.
  intros Hm. cbn [sub_loop search]. rewrite Hm.
  destruct (search r false (Some x) s') as [[[sk wh] st1]|]; reflexivity.
Qed.

Lemma search_match (r : re) (adv : bool) (p : option ascii) (s : str)
    (st' : mstate) :
  match_at r adv p s = Some st' ->
  search r adv p s = Some ([], consumed (MState p s None) st', st').
Proof. intros Hm. destruct s; cbn [search]; rewrite Hm; reflexivity. Qed.

Lemma sub_loop_match (r : re) (t : list titem) (f : nat) (adv : bool)
    (p : option ascii) (s : str) (st' : mstate) :
  match_at r adv p s = Some st' ->
  sub_loop (S f) r t adv p s
  = expand t (grp st')
    ++ sub_loop f r t (is_nil (consumed (MState p s None) st'))
         (prev st') (rest st').
Proof. intros Hm. cbn [sub_loop]. rewrite (search_match _ _ _ _ _ Hm). reflexivity. Qed.

Lemma sub_loop_nil (r : re) (t : list titem) (f : nat) (adv : bool)
    (p : option ascii) :
  match_at r adv p [] = None -> sub_loop f r t adv p [] = [].
Proof.
  intros Hm. destruct f; [reflexivity|]. cbn [sub_loop search]. rewrite Hm.
  reflexivity.
Qed.

Lemma sub_no_match (r : re) (t : list titem) (s : str) :
  no_match r s -> sub r t s = s.
Proof. unfold no_match, sub, loop_fuel. intros H. rewrite Nat.add_comm. cbn [Nat.add sub_loop]. rewrite H. reflexivity. Qed.

(** ** Greedy repetition of a character class *)

Lemma span_spec (p : ascii -> bool) (s : str) :
  s = fst (span p s) ++ snd (span p s)
  /\ forallb p (fst (span p s)) = true /\ stops p (snd (span p s)).
Proof.
  induction s as [|x s (Hs & Hw & Ht)]; [simpl; auto|]. cbn [span].
  destruct (p x) eqn:Hx.
  - destruct (span p s) as [w tail]. cbn [fst snd] in *.
    split; [cbn [app]; congruence|]. split; [cbn [forallb]; rewrite Hx; exact Hw|exact Ht].
  - cbn [fst snd app forallb]. split; [reflexivity|]. split; [reflexivity|exact Hx].
Qed.

Section GreedyClass.
Variable p : ascii -> bool.
Variable k : mstate -> option mstate.

Lemma run_cls_stops (k' : mstate -> option mstate) (pv : option ascii)
    (tail : str) (g : option str) :
  stops p tail -> run (Cls p) k' (MState pv tail g) = None.
Proof.
  destruct tail as [|y tail]; [reflexivity|]. cbn [stops].
  intros Hy. rewrite run_cls_cons, Hy. reflexivity.
Qed.

(** The class is repeated as far as it goes; when what follows the
    repetition matches there, that is the match. *)
Lemma star_cls_greedy_some (tail : str) (g : option str) (out : mstate) :
  stops p tail ->
  (forall pv, k (MState pv tail g) = Some out) ->
  forall w n pv,
    forallb p w = true -> length w <= n ->
    star_loop (run (Cls p)) true k n (MState pv (w ++ tail) g) = Some out.
Proof.
  intros Htail Hk w. induction w as [|x w IH]; intros n pv Hw Hn.
  - cbn [app]. destruct n as [|n]; cbn [star_loop]; [apply Hk|].
    rewrite run_cls_stops by exact Htail. apply Hk.
  - cbn [forallb] in Hw. apply andb_true_iff in Hw as [Hx Hw].
    destruct n as [|n]; [cbn [length] in Hn; lia|].
    cbn [star_loop app]. rewrite run_cls_cons, Hx. cbn [rest].
    rewrite (proj2 (Nat.ltb_lt (length (w ++ tail))
                               (length (x :: w ++ tail))))
      by (cbn [length]; lia).
    rewrite IH by (auto; cbn [length] in Hn; lia). reflexivity.
Qed.

(** When what follows the repetition matches after no part of the run,
    the repetition gives no match. *)
Lemma star_cls_greedy_none (tail : str) (g : option str) :
  stops p tail ->
  forall w,
    (forall pv w1 w2, w = w1 ++ w2 -> k (MState pv (w2 ++ tail) g) = None) ->
    forall n pv,
      forallb p w = true ->
      star_loop (run (Cls p)) true k n (MState pv (w ++ tail) g) = None.
Proof.
  intros Htail w. induction w as [|x w IH]; intros Hk n pv Hw.
  - cbn [app]. pose proof (Hk pv [] [] eq_refl) as Hk0. cbn [app] in Hk0.
    destruct n as [|n]; cbn [star_loop]; [exact Hk0|].
    rewrite run_cls_stops by exact Htail. exact Hk0.
  - cbn [forallb] in Hw. apply andb_true_iff in Hw as [Hx Hw].
    pose proof (Hk pv [] (x :: w) eq_refl) as Hk0.
    destruct n as [|n]; cbn [star_loop]; [exact Hk0|].
    cbn [app]. rewrite run_cls_cons, Hx. cbn [rest].
    destruct (Nat.ltb _ _).
    + rewrite IH; [exact Hk0| |exact Hw].
      intros pv' w1 w2 ->. apply (Hk pv' (x :: w1) w2). reflexivity.
    + exact Hk0.
Qed.
End GreedyClass.

(** ** The bare-key rule *)

Lemma run_seq (r1 r2 : re) (k : mstate -> option mstate) (st : mstate) :
  run (Seq r1 r2) k st = run r1 (run r2 k) st.
Proof. reflexivity. Qed.

Lemma run_group (r : re) (k : mstate -> option mstate) (st : mstate) :
  run (Group r) k st
  = run r (fun st' => k (MState (prev st') (rest st')
                                (Some (consumed st st')))) st.
Proof. reflexivity. Qed.

Lemma run_star (greedy : bool) (r : re) (k : mstate -> option mstate)
    (st : mstate) :
  run (Star greedy r) k st
  = star_loop (run r) greedy k (S (length (rest st))) st.
Proof. reflexivity. Qed.

Lemma consumed_prefix (p p' : option ascii) (w r : str) (g g' : option str) :
  consumed (MState p (w ++ r) g) (MState p' r g') = w.
Proof.
  unfold consumed. cbn [rest]. rewrite length_app.
  replace (length w + length r - length r) with (length w) by lia.
  apply take_app_length.
Qed.

Lemma finish_shorter (adv : bool) (st0 st' : mstate) :
  length (rest st') < length (rest st0) -> finish adv st0 st' = Some st'.
Proof.
  intros Hlt. unfold finish.
  destruct (Nat.eqb_spec (length (rest st')) (length (rest st0))); [lia|].
  rewrite andb_false_r. reflexivity.
Qed.

Lemma is_word_colon : is_word ":" = false.
Proof. reflexivity. Qed.

(** A run of word characters with a colon behind it is a match, and the
    whole run is the group. *)
Lemma bare_key_match (adv : bool) (p : option ascii) (x : ascii)
    (w tail : str) :
  is_word x = true -> forallb is_word w = true ->
  match_at re_bare_key adv p (x :: w ++ ":"%char :: tail)
  = Some (MState (Some ":"%char) tail (Some (x :: w))).
Proof.
  intros Hx Hw. unfold match_at, re_bare_key, Plus.
  rewrite run_seq, run_group, run_seq, run_cls_cons, Hx, run_star.
  cbn [rest].
  apply (star_cls_greedy_some is_word);
    [exact is_word_colon| |exact Hw|rewrite length_app; lia].
  intros pv. cbn [prev rest]. rewrite run_chr_cons.
  cbn [Ascii.eqb Bool.eqb].
  rewrite finish_shorter by (cbn [rest length]; rewrite length_app; cbn [length]; lia).
  do 3 f_equal.
  apply (consumed_prefix p pv (x :: w) (":"%char :: tail) None None).
Qed.

(** A run of word characters with no colon behind it holds no match that
    starts in it. *)
Lemma bare_key_no_match (adv : bool) (p : option ascii) (w tail : str) :
  forallb is_word w = true ->
  match tail with
  | [] => True
  | y :: _ => is_word y = false /\ (w = [] \/ y <> ":"%char)
  end ->
  match_at re_bare_key adv p (w ++ tail) = None.
Proof.
  intros Hw Htail. unfold match_at, re_bare_key, Plus.
  rewrite run_seq, run_group, run_seq.
  assert (Hstop : stops is_word tail)
    by (destruct tail; [exact I|exact (proj1 Htail)]).
  destruct w as [|x w].
  - cbn [app]. apply run_cls_stops. exact Hstop.
  - cbn [app forallb] in *. apply andb_true_iff in Hw as [Hx Hw].
    rewrite run_cls_cons, Hx, run_star. cbn [rest].
    apply (star_cls_greedy_none is_word); [exact Hstop| |exact Hw].
    intros pv w1 w2 ->. cbn [prev rest].
    destruct w2 as [|z w2].
    + cbn [app]. destruct tail as [|y tail]; [reflexivity|].
      rewrite run_chr_cons. destruct Htail as [_ [[=]|Hy]].
      destruct (Ascii.eqb_spec ":" y); [congruence|reflexivity].
    + cbn [app]. rewrite run_chr_cons.
      destruct (Ascii.eqb_spec ":" z) as [<-|]; [|reflexivity].
      rewrite forallb_app in Hw. cbn [forallb] in Hw.
      rewrite is_word_colon in Hw. cbn in Hw. rewrite andb_false_r in Hw.
      discriminate.
Qed.

Lemma expand_bare_key (g : str) :
  expand bare_key_template (Some g) = dquote :: g ++ [dquote; ":"%char].
Proof.
  unfold expand, bare_key_template. cbn [app flat_map]. reflexivity.
Qed.

Lemma wrap_bare_words_run (w word s : str) :
  forallb is_word w = true ->
  wrap_bare_words word (w ++ s) = wrap_bare_words (rev w ++ word) s.
Proof.
  revert word. induction w as [|x w IH]; intros word; [reflexivity|].
  cbn [forallb]. intros [Hx Hw]%andb_true_iff.
  cbn [app wrap_bare_words]. rewrite Hx, IH by exact Hw.
  cbn [rev]. rewrite <- app_assoc. reflexivity.
Qed.

(** No match starts inside a run of word characters that no colon
    follows: the substitution copies the run. *)
Lemma bare_key_skip_run (f : nat) (tail : str) :
  match tail with
  | [] => True
  | y :: _ => is_word y = false /\ y <> ":"%char
  end ->
  forall w adv p,
    forallb is_word w = true -> w <> [] ->
    exists p',
      sub_loop (S f) re_bare_key bare_key_template adv p (w ++ tail)
      = w ++ sub_loop (S f) re_bare_key bare_key_template false p' tail.
Proof.
  intros Htail w. induction w as [|x w IH]; intros adv p Hw Hne;
    [contradiction|].
  assert (Hm : match_at re_bare_key adv p ((x :: w) ++ tail) = None).
  { apply bare_key_no_match; [exact Hw|].
    destruct tail; [exact I|]. destruct Htail. auto. }
  cbn [app] in *. rewrite sub_loop_skip by exact Hm.
  cbn [forallb] in Hw. apply andb_true_iff in Hw as [_ Hw].
  destruct w as [|z w].
  - exists (Some x). reflexivity.
  - destruct (IH false (Some x) Hw) as [p' Hp']; [discriminate|].
    exists p'. rewrite Hp'. reflexivity.
Qed.

(** The substitution of the bare-key rule is the scanner
    [wrap_bare_words], with any fuel above the length of the text. *)
Lemma bare_key_sub_loop (n : nat) :
  forall s, length s <= n ->
  forall f adv p, length s < f ->
    sub_loop f re_bare_key bare_key_template adv p s = wrap_bare_words [] s.
Proof.
  induction n as [|n IH]; intros s Hn f adv p Hf.
  - destruct s; [|cbn [length] in Hn; lia].
    apply sub_loop_nil. apply (bare_key_no_match adv p [] []); [reflexivity|exact I].
  - destruct f as [|f]; [lia|].
    destruct s as [|x s'];
      [apply sub_loop_nil;
       apply (bare_key_no_match adv p [] []); [reflexivity|exact I]|].
    destruct (span_spec is_word (x :: s')) as (Hs & Hw & Hstop).
    destruct (span is_word (x :: s')) as [w tail]. cbn [fst snd] in *.
    assert (Hlen : length w + length tail = S (length s'))
      by (rewrite <- length_app, <- Hs; reflexivity).
    cbn [length] in Hn, Hf.
    (* what follows the run of word characters *)
    assert (Htl : forall y tail', tail = y :: tail' ->
              sub_loop (S f) re_bare_key bare_key_template false (Some y) tail'
              = wrap_bare_words [] tail').
    { intros y tail' ->. cbn [length] in Hlen. apply IH; lia. }
    destruct w as [|x0 w0].
    + (* the text starts with no word character *)
      cbn [app] in Hs. subst tail. cbn [stops] in Hstop.
      rewrite sub_loop_skip.
      * rewrite (Htl x s' eq_refl). cbn [wrap_bare_words]. rewrite Hstop.
        cbn [is_nil negb]. rewrite andb_false_r. reflexivity.
      * apply (bare_key_no_match adv p [] (x :: s')); [reflexivity|auto].
    + rewrite Hs. rewrite wrap_bare_words_run by exact Hw. rewrite app_nil_r.
      assert (Hrev : is_nil (rev (x0 :: w0)) = false).
      { destruct (rev (x0 :: w0)) eqn:E; [|reflexivity].
        apply (f_equal (@length ascii)) in E. rewrite length_rev in E.
        discriminate. }
      destruct tail as [|y tail'].
      * (* the run ends the text *)
        destruct (bare_key_skip_run f [] I (x0 :: w0) adv p Hw) as [p' ->];
          [discriminate|].
        rewrite sub_loop_nil
          by (apply (bare_key_no_match false p' [] []); [reflexivity|exact I]).
        cbn [wrap_bare_words]. rewrite rev_involutive, app_nil_r. reflexivity.
      * cbn [stops] in Hstop. cbn [wrap_bare_words]. rewrite Hstop, Hrev.
        cbn [negb]. rewrite andb_true_r.
        destruct (Ascii.eqb_spec y ":") as [->|Hy].
        -- (* a colon follows: the run is put between quotes *)
           cbn [forallb] in Hw. apply andb_true_iff in Hw as [Hx0 Hw0].
           cbn [app]. rewrite (sub_loop_match _ _ _ _ _ _ _
                                 (bare_key_match adv p x0 w0 tail' Hx0 Hw0)).
           cbn [grp prev rest]. rewrite expand_bare_key, rev_involutive.
           cbn [length] in Hlen.
           rewrite IH by lia.
           cbn [app]. rewrite <- app_assoc. reflexivity.
        -- (* no colon follows: the run is copied *)
           destruct (bare_key_skip_run f (y :: tail') (conj Hstop Hy)
                       (x0 :: w0) adv p Hw) as [p' ->]; [discriminate|].
           rewrite sub_loop_skip
             by (apply (bare_key_no_match false p' [] (y :: tail'));
                 [reflexivity|auto]).
           rewrite (Htl y tail' eq_refl), rev_involutive. reflexivity.
Qed.

Lemma quote_bare_keys_scanner (text : str) :
  quote_bare_keys text = wrap_bare_words [] text.
Proof.
  unfold quote_bare_keys, sub.
  apply (bare_key_sub_loop (length text)); [lia|unfold loop_fuel; lia].
Qed.

(** Where a word character stands before a colon in a text in two parts:
    in the first part, in the second, or across the seam. *)
Lemma bare_key_in_app (a b : str) :
  bare_key_in (a ++ b)
  = bare_key_in a || bare_key_in b
    || match last a, b with
       | Some x, y :: _ => is_word x && Ascii.eqb y ":"
       | _, _ => false
       end.
Proof.
  induction a as [|x a IH].
  - cbn [app last]. change (bare_key_in []) with false. cbn [orb].
    destruct b; rewrite orb_false_r; reflexivity.
  - destruct a as [|z a].
    + cbn [app last bare_key_in]. destruct b as [|y b]; [reflexivity|].
      cbn [bare_key_in]. destruct (is_word x && Ascii.eqb y ":");
        destruct (match b with [] => false | _ => _ end); reflexivity.
    + change (bare_key_in ((x :: z :: a) ++ b))
        with ((is_word x && Ascii.eqb z ":") || bare_key_in ((z :: a) ++ b)).
      change (bare_key_in (x :: z :: a))
        with ((is_word x && Ascii.eqb z ":") || bare_key_in (z :: a)).
      rewrite IH. change (last (x :: z :: a)) with (last (z :: a)).
      rewrite !orb_assoc. reflexivity.
Qed.

Lemma bare_key_in_parts (a b : str) :
  bare_key_in (a ++ b) = false ->
  bare_key_in a = false /\ bare_key_in b = false.
Proof.
  rewrite bare_key_in_app. intros H.
  apply orb_false_iff in H as [H _]. apply orb_false_iff in H. exact H.
Qed.

Lemma bare_key_in_nonword (y : ascii) (r : str) :
  is_word y = false -> bare_key_in (y :: r) = bare_key_in r.
Proof. intros Hy. destruct r; cbn [bare_key_in]; [reflexivity|]. rewrite Hy. reflexivity. Qed.

Lemma bare_key_in_words (w : str) :
  forallb is_word w = true -> bare_key_in w = false.
Proof.
  induction w as [|x w IH]; [reflexivity|]. cbn [forallb].
  intros [Hx Hw]%andb_true_iff. destruct w as [|z w]; [reflexivity|].
  cbn [bare_key_in] in *. rewrite IH by exact Hw.
  cbn [forallb] in Hw. apply andb_true_iff in Hw as [Hz _].
  destruct (Ascii.eqb_spec z ":") as [->|_];
    [rewrite is_word_colon in Hz; discriminate|].
  rewrite andb_false_r. reflexivity.
Qed.

Lemma last_is_word (w : str) :
  forallb is_word w = true ->
  match last w with Some x => is_word x = true | None => w = [] end.
Proof.
  induction w as [|x w IH]; [reflexivity|]. cbn [forallb].
  intros [Hx Hw]%andb_true_iff. destruct w as [|z w]; [exact Hx|].
  change (last (x :: z :: w)) with (last (z :: w)).
  specialize (IH Hw). destruct (last (z :: w)); [exact IH|discriminate IH].
Qed.

(** A run of word characters before another character: only a colon
    after a run that is not empty makes a bare key there. *)
Lemma bare_key_in_run (w : str) (y : ascii) (r : str) :
  forallb is_word w = true ->
  bare_key_in (w ++ y :: r)
  = (negb (is_nil w) && Ascii.eqb y ":") || bare_key_in (y :: r).
Proof.
  intros Hw. rewrite bare_key_in_app, bare_key_in_words by exact Hw.
  pose proof (last_is_word w Hw) as Hl.
  destruct (last w) as [x|] eqn:El.
  - rewrite Hl. destruct w; [discriminate El|]. cbn [is_nil negb orb andb].
    apply orb_comm.
  - subst w. cbn [is_nil negb andb orb]. rewrite orb_false_r. reflexivity.
Qed.

Lemma forallb_rev {A} (f : A -> bool) (l : list A) :
  forallb f (rev l) = forallb f l.
Proof.
  induction l as [|x l IH]; [reflexivity|]. cbn [rev forallb].
  rewrite forallb_app, IH. cbn [forallb]. rewrite andb_true_r. apply andb_comm.
Qed.

Lemma is_nil_rev {A} (l : list A) : is_nil (rev l) = is_nil l.
Proof.
  destruct l as [|x l]; [reflexivity|]. cbn [rev is_nil].
  destruct (rev l); reflexivity.
Qed.

(** The scanner leaves a text without bare keys as it is. *)
Lemma wrap_bare_words_fixed (s word : str) :
  forallb is_word word = true ->
  bare_key_in (rev word ++ s) = false ->
  wrap_bare_words word s = rev word ++ s.
Proof.
  revert word. induction s as [|x s IH]; intros word Hw Hno.
  - cbn [wrap_bare_words]. rewrite app_nil_r. reflexivity.
  - cbn [wrap_bare_words]. destruct (is_word x) eqn:Hx.
    + rewrite IH.
      * cbn [rev]. rewrite <- app_assoc. reflexivity.
      * cbn [forallb]. rewrite Hx, Hw. reflexivity.
      * cbn [rev]. rewrite <- app_assoc. exact Hno.
    + rewrite bare_key_in_run in Hno by (rewrite forallb_rev; exact Hw).
      apply orb_false_iff in Hno as [Hc Hs]. rewrite is_nil_rev in Hc.
      rewrite andb_comm, Hc.
      rewrite bare_key_in_nonword in Hs by exact Hx.
      rewrite (IH [] eq_refl Hs). reflexivity.
Qed.

(** The scanner leaves no bare key behind. *)
Lemma wrap_bare_words_done (s word : str) :
  forallb is_word word = true ->
  bare_key_in (wrap_bare_words word s) = false.
Proof.
  revert word. induction s as [|x s IH]; intros word Hw.
  - cbn [wrap_bare_words]. apply bare_key_in_words.
    rewrite forallb_rev. exact Hw.
  - cbn [wrap_bare_words]. destruct (is_word x) eqn:Hx.
    + apply IH. cbn [forallb]. rewrite Hx, Hw. reflexivity.
    + assert (Hrev : forallb is_word (rev word) = true)
        by (rewrite forallb_rev; exact Hw).
      destruct (Ascii.eqb x ":" && negb (is_nil word)) eqn:Hc.
      * rewrite bare_key_in_nonword by reflexivity.
        rewrite bare_key_in_run by exact Hrev.
        change (Ascii.eqb dquote ":") with false. rewrite andb_false_r.
        rewrite bare_key_in_nonword by reflexivity.
        rewrite bare_key_in_nonword by exact Hx.
        apply (IH [] eq_refl).
      * rewrite bare_key_in_run by exact Hrev.
        rewrite is_nil_rev, andb_comm, Hc.
        rewrite bare_key_in_nonword by exact Hx.
        apply (IH [] eq_refl).
Qed.

(** C8 (as amended): the bare-key rule puts between double quotes every
    longest run of word characters that a colon follows at once, wherever
    it stands -- in a string value as well as before a key's colon.  A
    text in which no word character stands right before a colon is left
    as it is, so a key that is already closed by its quote is not quoted
    again; and after the rule no word character stands right before a
    colon. *)
Theorem C8_bare_key_rule (text : str) :
  quote_bare_keys text = wrap_bare_words [] text
  /\ (bare_key_in text = false -> quote_bare_keys text = text)
  /\ bare_key_in (quote_bare_keys text) = false.
Proof.
  rewrite quote_bare_keys_scanner. split; [reflexivity|]. split.
  - intros Hno. apply (wrap_bare_words_fixed text [] eq_refl Hno).
  - apply (wrap_bare_words_done text [] eq_refl).
Qed.

(** C8 fails as stated: the rule does not tell a key from a value.  In a
    string value that holds a colon right after a word, the word is put
    between quotes, and the text is no JSON any more. *)
Lemma C8_counterexample :
  quote_bare_keys (txt "{~t~: ~10:30~}") = txt "{~t~: ~~10~:30~}"
  /\ Json.loads (txt "{~t~: ~10:30~}")
     = Some (PyDict [(PyStr (u "t"), PyStr (u "10:30"))])
  /\ Json.loads (quote_bare_keys (txt "{~t~: ~10:30~}")) = None.
Proof. repeat split; vm_compute; reflexivity. Qed.

(** ** The sanitizer a second time *)

(** Replacing matches by one character that is neither a word character
    nor a colon makes no bare key. *)
Lemma sub_loop_no_bare_key (r : re) (c : ascii) :
  is_word c = false -> c <> ":"%char ->
  forall f adv p s,
    bare_key_in s = false ->
    bare_key_in (sub_loop f r (tlit [c]) adv p s) = false.
Proof.
  intros Hc Hcolon f. induction f as [|f IH]; intros adv p s Hs; [exact Hs|].
  cbn [sub_loop].
  destruct (search r adv p s) as [[[sk wh] st1]|] eqn:Hsr; [|exact Hs].
  apply search_sound in Hsr as (-> & _ & _).
  apply bare_key_in_parts in Hs as [Hsk Hs].
  apply bare_key_in_parts in Hs as [_ Hrest].
  change (expand (tlit [c]) (grp st1)) with [c]. cbn [app].
  rewrite bare_key_in_app, Hsk, bare_key_in_nonword by exact Hc.
  rewrite IH by exact Hrest.
  destruct (Ascii.eqb_spec c ":") as [|_]; [contradiction|].
  destruct (last sk); rewrite ?andb_false_r; reflexivity.
Qed.

Lemma clean_json_string_no_bare_key (text : str) :
  bare_key_in (clean_json_string text) = false.
Proof.
  unfold clean_json_string, strip_trailing_commas, sub.
  set (x := quote_bare_keys _).
  assert (Hx : bare_key_in x = false).
  { subst x. rewrite quote_bare_keys_scanner.
    apply (wrap_bare_words_done _ [] eq_refl). }
  set (y := sub_loop _ (re_comma_before "}") _ _ _ x).
  assert (Hy : bare_key_in y = false)
    by (apply (sub_loop_no_bare_key _ "}"); [reflexivity|discriminate|exact Hx]).
  set (z := sub_loop _ (re_comma_before "]") _ _ _ y).
  assert (Hz : bare_key_in z = false)
    by (apply (sub_loop_no_bare_key _ "]"); [reflexivity|discriminate|exact Hy]).
  destruct (strip_split z) as (l & r & Hsplit & _). rewrite Hsplit in Hz.
  apply bare_key_in_parts in Hz as [_ Hz].
  apply bare_key_in_parts in Hz as [Hz _]. exact Hz.
Qed.

(** C4 (as amended): the sanitizer is idempotent on every input whose
    sanitized text is settled, that is, holds no match any more of the
    patterns for the code fences, the comments, the parenthetical notes
    and the trailing commas.  The bare-key rule and the trimming never
    apply a second time: a sanitized text holds no word character right
    before a colon and no white space around it. *)
Theorem C4_idempotent_when_settled (text : str) :
  let cleaned := clean_json_string text in
  no_match re_fence_open cleaned ->
  no_match re_fence_close cleaned ->
  no_match re_comment cleaned ->
  no_match re_paren_note cleaned ->
  no_match (re_comma_before "}") cleaned ->
  no_match (re_comma_before "]") cleaned ->
  clean_json_string cleaned = cleaned
  /\ bare_key_in cleaned = false
  /\ strip cleaned = cleaned.
Proof.
  cbv zeta. intros H1 H2 H3 H4 H5 H6.
  pose proof (clean_json_string_no_bare_key text) as Hk.
  pose proof (clean_json_string_stripped text) as Hs.
  split; [|auto].
  set (y := clean_json_string text) in *.
  unfold clean_json_string, strip_fence_open, strip_fence_close,
    strip_comments, strip_paren_notes, strip_trailing_commas.
  rewrite (sub_no_match _ _ y H1), (sub_no_match _ _ y H2),
    (sub_no_match _ _ y H3), (sub_no_match _ _ y H4).
  rewrite quote_bare_keys_scanner, (wrap_bare_words_fixed y [] eq_refl Hk).
  cbn [rev app].
  rewrite (sub_no_match _ _ y H5), (sub_no_match _ _ y H6). exact Hs.
Qed.

Lemma C4_idempotent_when_settled_witness :
  let cleaned := clean_json_string (txt "{a: 3 (Neutral), ~b~: [1,2,]}") in
  cleaned = txt "{~a~: 3, ~b~: [1,2]}"
  /\ no_match re_fence_open cleaned
  /\ no_match re_fence_close cleaned
  /\ no_match re_comment cleaned
  /\ no_match re_paren_note cleaned
  /\ no_match (re_comma_before "}") cleaned
  /\ no_match (re_comma_before "]") cleaned
  /\ clean_json_string cleaned = cleaned
  /\ bare_key_in cleaned = false
  /\ strip cleaned = cleaned.
Proof.
  cbv zeta. split; [vm_compute; reflexivity|].
  do 6 (split; [vm_compute; reflexivity|]).
  apply C4_idempotent_when_settled; vm_compute; reflexivity.
Defined.

(** C4 fails as stated: one pass of a rule can leave a text that the same
    rule matches again.  Of two parenthetical notes after a number the
    first pass removes the first and the second pass the other; of two
    commas before a closing brace likewise. *)
Lemma C4_counterexample :
  clean_json_string "5 (a) (b)" = "5 (b)"
  /\ clean_json_string (clean_json_string "5 (a) (b)") = "5"
  /\ clean_json_string "{1, ,}" = "{1, }"
  /\ clean_json_string (clean_json_string "{1, ,}") = "{1}".
Proof. repeat split; vm_compute; reflexivity. Qed.

(** ** White space around a JSON text *)

Lemma space_code (c : ascii) :
  is_space c = true ->
  (9 <= code c <= 13 \/ 28 <= code c <= 32 \/ code c = 133 \/ code c = 160)%N.
Proof.
  unfold is_space, in_range, chr_is.
  rewrite !orb_true_iff, !andb_true_iff, !N.leb_le, !N.eqb_eq. tauto.
Qed.

Lemma space_chr_is (n : N) (c : ascii) :
  is_space c = true ->
  (n < 9 \/ 13 < n < 28 \/ 32 < n < 133 \/ 133 < n < 160 \/ 160 < n)%N ->
  chr_is n c = false.
Proof.
  intros Hc%space_code Hn. unfold chr_is. apply N.eqb_neq. lia.
Qed.

Lemma space_in_range (lo hi : N) (c : ascii) :
  is_space c = true -> (32 < lo /\ hi < 133)%N -> in_range lo hi c = false.
Proof.
  intros Hc%space_code Hn. unfold in_range.
  apply andb_false_iff.
  destruct (N.leb_spec lo (code c)); [right; apply N.leb_gt; lia|left; reflexivity].
Qed.

Ltac space_tests H :=
  repeat first
    [ rewrite (space_chr_is _ _ H) by lia
    | rewrite (space_in_range _ _ _ H) by lia ].

Lemma is_ws_space (c : ascii) : Json.is_ws c = true -> is_space c = true.
Proof.
  unfold Json.is_ws, is_space, chr_is, in_range.
  rewrite !orb_true_iff, !andb_true_iff, !N.leb_le, !N.eqb_eq. lia.
Qed.

Lemma space_not_decimal (c : ascii) :
  is_space c = true -> is_decimal c = false.
Proof. intros H. unfold is_decimal. space_tests H. reflexivity. Qed.

Lemma skip_ws_length (s : str) : length (Json.skip_ws s) <= length s.
Proof.
  induction s as [|c s IH]; cbn [Json.skip_ws length]; [lia|].
  destruct (Json.is_ws c); cbn [length]; lia.
Qed.

Lemma skip_ws_spaces (s : str) :
  forallb is_space s = true ->
  match Json.skip_ws s with [] => True | d :: _ => is_space d = true end.
Proof.
  induction s as [|c s IH]; [intros _; exact I|]. cbn [forallb Json.skip_ws].
  intros [Hc Hs]%andb_true_iff. destruct (Json.is_ws c); [apply IH, Hs|exact Hc].
Qed.

Lemma scan_once_space (f : nat) (d : ascii) (s : str) :
  is_space d = true -> Json.scan_once f (d :: s) = None.
Proof.
  intros H. destruct f as [|f]; [reflexivity|]. cbn [Json.scan_once].
  space_tests H. unfold Json.scan_number. space_tests H.
  cbv zeta iota beta. cbn [Json.scan_int_part]. space_tests H. reflexivity.
Qed.

Lemma scan_once_nil (f : nat) : Json.scan_once f [] = None.
Proof. destruct f; reflexivity. Qed.

Lemma starts_with_length (word w : str) :
  starts_with word w = true -> length word <= length w.
Proof.
  revert w. induction word as [|a word IH]; intros [|b w]; cbn;
    try discriminate; try lia.
  intros [_ H]%andb_true_iff. apply IH in H. lia.
Qed.

Lemma span_snd_length (p : ascii -> bool) (s : str) :
  length (snd (span p s)) <= length s.
Proof.
  destruct (span_spec p s) as [H _]. rewrite H at 2. rewrite length_app. lia.
Qed.

Lemma scan_int_part_shorter (s : str) (ds rest : str) :
  Json.scan_int_part s = Some (ds, rest) -> length rest < length s.
Proof.
  destruct s as [|c s]; [discriminate|]. cbn [Json.scan_int_part length].
  destruct (chr_is 48 c); [intros [= _ <-]; lia|].
  destruct (in_range 49 57 c); [|discriminate].
  pose proof (span_snd_length is_decimal s) as Hl.
  destruct (span is_decimal s) as [a b]. intros [= _ <-]. cbn [snd] in Hl. lia.
Qed.

Lemma scan_frac_shorter (s : str) (ds rest : str) :
  Json.scan_frac s = Some (ds, rest) -> length rest < length s.
Proof.
  destruct s as [|c s]; [discriminate|]. cbn [Json.scan_frac length].
  destruct (chr_is 46 c); [|discriminate].
  pose proof (span_snd_length is_decimal s) as Hl.
  destruct (span is_decimal s) as [a b]. destruct (is_nil a); [discriminate|].
  intros [= _ <-]. cbn [snd] in Hl. lia.
Qed.

Lemma scan_exp_shorter (s : str) (x : Z) (rest : str) :
  Json.scan_exp s = Some (x, rest) -> length rest < length s.
Proof.
  destruct s as [|c s]; [discriminate|]. cbn [Json.scan_exp length].
  destruct (chr_is 101 c || chr_is 69 c); [|discriminate].
  set (sg := match s with
             | g :: s'' => if chr_is 45 g then (true, s'')
                           else if chr_is 43 g then (false, s'') else (false, s)
             | [] => (false, s)
             end).
  assert (Hsg : length (snd sg) <= length s).
  { subst sg. destruct s as [|g s'']; [cbn; lia|].
    destruct (chr_is 45 g); [cbn; lia|]. destruct (chr_is 43 g); cbn; lia. }
  destruct sg as [neg s1]. cbn [snd] in Hsg.
  pose proof (span_snd_length is_decimal s1) as Hl.
  destruct (span is_decimal s1) as [a b]. destruct (is_nil a); [discriminate|].
  intros [= _ <-]. cbn [snd] in Hl. lia.
Qed.

Lemma scan_number_shorter (s : str) (v : pyval) (rest : str) :
  Json.scan_number s = Some (v, rest) -> length rest < length s.
Proof.
  unfold Json.scan_number.
  set (sg := match s with
             | c :: s' => if chr_is 45 c then (true, s') else (false, s)
             | [] => (false, s)
             end).
  assert (Hsg : length (snd sg) <= length s).
  { subst sg. destruct s as [|c s']; [cbn; lia|].
    destruct (chr_is 45 c); cbn; lia. }
  destruct sg as [neg s0]. cbn [snd] in Hsg.
  destruct (Json.scan_int_part s0) as [[ints s1]|] eqn:Hi; [|discriminate].
  apply scan_int_part_shorter in Hi.
  destruct (Json.scan_frac s1) as [[fd s2]|] eqn:Hf.
  - apply scan_frac_shorter in Hf.
    destruct (Json.scan_exp s2) as [[x s3]|] eqn:He.
    + apply scan_exp_shorter in He. intros [= _ <-]. lia.
    + intros [= _ <-]. lia.
  - destruct (Json.scan_exp s1) as [[x s3]|] eqn:He.
    + apply scan_exp_shorter in He. intros [= _ <-]. lia.
    + intros [= _ <-]. lia.
Qed.

Lemma literal_shorter (word : str) (x v : pyval) (s rest : str) :
  word <> [] -> Json.literal word x s = Some (v, rest) ->
  length rest < length s.
Proof.
  intros Hw. unfold Json.literal, drop_prefix.
  destruct (starts_with word s) eqn:Hs; [|discriminate].
  apply starts_with_length in Hs. intros [= _ <-]. rewrite length_drop.
  destruct word; [contradiction|]. cbn [length] in *. lia.
Qed.

Lemma chr_is_not_space (n : N) (d : ascii) :
  chr_is n d = true -> (32 < n < 133)%N -> is_space d = false.
Proof.
  unfold chr_is. intros Hc%N.eqb_eq Hn.
  destruct (is_space d) eqn:Hd; [|reflexivity].
  apply space_code in Hd. lia.
Qed.

Lemma object_items_space (f : nat) (acc : list (pyval * pyval)) (d : ascii)
    (s : str) :
  is_space d = true -> Json.object_items f acc (d :: s) = None.
Proof.
  intros H. destruct f as [|f]; [reflexivity|]. cbn [Json.object_items].
  space_tests H. reflexivity.
Qed.

Lemma array_items_space (f : nat) (acc : list pyval) (d : ascii) (s : str) :
  is_space d = true -> Json.array_items f acc (d :: s) = None.
Proof.
  intros H. destruct f as [|f]; [reflexivity|]. cbn [Json.array_items].
  rewrite scan_once_space by exact H. reflexivity.
Qed.

Lemma array_items_nil (f : nat) (acc : list pyval) :
  Json.array_items f acc [] = None.
Proof.
  destruct f as [|f]; [reflexivity|]. cbn [Json.array_items].
  rewrite scan_once_nil. reflexivity.
Qed.

Section Truncation.
Variable r : str.
Hypothesis r_spaces : forallb is_space r = true.

Lemma r_head : match r with [] => True | c :: _ => is_space c = true end.
Proof.
  pose proof r_spaces as H. destruct r as [|c r']; [exact I|].
  cbn [forallb] in H. apply andb_true_iff in H as [H _]. exact H.
Qed.

Lemma span_app_spaces (p : ascii -> bool) (w : str) :
  (forall c, is_space c = true -> p c = false) ->
  span p (w ++ r) = (fst (span p w), snd (span p w) ++ r).
Proof.
  intros Hp. induction w as [|x w IH]; cbn [app].
  - pose proof r_head as Hh. destruct r as [|c r']; [reflexivity|].
    cbn [span]. rewrite (Hp c Hh). reflexivity.
  - cbn [span]. destruct (p x); [|reflexivity].
    rewrite IH. destruct (span p w) as [a b]. reflexivity.
Qed.

Lemma span_decimal_app (w : str) :
  span is_decimal (w ++ r)
  = (fst (span is_decimal w), snd (span is_decimal w) ++ r).
Proof. apply span_app_spaces, space_not_decimal. Qed.

Lemma span_length (p : ascii -> bool) (s : str) :
  length (fst (span p s)) + length (snd (span p s)) = length s.
Proof.
  destruct (span_spec p s) as [H _]. rewrite H at 3. rewrite length_app.
  reflexivity.
Qed.

(** What a part of the number pattern gives on a text gives it when the
    white space is cut off. *)
Definition cut {A} (x : option (A * str)) : option (A * str) :=
  match x with
  | Some (a, rest) => Some (a, rest ++ r)
  | None => None
  end.

Lemma scan_int_part_app (w : str) :
  Json.scan_int_part (w ++ r) = cut (Json.scan_int_part w).
Proof.
  destruct w as [|c w]; cbn [app].
  - pose proof r_head as Hh. destruct r as [|c r']; [reflexivity|].
    cbn [Json.scan_int_part]. space_tests Hh. reflexivity.
  - cbn [Json.scan_int_part]. destruct (chr_is 48 c); [reflexivity|].
    destruct (in_range 49 57 c); [|reflexivity].
    rewrite span_decimal_app. destruct (span is_decimal w) as [a b].
    reflexivity.
Qed.

Lemma scan_frac_app (w : str) :
  Json.scan_frac (w ++ r) = cut (Json.scan_frac w).
Proof.
  destruct w as [|c w]; cbn [app].
  - pose proof r_head as Hh. destruct r as [|c r']; [reflexivity|].
    cbn [Json.scan_frac]. space_tests Hh. reflexivity.
  - cbn [Json.scan_frac]. destruct (chr_is 46 c); [|reflexivity].
    rewrite span_decimal_app. destruct (span is_decimal w) as [a b].
    cbn [fst snd]. destruct (is_nil a); reflexivity.
Qed.

Lemma scan_exp_app (w : str) :
  Json.scan_exp (w ++ r) = cut (Json.scan_exp w).
Proof.
  destruct w as [|c w]; cbn [app].
  - pose proof r_head as Hh. destruct r as [|c r']; [reflexivity|].
    cbn [Json.scan_exp]. space_tests Hh. reflexivity.
  - cbn [Json.scan_exp]. destruct (chr_is 101 c || chr_is 69 c); [|reflexivity].
    destruct w as [|g w]; cbn [app].
    + pose proof r_head as Hh.
      pose proof (span_decimal_app []) as Hs. cbn [app] in Hs.
      destruct r as [|g r']; [reflexivity|].
      space_tests Hh. rewrite Hs. reflexivity.
    + destruct (chr_is 45 g); [|destruct (chr_is 43 g)].
      * rewrite span_decimal_app. destruct (span is_decimal w) as [a b].
        cbn [fst snd]. destruct (is_nil a); reflexivity.
      * rewrite span_decimal_app. destruct (span is_decimal w) as [a b].
        cbn [fst snd]. destruct (is_nil a); reflexivity.
      * pose proof (span_decimal_app (g :: w)) as Hs. cbn [app] in Hs.
        rewrite Hs. destruct (span is_decimal (g :: w)) as [a b].
        cbn [fst snd]. destruct (is_nil a); reflexivity.
Qed.

Lemma scan_number_app (w : str) :
  Json.scan_number (w ++ r) = cut (Json.scan_number w).
Proof.
  pose proof r_head as Hh.
  pose proof (scan_int_part_app []) as H0. cbn [app] in H0.
  destruct w as [|c w]; cbn [app].
  - unfold Json.scan_number.
    destruct r as [|c r']; [reflexivity|]. space_tests Hh.
    cbv zeta iota beta. rewrite H0. reflexivity.
  - unfold Json.scan_number. destruct (chr_is 45 c); cbv zeta iota beta.
    + rewrite scan_int_part_app.
      destruct (Json.scan_int_part w) as [[ints s1]|]; [|reflexivity].
      cbn [cut]. rewrite scan_frac_app.
      destruct (Json.scan_frac s1) as [[fd s2]|]; cbn [cut];
        rewrite scan_exp_app;
        destruct (Json.scan_exp _) as [[x s3]|]; reflexivity.
    + change (c :: w ++ r) with ((c :: w) ++ r).
      rewrite scan_int_part_app.
      destruct (Json.scan_int_part (c :: w)) as [[ints s1]|]; [|reflexivity].
      cbn [cut]. rewrite scan_frac_app.
      destruct (Json.scan_frac s1) as [[fd s2]|]; cbn [cut];
        rewrite scan_exp_app;
        destruct (Json.scan_exp _) as [[x s3]|]; reflexivity.
Qed.

Lemma starts_with_app_spaces (word w : str) :
  forallb (fun c => negb (is_space c)) word = true ->
  starts_with word (w ++ r) = starts_with word w.
Proof.
  pose proof r_head as Hh.
  revert w. induction word as [|a word IH]; intros w Hw; [reflexivity|].
  cbn [forallb] in Hw. apply andb_true_iff in Hw as [Ha Hw].
  destruct w as [|b w]; cbn [app starts_with].
  - destruct r as [|c r']; [reflexivity|]. cbn [starts_with].
    destruct (Ascii.eqb_spec a c) as [->|_]; [|reflexivity].
    rewrite Hh in Ha. discriminate.
  - rewrite IH by exact Hw. reflexivity.
Qed.

Lemma literal_app (word : str) (v : pyval) (w : str) :
  forallb (fun c => negb (is_space c)) word = true ->
  Json.literal word v (w ++ r) = cut (Json.literal word v w).
Proof.
  intros Hw. unfold Json.literal, drop_prefix.
  rewrite starts_with_app_spaces by exact Hw.
  destruct (starts_with word w) eqn:Hs; [|reflexivity].
  cbn [cut]. rewrite drop_app_le by (apply starts_with_length, Hs).
  reflexivity.
Qed.

Lemma hex_digit_space (c : ascii) : is_space c = true -> hex_digit c = None.
Proof. intros H. unfold hex_digit. space_tests H. reflexivity. Qed.

Lemma hex_to_N_space (acc : N) (pre : str) (c : ascii) (post : str) :
  hex_digit c = None -> hex_to_N acc (pre ++ c :: post) = None.
Proof.
  intros Hc. revert acc. induction pre as [|a pre IH]; intros acc;
    cbn [app hex_to_N].
  - rewrite Hc. reflexivity.
  - destruct (hex_digit a); [apply IH|reflexivity].
Qed.

Lemma hex4_app (w : str) : Json.hex4 (w ++ r) = cut (Json.hex4 w).
Proof.
  pose proof r_head as Hh. unfold Json.hex4.
  destruct (Nat.ltb_spec (length w) 4) as [Hw|Hw].
  - cbn [cut]. destruct (Nat.ltb_spec (length (w ++ r)) 4) as [|Hwr];
      [reflexivity|].
    rewrite length_app in Hwr.
    destruct r as [|c r']; [cbn [length] in Hwr; lia|].
    apply hex_digit_space in Hh.
    rewrite take_app_ge by lia.
    destruct (4 - length w) as [|n] eqn:Hn; [lia|].
    cbn [firstn]. rewrite hex_to_N_space by exact Hh. reflexivity.
  - rewrite (proj2 (Nat.ltb_ge (length (w ++ r)) 4))
      by (rewrite length_app; lia).
    rewrite take_app_le, drop_app_le by lia.
    destruct (hex_to_N 0 (take 4 w)); reflexivity.
Qed.

Lemma cut_some {A} (x : option (A * str)) (a : A) (out : str) :
  cut x = Some (a, out) -> exists rest, out = rest ++ r /\ x = Some (a, rest).
Proof.
  destruct x as [[a' rest]|]; [|discriminate]. intros [= <- <-]. eauto.
Qed.

Lemma hex4_length (s : str) (n : N) (rest : str) :
  Json.hex4 s = Some (n, rest) -> length s = 4 + length rest.
Proof.
  unfold Json.hex4. destruct (Nat.ltb_spec (length s) 4); [discriminate|].
  destruct (hex_to_N 0 (take 4 s)); [|discriminate]. intros [= _ <-].
  rewrite length_drop. lia.
Qed.

Lemma scan_pair_cut (uni : N) (w : str) (x : N) (out : str) :
  Json.scan_pair uni (w ++ r) = Some (x, out) ->
  exists rest, out = rest ++ r /\ Json.scan_pair uni w = Some (x, rest)
               /\ length rest <= length w.
Proof.
  unfold Json.scan_pair.
  rewrite starts_with_app_spaces by reflexivity.
  destruct (starts_with [ascii_of_N 92; "u"%char] w) eqn:Hs.
  2: { rewrite !andb_false_r. intros [= <- <-]. eauto. }
  pose proof (starts_with_length _ _ Hs) as Hl. cbn [length] in Hl.
  rewrite !andb_true_r. destruct (Json.high_surrogate uni).
  2: { cbn [andb]. intros [= <- <-]. eauto. }
  cbn [andb]. rewrite drop_app_le by exact Hl. rewrite hex4_app.
  destruct (Nat.leb_spec 6 (length w)) as [H6|H6].
  - rewrite (proj2 (Nat.leb_le 6 (length (w ++ r))))
      by (rewrite length_app; lia).
    destruct (Json.hex4 (drop 2 w)) as [[uni2 s']|] eqn:Hh; [|discriminate].
    cbn [cut]. apply hex4_length in Hh. rewrite length_drop in Hh.
    destruct (Json.low_surrogate uni2); intros [= <- <-]; eexists;
      (split; [reflexivity|split; [reflexivity|lia]]).
  - assert (Hn : Json.hex4 (drop 2 w) = None).
    { unfold Json.hex4. rewrite length_drop.
      rewrite (proj2 (Nat.ltb_lt (length w - 2) 4)) by lia. reflexivity. }
    rewrite Hn. cbn [cut].
    destruct (Nat.leb 6 (length (w ++ r))); [discriminate|].
    intros [= <- <-]. eauto.
Qed.

Lemma simple_escape_space (c : ascii) :
  is_space c = true -> Json.simple_escape c = None.
Proof. intros H. unfold Json.simple_escape. space_tests H. reflexivity. Qed.

Lemma scan_string_spaces (f : nat) (acc : ustr) (s : str) :
  forallb is_space s = true -> Json.scan_string f acc s = None.
Proof.
  revert acc s. induction f as [|f IH]; intros acc s Hs; [reflexivity|].
  destruct s as [|c s]; [reflexivity|]. cbn [forallb] in Hs.
  apply andb_true_iff in Hs as [Hc Hs]. cbn [Json.scan_string].
  space_tests Hc. destruct (code c <? 32)%N; [reflexivity|]. apply IH, Hs.
Qed.

Lemma scan_string_cut (f : nat) :
  forall (acc : ustr) (w : str) (x : ustr) (out : str),
    Json.scan_string f acc (w ++ r) = Some (x, out) ->
    exists rest,
      out = rest ++ r /\ length rest < length w
      /\ forall f', length w <= f' ->
           Json.scan_string f' acc w = Some (x, rest).
Proof.
  pose proof r_head as Hh. pose proof r_spaces as Hr.
  induction f as [|f IH]; intros acc w x out; [discriminate|].
  destruct w as [|c w].
  - cbn [app]. rewrite scan_string_spaces by exact Hr. discriminate.
  - cbn [app Json.scan_string]. destruct (chr_is 34 c) eqn:Hq.
    { intros [= <- <-]. exists w. split; [reflexivity|].
      split; [cbn [length]; lia|]. intros [|f'] Hf; [cbn [length] in Hf; lia|].
      cbn [Json.scan_string]. rewrite Hq. reflexivity. }
    destruct (chr_is 92 c) eqn:Hb.
    + destruct w as [|e w].
      { cbn [app]. destruct r as [|e r']; [discriminate|].
        space_tests Hh. rewrite simple_escape_space by exact Hh.
        discriminate. }
      cbn [app]. destruct (chr_is 117 e) eqn:Hu.
      * rewrite hex4_app.
        destruct (Json.hex4 w) as [[uni s3]|] eqn:H4; [|discriminate].
        cbn [cut].
        destruct (Json.scan_pair uni (s3 ++ r)) as [[y s4]|] eqn:Hp;
          [|discriminate].
        apply scan_pair_cut in Hp as (rest4 & -> & Hp & Hl4).
        intros (rest & -> & Hl & Hrun)%IH. exists rest.
        pose proof (hex4_length _ _ _ H4) as H4l.
        split; [reflexivity|]. split; [cbn [length]; lia|].
        intros [|f'] Hf; [cbn [length] in Hf; lia|].
        cbn [Json.scan_string]. rewrite Hq, Hb, Hu, H4, Hp.
        apply Hrun. cbn [length] in Hf. lia.
      * destruct (Json.simple_escape e) as [y|] eqn:He; [|discriminate].
        intros (rest & -> & Hl & Hrun)%IH. exists rest.
        split; [reflexivity|]. split; [cbn [length]; lia|].
        intros [|f'] Hf; [cbn [length] in Hf; lia|].
        cbn [Json.scan_string]. rewrite Hq, Hb, Hu, He.
        apply Hrun. cbn [length] in Hf. lia.
    + destruct (code c <? 32)%N eqn:Hc; [discriminate|].
      intros (rest & -> & Hl & Hrun)%IH. exists rest.
      split; [reflexivity|]. split; [cbn [length]; lia|].
      intros [|f'] Hf; [cbn [length] in Hf; lia|].
      cbn [Json.scan_string]. rewrite Hq, Hb, Hc.
      apply Hrun. cbn [length] in Hf. lia.
Qed.

Lemma skip_ws_app (w : str) :
  (exists d rest, Json.skip_ws w = d :: rest
                  /\ Json.skip_ws (w ++ r) = (d :: rest) ++ r)
  \/ (Json.skip_ws w = [] /\ Json.skip_ws (w ++ r) = Json.skip_ws r).
Proof.
  induction w as [|c w IH]; [right; auto|]. cbn [app Json.skip_ws].
  destruct (Json.is_ws c); [exact IH|]. left. exists c, w. auto.
Qed.

(** After white space a text goes on with a character that is none, or
    nothing can be read. *)
Lemma skip_ws_cut (w : str) (d : ascii) (out : str) :
  Json.skip_ws (w ++ r) = d :: out -> is_space d = false ->
  exists rest, out = rest ++ r /\ Json.skip_ws w = d :: rest
               /\ length rest < length w.
Proof.
  pose proof (skip_ws_spaces r r_spaces) as Hr.
  pose proof (skip_ws_length w) as Hl.
  destruct (skip_ws_app w) as [(d' & rest & Hw & ->)|[Hw ->]].
  - intros [= <- <-] _. exists rest. rewrite Hw in Hl. cbn [length] in Hl.
    split; [reflexivity|]. split; [exact Hw|lia].
  - intros Hd. rewrite Hd in Hr. congruence.
Qed.

Lemma after_ws {A} (G : str -> option A) (w : str) (x : A) :
  G [] = None -> (forall d s, is_space d = true -> G (d :: s) = None) ->
  G (Json.skip_ws (w ++ r)) = Some x ->
  Json.skip_ws (w ++ r) = Json.skip_ws w ++ r.
Proof.
  intros Hnil Hsp.
  pose proof (skip_ws_spaces r r_spaces) as Hr.
  destruct (skip_ws_app w) as [(d' & rest & -> & ->)|[-> ->]];
    [reflexivity|].
  destruct (Json.skip_ws r) as [|d out]; [rewrite Hnil; discriminate|].
  rewrite Hsp by exact Hr. discriminate.
Qed.

Definition cuts_once (f : nat) : Prop :=
  forall (w : str) (v : pyval) (out : str),
    Json.scan_once f (w ++ r) = Some (v, out) ->
    exists rest,
      out = rest ++ r /\ length rest < length w
      /\ forall f', 2 * length w <= f' ->
           Json.scan_once f' w = Some (v, rest).

Definition cuts_object (f : nat) : Prop :=
  forall (w : str) (acc : list (pyval * pyval)) (v : pyval) (out : str),
    Json.object_items f acc (w ++ r) = Some (v, out) ->
    exists rest,
      out = rest ++ r /\ length rest < length w
      /\ forall f', 2 * length w + 1 <= f' ->
           Json.object_items f' acc w = Some (v, rest).

Definition cuts_array (f : nat) : Prop :=
  forall (w : str) (acc : list pyval) (v : pyval) (out : str),
    Json.array_items f acc (w ++ r) = Some (v, out) ->
    exists rest,
      out = rest ++ r /\ length rest < length w
      /\ forall f', 2 * length w + 1 <= f' ->
           Json.array_items f' acc w = Some (v, rest).

Lemma scan_once_r (f : nat) : Json.scan_once f r = None.
Proof.
  pose proof r_head as Hh. destruct r as [|c r']; [apply scan_once_nil|].
  apply scan_once_space, Hh.
Qed.

Lemma object_items_r (f : nat) (acc : list (pyval * pyval)) :
  Json.object_items f acc r = None.
Proof.
  pose proof r_head as Hh. destruct r as [|c r']; [destruct f; reflexivity|].
  apply object_items_space, Hh.
Qed.

Lemma array_items_r (f : nat) (acc : list pyval) :
  Json.array_items f acc r = None.
Proof.
  destruct f as [|f]; [reflexivity|]. cbn [Json.array_items].
  rewrite scan_once_r. reflexivity.
Qed.

Ltac enough_fuel f1 Hf :=
  intros [|f1] Hf; [cbn [length] in Hf; lia|]; cbn [length] in Hf.

(** Reading a value stops before the white space that ends the text, and
    reads the same from the text without it, with fuel for that text. *)
Lemma cuts_all (f : nat) : cuts_once f /\ cuts_object f /\ cuts_array f.
Proof.
  induction f as [|f (IHo & IHb & IHa)].
  { repeat split; intros w; intros; discriminate. }
  split; [|split].
  - intros w v out. destruct w as [|c w];
      [cbn [app]; rewrite scan_once_r; discriminate|].
    cbn [app Json.scan_once].
    destruct (chr_is 34 c) eqn:H34.
    { destruct (Json.scan_string _ _ _) as [[x s1]|] eqn:Hs; [|discriminate].
      apply scan_string_cut in Hs as (rest & -> & Hl & Hrun).
      intros [= <- <-]. exists rest. split; [reflexivity|].
      split; [cbn [length]; lia|]. enough_fuel f1 Hf.
      cbn [Json.scan_once]. rewrite H34, (Hrun (length w)) by lia.
      reflexivity. }
    destruct (chr_is 123 c) eqn:H123.
    { destruct (Json.skip_ws (w ++ r)) as [|d r0] eqn:Hsk; [discriminate|].
      destruct (chr_is 125 d) eqn:Hd.
      - apply skip_ws_cut in Hsk as (rest & -> & Hw & Hl);
          [|apply (chr_is_not_space _ _ Hd); lia].
        intros [= <- <-]. exists rest. split; [reflexivity|].
        split; [cbn [length]; lia|]. enough_fuel f1 Hf.
        cbn [Json.scan_once]. rewrite H34, H123, Hw, Hd. reflexivity.
      - destruct (is_space d) eqn:Hsp;
          [rewrite object_items_space by exact Hsp; discriminate|].
        apply skip_ws_cut in Hsk as (rest0 & -> & Hw & Hl0); [|exact Hsp].
        change (d :: rest0 ++ r) with ((d :: rest0) ++ r).
        intros (rest & -> & Hl & Hrun)%IHb. exists rest.
        split; [reflexivity|]. cbn [length] in Hl.
        split; [cbn [length]; lia|]. enough_fuel f1 Hf.
        cbn [Json.scan_once]. rewrite H34, H123, Hw, Hd.
        apply Hrun. cbn [length]. lia. }
    destruct (chr_is 91 c) eqn:H91.
    { destruct (Json.skip_ws (w ++ r)) as [|d r0] eqn:Hsk; [discriminate|].
      destruct (chr_is 93 d) eqn:Hd.
      - apply skip_ws_cut in Hsk as (rest & -> & Hw & Hl);
          [|apply (chr_is_not_space _ _ Hd); lia].
        intros [= <- <-]. exists rest. split; [reflexivity|].
        split; [cbn [length]; lia|]. enough_fuel f1 Hf.
        cbn [Json.scan_once]. rewrite H34, H123, H91, Hw, Hd. reflexivity.
      - destruct (is_space d) eqn:Hsp;
          [rewrite array_items_space by exact Hsp; discriminate|].
        apply skip_ws_cut in Hsk as (rest0 & -> & Hw & Hl0); [|exact Hsp].
        change (d :: rest0 ++ r) with ((d :: rest0) ++ r).
        intros (rest & -> & Hl & Hrun)%IHa. exists rest.
        split; [reflexivity|]. cbn [length] in Hl.
        split; [cbn [length]; lia|]. enough_fuel f1 Hf.
        cbn [Json.scan_once]. rewrite H34, H123, H91, Hw, Hd.
        apply Hrun. cbn [length]. lia. }
    change (c :: w ++ r) with ((c :: w) ++ r).
    assert (Hlit : forall (word : str) (x : pyval),
              forallb (fun c => negb (is_space c)) word = true ->
              word <> [] ->
              Json.literal word x ((c :: w) ++ r) = Some (v, out) ->
              exists rest, out = rest ++ r /\ length rest < length (c :: w)
                           /\ Json.literal word x (c :: w) = Some (v, rest)).
    { intros word x Hword Hne. rewrite literal_app by exact Hword.
      intros (rest & -> & Hlit)%cut_some. exists rest.
      split; [reflexivity|]. split; [|exact Hlit].
      eapply literal_shorter; [exact Hne|exact Hlit]. }
    destruct (chr_is 110 c) eqn:H110.
    { intros (rest & -> & Hl & Hrun)%Hlit; [|reflexivity|discriminate].
      exists rest. split; [reflexivity|]. split; [exact Hl|].
      enough_fuel f1 Hf. cbn [Json.scan_once].
      rewrite H34, H123, H91, H110. exact Hrun. }
    destruct (chr_is 116 c) eqn:H116.
    { intros (rest & -> & Hl & Hrun)%Hlit; [|reflexivity|discriminate].
      exists rest. split; [reflexivity|]. split; [exact Hl|].
      enough_fuel f1 Hf. cbn [Json.scan_once].
      rewrite H34, H123, H91, H110, H116. exact Hrun. }
    destruct (chr_is 102 c) eqn:H102.
    { intros (rest & -> & Hl & Hrun)%Hlit; [|reflexivity|discriminate].
      exists rest. split; [reflexivity|]. split; [exact Hl|].
      enough_fuel f1 Hf. cbn [Json.scan_once].
      rewrite H34, H123, H91, H110, H116, H102. exact Hrun. }
    rewrite scan_number_app.
    destruct (Json.scan_number (c :: w)) as [[v' rest']|] eqn:Hn; cbn [cut].
    { intros [= <- <-]. exists rest'. split; [reflexivity|].
      split; [eapply scan_number_shorter, Hn|].
      enough_fuel f1 Hf. cbn [Json.scan_once].
      rewrite H34, H123, H91, H110, H116, H102, Hn. reflexivity. }
    destruct (chr_is 78 c) eqn:H78.
    { intros (rest & -> & Hl & Hrun)%Hlit; [|reflexivity|discriminate].
      exists rest. split; [reflexivity|]. split; [exact Hl|].
      enough_fuel f1 Hf. cbn [Json.scan_once].
      rewrite H34, H123, H91, H110, H116, H102, Hn, H78. exact Hrun. }
    destruct (chr_is 73 c) eqn:H73.
    { intros (rest & -> & Hl & Hrun)%Hlit; [|reflexivity|discriminate].
      exists rest. split; [reflexivity|]. split; [exact Hl|].
      enough_fuel f1 Hf. cbn [Json.scan_once].
      rewrite H34, H123, H91, H110, H116, H102, Hn, H78, H73. exact Hrun. }
    destruct (chr_is 45 c) eqn:H45; [|discriminate].
    intros (rest & -> & Hl & Hrun)%Hlit; [|reflexivity|discriminate].
    exists rest. split; [reflexivity|]. split; [exact Hl|].
    enough_fuel f1 Hf. cbn [Json.scan_once].
    rewrite H34, H123, H91, H110, H116, H102, Hn, H78, H73, H45. exact Hrun.
  - intros w acc v out. destruct w as [|q w];
      [cbn [app]; rewrite object_items_r; discriminate|].
    cbn [app Json.object_items].
    destruct (chr_is 34 q) eqn:Hq; [|discriminate].
    destruct (Json.scan_string _ _ _) as [[key s2]|] eqn:Hs; [|discriminate].
    apply scan_string_cut in Hs as (rest2 & -> & Hl2 & Hrun2).
    destruct (Json.skip_ws (rest2 ++ r)) as [|col s3] eqn:Hsk;
      [discriminate|].
    destruct (chr_is 58 col) eqn:Hc; [|discriminate].
    apply skip_ws_cut in Hsk as (rest3 & -> & Hw3 & Hl3);
      [|apply (chr_is_not_space _ _ Hc); lia].
    destruct (Json.scan_once f (Json.skip_ws (rest3 ++ r)))
      as [[v1 s4]|] eqn:Hv; [|discriminate].
    pose proof (after_ws (Json.scan_once f) _ _ (scan_once_nil f)
                  (scan_once_space f) Hv) as Hws.
    rewrite Hws in Hv. apply IHo in Hv as (rest4 & -> & Hl4 & Hrun4).
    pose proof (skip_ws_length rest3) as Hl3'.
    cbv zeta.
    destruct (Json.skip_ws (rest4 ++ r)) as [|d s5] eqn:Hsk5;
      [discriminate|].
    destruct (chr_is 125 d) eqn:Hd.
    + apply skip_ws_cut in Hsk5 as (rest5 & -> & Hw5 & Hl5);
        [|apply (chr_is_not_space _ _ Hd); lia].
      intros [= <- <-]. exists rest5. split; [reflexivity|].
      split; [cbn [length]; lia|]. enough_fuel f1 Hf.
      cbn [Json.object_items].
      rewrite Hq, (Hrun2 (length w)), Hw3, Hc, (Hrun4 f1), Hw5, Hd by lia.
      reflexivity.
    + destruct (chr_is 44 d) eqn:Hcm; [|discriminate].
      apply skip_ws_cut in Hsk5 as (rest5 & -> & Hw5 & Hl5);
        [|apply (chr_is_not_space _ _ Hcm); lia].
      intros Hrec.
      pose proof (after_ws (Json.object_items f _) _ _
                    ltac:(destruct f; reflexivity)
                    (object_items_space f _) Hrec) as Hws5.
      rewrite Hws5 in Hrec.
      apply IHb in Hrec as (rest & -> & Hl & Hrun).
      pose proof (skip_ws_length rest5) as Hl5'.
      exists rest. split; [reflexivity|].
      split; [cbn [length]; lia|]. enough_fuel f1 Hf.
      cbn [Json.object_items].
      rewrite Hq, (Hrun2 (length w)), Hw3, Hc, (Hrun4 f1), Hw5, Hd, Hcm
        by lia.
      apply Hrun. lia.
  - intros w acc v out. cbn [Json.array_items].
    destruct (Json.scan_once f (w ++ r)) as [[v1 s1]|] eqn:Hv;
      [|discriminate].
    apply IHo in Hv as (rest1 & -> & Hl1 & Hrun1).
    destruct (Json.skip_ws (rest1 ++ r)) as [|d s2] eqn:Hsk;
      [discriminate|].
    destruct (chr_is 93 d) eqn:Hd.
    + apply skip_ws_cut in Hsk as (rest2 & -> & Hw2 & Hl2);
        [|apply (chr_is_not_space _ _ Hd); lia].
      intros [= <- <-]. exists rest2. split; [reflexivity|].
      split; [lia|]. enough_fuel f1 Hf.
      cbn [Json.array_items]. rewrite (Hrun1 f1), Hw2, Hd by lia.
      reflexivity.
    + destruct (chr_is 44 d) eqn:Hcm; [|discriminate].
      apply skip_ws_cut in Hsk as (rest2 & -> & Hw2 & Hl2);
        [|apply (chr_is_not_space _ _ Hcm); lia].
      intros Hrec.
      pose proof (after_ws (Json.array_items f _) _ _
                    (array_items_nil f _)
                    (array_items_space f _) Hrec) as Hws2.
      rewrite Hws2 in Hrec.
      apply IHa in Hrec as (rest & -> & Hl & Hrun).
      pose proof (skip_ws_length rest2) as Hl2'.
      exists rest. split; [reflexivity|].
      split; [lia|]. enough_fuel f1 Hf.
      cbn [Json.array_items]. rewrite (Hrun1 f1), Hw2, Hd, Hcm by lia.
      apply Hrun. lia.
Qed.
End Truncation.

(** The trimmed text starts with a character that is no white space. *)
Lemma strip_head (s : str) :
  match strip s with [] => True | c :: _ => is_space c = false end.
Proof.
  unfold strip. destruct (rstrip_split (lstrip s)) as (ws & Hs & _).
  destruct (rstrip (lstrip s)) as [|c x] eqn:Hx; [exact I|].
  pose proof (lstrip_idem s) as Hi. rewrite Hs in Hi. simpl in Hi.
  destruct (is_space c) eqn:Hc; [|reflexivity].
  pose proof (lstrip_length (x ++ ws)) as Hlen. rewrite Hi in Hlen.
  simpl in Hlen. lia.
Qed.

Lemma skip_ws_fixed (s : str) :
  match s with [] => True | c :: _ => is_space c = false end ->
  Json.skip_ws s = s.
Proof.
  destruct s as [|c s]; [reflexivity|]. intros Hc. cbn [Json.skip_ws].
  destruct (Json.is_ws c) eqn:Hw; [|reflexivity].
  apply is_ws_space in Hw. congruence.
Qed.

Lemma skip_ws_app_nil (a b : str) :
  Json.skip_ws (a ++ b) = [] -> Json.skip_ws a = [].
Proof.
  induction a as [|c a IH]; [reflexivity|]. cbn [app Json.skip_ws].
  destruct (Json.is_ws c); [exact IH|discriminate].
Qed.

Lemma skip_ws_lead (f : nat) (l x : str) (y : pyval * str) :
  forallb is_space l = true ->
  Json.scan_once f (Json.skip_ws (l ++ x)) = Some y ->
  Json.skip_ws (l ++ x) = Json.skip_ws x.
Proof.
  induction l as [|c l IH]; [reflexivity|]. cbn [forallb app Json.skip_ws].
  intros [Hc Hl]%andb_true_iff. destruct (Json.is_ws c); [apply IH, Hl|].
  rewrite scan_once_space by exact Hc. discriminate.
Qed.

(** White space that [str.strip] removes around a JSON text does not
    change what [json.loads] reads. *)
Lemma loads_strip (text : str) (v : pyval) :
  Json.loads text = Some v -> Json.loads (strip text) = Some v.
Proof.
  destruct (strip_split text) as (l & r & Htext & Hl & Hr).
  pose proof (strip_head text) as Hhead.
  unfold Json.loads.
  destruct (Json.scan_once _ (Json.skip_ws text)) as [[v1 out]|] eqn:Hscan;
    [|discriminate].
  destruct (is_nil (Json.skip_ws out)) eqn:Hout; [|discriminate].
  intros [= ->].
  rewrite Htext in Hscan at 2.
  rewrite (skip_ws_lead _ _ _ _ Hl Hscan) in Hscan.
  assert (Hcore : Json.skip_ws (strip text ++ r) = strip text ++ r).
  { destruct (strip text) as [|c core] eqn:Hs.
    - cbn [app] in Hscan |- *. exfalso.
      pose proof (skip_ws_spaces r Hr) as Hsp.
      destruct (Json.skip_ws r) as [|d s'].
      + rewrite scan_once_nil in Hscan. discriminate.
      + rewrite scan_once_space in Hscan by exact Hsp. discriminate.
    - apply skip_ws_fixed. exact Hhead. }
  rewrite Hcore in Hscan.
  destruct (cuts_all r Hr (2 * length text + 2)) as [Hcut _].
  apply Hcut in Hscan as (rest & -> & Hlen & Hrun).
  rewrite (skip_ws_fixed _ Hhead), Hrun by lia.
  apply is_nil_true in Hout. apply skip_ws_app_nil in Hout.
  rewrite Hout. reflexivity.
Qed.

Lemma clean_without_matches (text : str) :
  Forall (fun r => no_match r text) sanitizer_patterns ->
  clean_json_string text = strip text.
Proof.
  unfold sanitizer_patterns. rewrite !Forall_cons.
  intros (H1 & H2 & H3 & H4 & H5 & H6 & H7 & _).
  unfold clean_json_string, strip_fence_open, strip_fence_close,
    strip_comments, strip_paren_notes, quote_bare_keys,
    strip_trailing_commas.
  cbv zeta.
  rewrite (sub_no_match _ _ text H1), (sub_no_match _ _ text H2),
    (sub_no_match _ _ text H3), (sub_no_match _ _ text H4),
    (sub_no_match _ _ text H5), (sub_no_match _ _ text H6),
    (sub_no_match _ _ text H7).
  reflexivity.
Qed.

(** C1 (as amended): on well-formed JSON in which no pattern of the
    sanitizer has a match and whose value is true for [if parsed:],
    [parse] returns exactly the value of decoding the input directly,
    from its first attempt.  White space around the JSON text does not
    matter: the sanitizer trims it, and the strict decoder reads the
    trimmed text as it reads the input. *)
Theorem C1_json_without_matches_is_returned (text : str) (v : pyval) :
  Json.loads text = Some v ->
  truthy v = true ->
  Forall (fun r => no_match r text) sanitizer_patterns ->
  parse text = Ok (Some v)
  /\ attempts text = [Event StructDirect (strip text) true].
Proof.
  intros Hv Ht Hno.
  pose proof (clean_without_matches text Hno) as Hc.
  apply loads_strip in Hv.
  assert (Hne : strip text <> []).
  { intros Hb. rewrite Hb in Hv. discriminate. }
  destruct (parse_direct text v Hne) as [Hp Ha];
    [rewrite Hc; exact Hv|exact Ht|].
  rewrite Hc in Ha. auto.
Qed.

Lemma C1_json_without_matches_is_returned_witness :
  let text := txt "  {~a~: 1, ~b~: [2.5, ~x~]} " ++ [newline] in
  let v := PyDict [(PyStr (u "a"), PyInt 1);
                   (PyStr (u "b"),
                    PyList [PyFloat (FFin false 25 (-1)); PyStr (u "x")])] in
  Json.loads text = Some v
  /\ clean_json_string text <> text
  /\ parse text = Ok (Some v)
  /\ attempts text = [Event StructDirect (strip text) true].
Proof.
  cbv zeta.
  split; [vm_compute; reflexivity|].
  split; [vm_compute; discriminate|].
  apply C1_json_without_matches_is_returned;
    [vm_compute; reflexivity|reflexivity|].
  unfold sanitizer_patterns. repeat constructor; vm_compute; reflexivity.
Defined.

(** C1 fails as stated: the sanitizer rewrites well-formed JSON before it
    is decoded.  A parenthetical note inside a string value is cut out, so
    [parse] succeeds with another record than the direct decoding; a colon
    after a word inside a string value is quoted, so nothing decodes any
    more and [parse] fails.  And a value that is false for [if parsed:],
    as the empty object and zero are, is not returned either. *)
Lemma C1_counterexample :
  Json.loads (txt "{~a~: ~3 (Neutral)~}")
  = Some (PyDict [(PyStr (u "a"), PyStr (u "3 (Neutral)"))])
  /\ parse (txt "{~a~: ~3 (Neutral)~}")
     = Ok (Some (PyDict [(PyStr (u "a"), PyStr (u "3"))]))
  /\ Json.loads (txt "{~t~: ~10:30~}")
     = Some (PyDict [(PyStr (u "t"), PyStr (u "10:30"))])
  /\ parse (txt "{~t~: ~10:30~}") = Ok None
  /\ Json.loads "{}" = Some (PyDict [])
  /\ parse "{}" = Ok None
  /\ Json.loads "0" = Some (PyInt 0)
  /\ parse "0" = Ok None.
Proof. repeat split; vm_compute; reflexivity. Qed.

(** ** Bounds and positions of the heuristic *)

Lemma likert_numbers_in_range (text : str) :
  Forall (fun n => (1 <= n <= 7)%Z) (likert_numbers text).
Proof.
  unfold likert_numbers. apply Forall_forall. intros n Hn.
  apply list_elem_of_In, filter_In in Hn as [_ Hn]. unfold in_likert in Hn.
  lia.
Qed.

(** X1: the heuristic returns at most four attitude scores and at most
    three intention scores, and every score it returns is a number from 1
    to 7. *)
Theorem X1_heuristic_scores_bounded (text : str) :
  let sc := extract_scores_from_text text in
  length (ad_attitude_scores sc) <= 4
  /\ length (purchase_intention_scores sc) <= 3
  /\ Forall (fun n => (1 <= n <= 7)%Z)
            (ad_attitude_scores sc ++ purchase_intention_scores sc).
Proof.
  cbv zeta. rewrite extract_scores_spec.
  cbn [ad_attitude_scores purchase_intention_scores].
  pose proof (likert_numbers_in_range text) as Hr.
  destruct (attitude_keyword text), (intention_keyword text);
    rewrite ?length_take; cbn [length];
    (split; [lia|split; [lia|]]);
    rewrite ?app_nil_r; cbn [app];
    try apply Forall_app_2; try apply Forall_take; try apply Forall_drop;
    try exact Hr; constructor.
Qed.

(** X2: the intention scores are taken by position, never from the first
    four numbers.  With both kinds of keyword the two sequences together
    are the first seven numbers in range, in the order of the text; with at
    most four numbers in range there are no intention scores, so a text
    with an intention keyword only and at most four numbers gives no
    record; and a text without any keyword gives no record. *)
Theorem X2_heuristic_positions (text : str) :
  let sc := extract_scores_from_text text in
  (attitude_keyword text = true -> intention_keyword text = true ->
   ad_attitude_scores sc ++ purchase_intention_scores sc
   = take 7 (likert_numbers text))
  /\ (length (likert_numbers text) <= 4 -> purchase_intention_scores sc = [])
  /\ (attitude_keyword text = false ->
      length (likert_numbers text) <= 4 -> heuristic_result text = None)
  /\ (attitude_keyword text = false -> intention_keyword text = false ->
      heuristic_result text = None).
Proof.
  cbv zeta. unfold heuristic_result. rewrite extract_scores_spec.
  cbn [ad_attitude_scores purchase_intention_scores].
  assert (Hdrop : length (likert_numbers text) <= 4 ->
                  take 3 (drop 4 (likert_numbers text)) = []).
  { intros H. rewrite drop_ge by exact H. reflexivity. }
  repeat split.
  - intros -> ->. rewrite <- (take_drop 4 (take 7 (likert_numbers text))).
    rewrite take_take, skipn_firstn_comm. reflexivity.
  - intros H. rewrite (Hdrop H). destruct (intention_keyword text); reflexivity.
  - intros -> H. rewrite (Hdrop H).
    destruct (intention_keyword text); reflexivity.
  - intros -> ->. reflexivity.
Qed.

Lemma starts_with_app (p s : str) : starts_with p (p ++ s) = true.
Proof.
  induction p as [|c p IH]; [reflexivity|]. simpl.
  rewrite Ascii.eqb_refl. exact IH.
Qed.

Lemma starts_with_split (p s : str) :
  starts_with p s = true -> exists r, s = p ++ r.
Proof.
  revert s. induction p as [|c p IH]; intros s; [eauto|].
  destruct s as [|d s]; [discriminate|]. simpl.
  intros [->%Ascii.eqb_eq [r ->]%IH]%andb_true_iff. eauto.
Qed.

Lemma contains_middle (p a b : str) : contains p (a ++ p ++ b) = true.
Proof.
  induction a as [|c a IH].
  - destruct (p ++ b) eqn:E; cbn [app contains]; rewrite <- E;
      rewrite starts_with_app; reflexivity.
  - cbn [app contains]. rewrite IH. apply orb_true_r.
Qed.

Lemma contains_split (p s : str) :
  contains p s = true -> exists a b, s = a ++ p ++ b.
Proof.
  induction s as [|c s IH]; cbn [contains].
  - rewrite orb_false_r. destruct p; [|discriminate]. intros _.
    exists [], []. reflexivity.
  - intros [H|H]%orb_true_iff.
    + apply starts_with_split in H as [r ->]. exists [], r. reflexivity.
    + destruct (IH H) as (a & b & ->). exists (c :: a), b. reflexivity.
Qed.

(** X3: the keywords of the heuristic are looked for as parts of the
    text, in any case of the letters and inside longer words as well: a
    text is attitude-related exactly when some part of it is [attitude] or
    [like] once lowered, and intention-related exactly when some part of
    it is [intention] or [purchase]. *)
Theorem X3_keywords_are_substrings (text : str) :
  (attitude_keyword text = true <->
   exists a w b, text = a ++ w ++ b
                 /\ (lower w = "attitude" \/ lower w = "like"))
  /\ (intention_keyword text = true <->
      exists a w b, text = a ++ w ++ b
                    /\ (lower w = "intention" \/ lower w = "purchase")).
Proof.
  assert (H : forall k : str,
            contains k (lower text) = true <->
            exists a w b, text = a ++ w ++ b /\ lower w = k).
  { intros k. split.
    - intros (a & b & H)%contains_split. unfold lower in H.
      apply map_eq_app in H as (a' & r & -> & Ha & H).
      apply map_eq_app in H as (w & b' & -> & Hw & Hb).
      exists a', w, b'. split; [reflexivity|exact Hw].
    - intros (a & w & b & -> & <-). unfold lower. rewrite !map_app.
      apply contains_middle. }
  unfold attitude_keyword, intention_keyword.
  rewrite !orb_true_iff, !H. split; split.
  - intros [(a & w & b & ? & ?)|(a & w & b & ? & ?)]; exists a, w, b; auto.
  - intros (a & w & b & ? & [?|?]); [left|right]; exists a, w, b; auto.
  - intros [(a & w & b & ? & ?)|(a & w & b & ? & ?)]; exists a, w, b; auto.
  - intros (a & w & b & ? & [?|?]); [left|right]; exists a, w, b; auto.
Qed.

(** ** Where the candidates come from *)

Lemma findall_loop_scattered (r : re) (fuel : nat) :
  forall adv p s, scattered (map fst (findall_loop fuel r adv p s)) s.
Proof.
  induction fuel as [|fuel IH]; intros adv p s; simpl; [exact I|].
  destruct (search r adv p s) as [[[sk wh] st1]|] eqn:Hsr; [|exact I].
  apply search_sound in Hsr as (Hs & _). simpl.
  exists sk, (rest st1). split; [exact Hs|apply IH].
Qed.

Lemma scattered_part (bs : list str) (s b : str) :
  scattered bs s -> b ∈ bs -> exists pre post, s = pre ++ b ++ post.
Proof.
  revert s. induction bs as [|b' bs IH]; intros s Hs Hin; [inversion Hin|].
  destruct Hs as (pre & post & -> & Hs).
  apply elem_of_cons in Hin as [->|Hin]; [eauto|].
  destruct (IH _ Hs Hin) as (pre' & post' & ->).
  exists (pre ++ b' ++ pre'), post'. rewrite <- !app_assoc. reflexivity.
Qed.

Lemma lang_brackets (o c : ascii) (r : re) (w : str) :
  lang (Seq (Chr o) (Seq r (Chr c))) w ->
  exists body, w = o :: body ++ [c].
Proof.
  intros (w1 & w2 & -> & ->%lang_chr & w3 & w4 & -> & _ & ->%lang_chr).
  exists w3. reflexivity.
Qed.

Lemma json_pattern_brackets (w : str) :
  lang json_pattern w -> exists body, w = "{"%char :: body ++ ["}"%char].
Proof.
  intros (w1 & w2 & -> & ->%lang_chr & w3 & w4 & -> & _
          & w5 & w6 & -> & _ & ->%lang_chr).
  exists (w3 ++ w5). rewrite <- app_assoc. reflexivity.
Qed.

Lemma array_pattern_brackets (w : str) :
  lang array_pattern w -> exists body, w = "["%char :: body ++ ["]"%char].
Proof.
  intros (w1 & w2 & -> & ->%lang_chr & w3 & w4 & -> & _
          & w5 & w6 & -> & _ & ->%lang_chr).
  exists (w3 ++ w5). rewrite <- app_assoc. reflexivity.
Qed.

(** X4: the candidates of each of the three patterns are parts of the
    text that follow one another without overlap; so every candidate is a
    contiguous part of the text, and it runs from an opening brace to a
    closing brace or from an opening to a closing square bracket. *)
Theorem X4_candidates_are_parts_of_the_text (text : str) :
  scattered (findall json_pattern text) text
  /\ scattered (findall array_pattern text) text
  /\ scattered (findall nested_pattern text) text
  /\ forall b, b ∈ extract_json_blocks text ->
       (exists pre post, text = pre ++ b ++ post)
       /\ ((exists body, b = "{"%char :: body ++ ["}"%char])
           \/ (exists body, b = "["%char :: body ++ ["]"%char])).
Proof.
  assert (Hsc : forall r, scattered (findall r text) text)
    by (intros r; apply findall_loop_scattered).
  split; [apply Hsc|]. split; [apply Hsc|]. split; [apply Hsc|].
  intros b. unfold extract_json_blocks. cbn [app].
  rewrite !elem_of_app. intros [[Hb|Hb]|Hb].
  - split; [exact (scattered_part _ _ _ (Hsc _) Hb)|].
    left. apply json_pattern_brackets, (findall_sound _ _ _ Hb).
  - split; [exact (scattered_part _ _ _ (Hsc _) Hb)|].
    right. apply array_pattern_brackets, (findall_sound _ _ _ Hb).
  - split; [exact (scattered_part _ _ _ (Hsc _) Hb)|].
    left. apply (lang_brackets "{" "}" _ _ (findall_sound _ _ _ Hb)).
Qed.

Lemma no_elements {A} (l : list A) : (forall x, x ∉ l) -> l = [].
Proof.
  destruct l as [|x l]; [reflexivity|]. intros H. destruct (H x). left.
Qed.

Lemma findall_needs (r : re) (c : ascii) (s : str) :
  (forall w, lang r w -> c ∈ w) -> c ∉ s -> findall r s = [].
Proof.
  intros Hr Hc. apply no_elements. intros b Hb. apply Hc.
  destruct (scattered_part _ _ _ (findall_loop_scattered r _ _ _ s) Hb)
    as (pre & post & ->).
  rewrite !elem_of_app. right. left. apply Hr, (findall_sound _ _ _ Hb).
Qed.

Lemma no_blocks_without_brackets (text : str) :
  ("{"%char ∉ text) \/ ("}"%char ∉ text) ->
  ("["%char ∉ text) \/ ("]"%char ∉ text) ->
  extract_json_blocks text = [].
Proof.
  intros Hbrace Hsquare. unfold extract_json_blocks. cbn [app].
  assert (H1 : findall json_pattern text = []).
  { destruct Hbrace as [H|H]; (eapply findall_needs; [|exact H]);
      intros w (body & ->)%json_pattern_brackets;
      rewrite elem_of_cons, elem_of_app, list_elem_of_singleton; auto. }
  assert (H2 : findall array_pattern text = []).
  { destruct Hsquare as [H|H]; (eapply findall_needs; [|exact H]);
      intros w (body & ->)%array_pattern_brackets;
      rewrite elem_of_cons, elem_of_app, list_elem_of_singleton; auto. }
  assert (H3 : findall nested_pattern text = []).
  { destruct Hbrace as [H|H]; (eapply findall_needs; [|exact H]);
      intros w (body & ->)%(lang_brackets "{" "}");
      rewrite elem_of_cons, elem_of_app, list_elem_of_singleton; auto. }
  rewrite H1, H2, H3. reflexivity.
Qed.

(** X5: a text that lacks an opening or a closing brace, and lacks an
    opening or a closing square bracket, has no candidate block at all. *)
Theorem X5_no_candidates_without_brackets (text : str) :
  ("{"%char ∉ text) \/ ("}"%char ∉ text) ->
  ("["%char ∉ text) \/ ("]"%char ∉ text) ->
  extract_json_blocks text = [].
Proof. apply no_blocks_without_brackets. Qed.

Lemma X5_no_candidates_without_brackets_witness :
  extract_json_blocks "scores: 5, 6 and 7 } ]" = [].
Proof.
  apply X5_no_candidates_without_brackets; left;
    intros H; repeat (apply elem_of_cons in H as [H|H]; [discriminate H|]);
    inversion H.
Defined.

(** ** Text the sanitizer leaves alone *)

Lemma no_match_without (r : re) (c : ascii) (s : str) :
  (forall w, lang r w -> c ∈ w) -> c ∉ s -> no_match r s.
Proof.
  intros Hr Hc. unfold no_match.
  destruct (search r false None s) as [[[sk wh] st1]|] eqn:Hsr; [|reflexivity].
  apply search_sound in Hsr as (-> & Hw & _). exfalso. apply Hc.
  rewrite !elem_of_app. right. left. apply Hr, Hw.
Qed.

Lemma lang_starts (c : ascii) (r : re) (w : str) :
  lang (Seq (Chr c) r) w -> c ∈ w.
Proof. intros (w1 & w2 & -> & ->%lang_chr & _). left. Qed.

Lemma lang_fence (r : re) (w : str) :
  lang (Seq (Lit fence) r) w -> backtick ∈ w.
Proof.
  intros (w1 & w2 & -> & Hw & _). apply elem_of_app. left.
  apply (lang_starts _ _ _ Hw).
Qed.

Lemma clean_plain_text (text : str) :
  (backtick ∉ text) -> ("/"%char ∉ text) -> ("("%char ∉ text) ->
  (":"%char ∉ text) -> (","%char ∉ text) ->
  clean_json_string text = strip text.
Proof.
  intros Hfence Hslash Hparen Hcolon Hcomma. unfold clean_json_string.
  unfold strip_fence_open, strip_fence_close, strip_comments,
    strip_paren_notes, quote_bare_keys, strip_trailing_commas.
  rewrite (sub_no_match re_fence_open).
  2: { apply (no_match_without _ backtick); [|exact Hfence].
       intros w (w1 & w2 & -> & Hw & _). apply elem_of_app. left.
       apply (lang_starts _ _ _ Hw). }
  rewrite (sub_no_match re_fence_close)
    by (apply (no_match_without _ backtick); [apply lang_fence|exact Hfence]).
  rewrite (sub_no_match re_comment).
  2: { apply (no_match_without _ "/"%char); [|exact Hslash].
       intros w (w1 & w2 & -> & Hw & _). apply elem_of_app. left.
       apply (lang_starts _ _ _ Hw). }
  rewrite (sub_no_match re_paren_note).
  2: { apply (no_match_without _ "("%char); [|exact Hparen].
       intros w (w1 & w2 & -> & _ & w3 & w4 & -> & _ & Hw).
       rewrite !elem_of_app. right. right. apply (lang_starts _ _ _ Hw). }
  rewrite (sub_no_match re_bare_key).
  2: { apply (no_match_without _ ":"%char); [|exact Hcolon].
       intros w (w1 & w2 & -> & _ & ->%lang_chr).
       apply elem_of_app. right. left. }
  rewrite (sub_no_match (re_comma_before "}"))
    by (apply (no_match_without _ ","%char); [apply lang_starts|exact Hcomma]).
  rewrite (sub_no_match (re_comma_before "]"))
    by (apply (no_match_without _ ","%char); [apply lang_starts|exact Hcomma]).
  reflexivity.
Qed.

(** X6: a text without a backtick, a slash, an opening parenthesis, a
    colon and a comma is only trimmed by the sanitizer: none of its rules
    applies. *)
Theorem X6_plain_text_is_only_trimmed (text : str) :
  (backtick ∉ text) -> ("/"%char ∉ text) -> ("("%char ∉ text) ->
  (":"%char ∉ text) -> (","%char ∉ text) ->
  clean_json_string text = strip text.
Proof. apply clean_plain_text. Qed.

Lemma X6_plain_text_is_only_trimmed_witness :
  clean_json_string "  I like it 5 6 7 4  " = strip "  I like it 5 6 7 4  ".
Proof.
  apply X6_plain_text_is_only_trimmed;
    intros H; repeat (apply elem_of_cons in H as [H|H]; [discriminate H|]);
    inversion H.
Defined.

(** ** Free prose, and the exception of the pipeline *)

Lemma not_elem_of_none_of (c : ascii) (cs s : str) :
  forallb (none_of cs) s = true -> c ∈ cs -> c ∉ s.
Proof.
  intros Hs Hc Hin. apply list_elem_of_In in Hin.
  apply (proj1 (forallb_forall _ _) Hs) in Hin.
  unfold none_of in Hin. apply negb_true_iff in Hin.
  apply Bool.not_true_iff_false in Hin. apply Hin.
  apply existsb_exists. exists c. split; [|apply Ascii.eqb_refl].
  apply list_elem_of_In, Hc.
Qed.

Lemma not_elem_of_strip (c : ascii) (s : str) : c ∉ s -> c ∉ strip s.
Proof.
  destruct (strip_split s) as (l & r & Hs & _). intros Hc Hin. apply Hc.
  rewrite Hs, !elem_of_app. auto.
Qed.

(** X7: free prose goes straight to the heuristic.  On a text that is
    not blank, holds none of the characters the sanitizer and the block
    locator look for (backtick, slash, opening parenthesis, colon, comma,
    opening brace, opening square bracket), holds no run of more than
    4300 digits (above that [int()] raises [ValueError], in the strict
    decoder and in the heuristic alike, which the model leaves out) and
    whose trimmed form is not decoded to a true value by the strict
    decoder, the pipeline makes two attempts, the direct one and the
    heuristic, and returns what the heuristic finds in the raw text. *)
Theorem X7_prose_goes_to_the_heuristic (text : str) :
  strip text <> [] ->
  forallb (none_of (backtick :: "/(:,{[")) text = true ->
  longest_digit_run 0 text <= 4300 ->
  is_true (try_parse_json (strip text)) = false ->
  parse text = Ok (heuristic_result text)
  /\ attempts text
     = [ Event StructDirect (strip text) false;
         Event Heuristic text (is_true (heuristic_result text)) ].
Proof.
  intros Hblank Hplain _ Hjson.
  assert (Hno : forall c, c ∈ backtick :: "/(:,{[" -> c ∉ text)
    by (intros c; apply not_elem_of_none_of, Hplain).
  assert (Hclean : clean_json_string text = strip text).
  { apply clean_plain_text; apply Hno;
      repeat first [left; reflexivity | right]. }
  assert (Hblocks : extract_json_blocks (strip text) = []).
  { apply no_blocks_without_brackets; left; apply not_elem_of_strip, Hno;
      repeat first [left; reflexivity | right]. }
  unfold parse, attempts, compose. rewrite parse_response_eq.
  apply is_nil_false in Hblank. rewrite Hblank. cbv zeta.
  rewrite Hclean, Hjson, Hblocks. split; reflexivity.
Qed.

Lemma X7_prose_goes_to_the_heuristic_witness :
  longest_digit_run 0 "I like this ad 5 6 7 4" = 1
  /\ parse "I like this ad 5 6 7 4"
     = Ok (heuristic_result "I like this ad 5 6 7 4")
  /\ attempts "I like this ad 5 6 7 4"
     = [ Event StructDirect (strip "I like this ad 5 6 7 4") false;
         Event Heuristic "I like this ad 5 6 7 4"
               (is_true (heuristic_result "I like this ad 5 6 7 4")) ].
Proof.
  split; [reflexivity|].
  apply X7_prose_goes_to_the_heuristic;
    [discriminate|vm_compute; reflexivity|vm_compute; lia
    |vm_compute; reflexivity].
Defined.

Lemma first_success_raise_block (s : strategy)
    (decode : str -> result (option pyval)) (bs : list str)
    (t : list event) (e : exn) :
  first_success s decode bs = (t, Raise e) ->
  exists b, b ∈ bs /\ decode b = Raise e.
Proof.
  revert t. induction bs as [|b bs IH]; intros t.
  - discriminate.
  - rewrite first_success_cons. destruct (decode b) as [o|e'] eqn:Hd.
    + destruct (is_true o); [discriminate|].
      destruct (first_success s decode bs) as [t' r] eqn:Hf.
      intros [= <- ->]. destruct (IH _ eq_refl) as (b' & Hin & Hb').
      exists b'. split; [right; exact Hin|exact Hb'].
    + intros [= <- <-]. exists b. split; [left|exact Hd].
Qed.

(** ** What the strict decoder returns *)

Lemma json_value_dict (kvs : list (pyval * pyval)) :
  json_value (PyDict kvs) = json_items kvs.
Proof. reflexivity. Qed.

Lemma json_value_list (l : list pyval) :
  json_value (PyList l) = forallb json_value l.
Proof. reflexivity. Qed.

Lemma dict_set_json (acc : list (pyval * pyval)) (k : ustr) (v : pyval) :
  json_items acc = true -> json_value v = true ->
  json_items (Json.dict_set acc k v) = true.
Proof.
  intros Hacc Hv. induction acc as [|[k' v'] acc IH].
  - cbn. rewrite Hv. reflexivity.
  - cbn [json_items forallb fst snd] in Hacc.
    apply andb_true_iff in Hacc as [Hk Hacc]. specialize (IH Hacc).
    destruct k' as [|b|n|f|s| |l|l|l|kvs]; try discriminate.
    cbn [Json.dict_set]. destruct (decide (s = k)).
    + cbn [json_items forallb fst snd]. rewrite Hv. exact Hacc.
    + cbn [json_items forallb fst snd]. rewrite Hk. exact IH.
Qed.

Lemma scan_number_json (s r : str) (v : pyval) :
  Json.scan_number s = Some (v, r) -> json_value v = true.
Proof.
  unfold Json.scan_number.
  destruct (match s with
            | c :: s' => if chr_is 45 c then (true, s') else (false, s)
            | [] => (false, s)
            end) as [neg s0].
  destruct (Json.scan_int_part s0) as [[ints s1]|]; [|discriminate].
  destruct (match Json.scan_frac s1 with
            | Some (ds, r) => (Some ds, r)
            | None => (None, s1)
            end) as [frac s2].
  destruct (match Json.scan_exp s2 with
            | Some (x, r) => (Some x, r)
            | None => (None, s2)
            end) as [ex s3].
  destruct frac, ex; intros [= <- <-]; reflexivity.
Qed.

Lemma literal_json (word : str) (v0 : pyval) (s r : str) (v : pyval) :
  json_value v0 = true -> Json.literal word v0 s = Some (v, r) ->
  json_value v = true.
Proof.
  intros H0. unfold Json.literal.
  destruct (drop_prefix word s); [|discriminate].
  intros [= <- <-]. exact H0.
Qed.

(** The three loops of the decoder, by induction on the nesting they are
    allowed. *)
Lemma scan_json (fuel : nat) :
  (forall s v r, Json.scan_once fuel s = Some (v, r) -> json_value v = true)
  /\ (forall acc s v r,
        json_items acc = true ->
        Json.object_items fuel acc s = Some (v, r) -> json_value v = true)
  /\ (forall acc s v r,
        forallb json_value acc = true ->
        Json.array_items fuel acc s = Some (v, r) -> json_value v = true).
Proof.
  induction fuel as [|fuel (IHs & IHo & IHa)].
  - repeat split; intros; discriminate.
  - split; [|split].
    + intros s v r. cbn [Json.scan_once].
      destruct s as [|c s']; [discriminate|].
      destruct (chr_is 34 c).
      { destruct (Json.scan_string _ _ _) as [[x r']|]; [|discriminate].
        intros [= <- <-]. reflexivity. }
      destruct (chr_is 123 c).
      { destruct (Json.skip_ws s') as [|d r']; [discriminate|].
        destruct (chr_is 125 d); [intros [= <- <-]; reflexivity|].
        apply IHo. reflexivity. }
      destruct (chr_is 91 c).
      { destruct (Json.skip_ws s') as [|d r']; [discriminate|].
        destruct (chr_is 93 d); [intros [= <- <-]; reflexivity|].
        apply IHa. reflexivity. }
      destruct (chr_is 110 c); [apply literal_json; reflexivity|].
      destruct (chr_is 116 c); [apply literal_json; reflexivity|].
      destruct (chr_is 102 c); [apply literal_json; reflexivity|].
      destruct (Json.scan_number (c :: s')) as [[v' r']|] eqn:Hn.
      { intros [= <- <-]. exact (scan_number_json _ _ _ Hn). }
      destruct (chr_is 78 c); [apply literal_json; reflexivity|].
      destruct (chr_is 73 c); [apply literal_json; reflexivity|].
      destruct (chr_is 45 c); [apply literal_json; reflexivity|discriminate].
    + intros acc s v r Hacc. cbn [Json.object_items].
      destruct s as [|q s1]; [discriminate|].
      destruct (chr_is 34 q); [|discriminate].
      destruct (Json.scan_string _ _ _) as [[key s2]|]; [|discriminate].
      destruct (Json.skip_ws s2) as [|col s3]; [discriminate|].
      destruct (chr_is 58 col); [|discriminate].
      destruct (Json.scan_once fuel _) as [[v' s4]|] eqn:Hv; [|discriminate].
      apply IHs in Hv.
      pose proof (dict_set_json acc key v' Hacc Hv) as Hacc'.
      destruct (Json.skip_ws s4) as [|d s5]; [discriminate|].
      destruct (chr_is 125 d); [intros [= <- <-]; exact Hacc'|].
      destruct (chr_is 44 d); [|discriminate]. apply IHo, Hacc'.
    + intros acc s v r Hacc. cbn [Json.array_items].
      destruct (Json.scan_once fuel s) as [[v' s1]|] eqn:Hv; [|discriminate].
      apply IHs in Hv.
      destruct (Json.skip_ws s1) as [|d s2]; [discriminate|].
      destruct (chr_is 93 d).
      { intros [= <- <-]. rewrite json_value_list, forallb_app, forallb_rev.
        cbn [forallb]. rewrite Hacc, Hv. reflexivity. }
      destruct (chr_is 44 d); [|discriminate].
      apply IHa. cbn [forallb]. rewrite Hv. exact Hacc.
Qed.

Lemma loads_json (s : str) (v : pyval) :
  Json.loads s = Some v -> json_value v = true.
Proof.
  unfold Json.loads.
  destruct (Json.scan_once _ _) as [[v' r]|] eqn:H; [|discriminate].
  destruct (is_nil _); [|discriminate]. intros [= <-].
  exact (proj1 (scan_json _) _ _ _ H).
Qed.

(** ** Records that can be written *)

Lemma dump_error_cons (k x : pyval) (kvs : list (pyval * pyval)) :
  dump_error (PyDict ((k, x) :: kvs))
  = or_else (key_error k) (or_else (dump_error x) (dump_error (PyDict kvs))).
Proof. reflexivity. Qed.

Lemma dump_error_list_cons (x : pyval) (l : list pyval) :
  dump_error (PyList (x :: l))
  = or_else (dump_error x) (dump_error (PyList l)).
Proof. reflexivity. Qed.

Lemma or_else_none {A} (x y : option A) :
  or_else x y = None <-> x = None /\ y = None.
Proof.
  destruct x, y; simpl; split; try tauto; try discriminate;
    intros [? ?]; discriminate.
Qed.

Lemma dump_error_dict (kvs : list (pyval * pyval)) :
  dump_error (PyDict kvs) = None
  <-> Forall (fun kv => key_error (fst kv) = None
                        /\ dump_error (snd kv) = None) kvs.
Proof.
  induction kvs as [|[k x] kvs IH].
  - split; [constructor|reflexivity].
  - rewrite dump_error_cons, !or_else_none, IH, Forall_cons. cbn [fst snd].
    tauto.
Qed.

Lemma dict_put_writable (acc : list (pyval * pyval)) (k v : pyval) :
  dump_error (PyDict acc) = None ->
  key_error k = None -> dump_error v = None ->
  dump_error (PyDict (Ast.dict_put acc k v)) = None.
Proof.
  rewrite !dump_error_dict. intros Hacc Hk Hv.
  induction Hacc as [|[k' v'] acc [Hk' Hv'] Hacc IH]; cbn [Ast.dict_put].
  - repeat constructor; assumption.
  - destruct (Ast.py_eq k' k); constructor; auto.
Qed.

Lemma merge_dicts (ms ps : list (pyval * pyval)) :
  merge (PyDict ms) (PyDict ps)
  = Ok (PyDict (fold_left (fun acc kv => Ast.dict_put acc kv.1 kv.2)
                          (ms ++ ps) [])).
Proof. reflexivity. Qed.

Lemma merge_writable (ms ps : list (pyval * pyval)) :
  dump_error (PyDict ms) = None -> dump_error (PyDict ps) = None ->
  exists r, merge (PyDict ms) (PyDict ps) = Ok (PyDict r)
            /\ dump_error (PyDict r) = None.
Proof.
  intros Hms Hps. eexists. split; [apply merge_dicts|].
  assert (H : Forall (fun kv => key_error (fst kv) = None
                                /\ dump_error (snd kv) = None) (ms ++ ps))
    by (apply Forall_app; split; apply dump_error_dict; assumption).
  assert (H0 : dump_error (PyDict []) = None) by reflexivity.
  revert H0. generalize (@nil (pyval * pyval)).
  induction H as [|[k v] l [Hk Hv] _ IH]; intros acc Hacc; [exact Hacc|].
  cbn [fold_left]. apply IH, dict_put_writable; assumption.
Qed.

(** Induction on values, through the lists they hold. *)
Lemma pyval_nested_ind (P : pyval -> Prop)
    (HNone : P PyNone)
    (HBool : forall b, P (PyBool b))
    (HInt : forall n, P (PyInt n))
    (HFloat : forall f, P (PyFloat f))
    (HStr : forall s, P (PyStr s))
    (HEllipsis : P PyEllipsis)
    (HList : forall l, Forall P l -> P (PyList l))
    (HTuple : forall l, Forall P l -> P (PyTuple l))
    (HSet : forall l, Forall P l -> P (PySet l))
    (HDict : forall kvs,
        Forall (fun kv => P (fst kv) /\ P (snd kv)) kvs -> P (PyDict kvs)) :
  forall v, P v.
Proof.
  fix IH 1. intros v.
  pose (all := fix all (l : list pyval) : Forall P l :=
          match l with
          | [] => List.Forall_nil P
          | x :: l' => List.Forall_cons P x l' (IH x) (all l')
          end).
  destruct v as [|b|n|f|s| |l|l|l|kvs].
  - apply HNone.
  - apply HBool.
  - apply HInt.
  - apply HFloat.
  - apply HStr.
  - apply HEllipsis.
  - apply HList, all.
  - apply HTuple, all.
  - apply HSet, all.
  - apply HDict.
    exact ((fix pairs (l : list (pyval * pyval))
              : Forall (fun kv => P (fst kv) /\ P (snd kv)) l :=
              match l with
              | [] => List.Forall_nil _
              | (k, x) :: l' =>
                  List.Forall_cons _ (k, x) l' (conj (IH k) (IH x)) (pairs l')
              end) kvs).
Qed.

Lemma encode_error_kind (x : ustr) (e : exn) :
  encode_error x = Some e -> e = UnicodeEncodeError "surrogates not allowed".
Proof.
  unfold encode_error. destruct (existsb _ _); [|discriminate].
  intros [= <-]. reflexivity.
Qed.

Lemma json_value_dump (v : pyval) :
  json_value v = true ->
  forall e, dump_error v = Some e ->
  e = UnicodeEncodeError "surrogates not allowed".
Proof.
  induction v as [|b|n|f|s| |l IH|l IH|l IH|kvs IH] using pyval_nested_ind;
    intros Hj e; try discriminate.
  - apply encode_error_kind.
  - rewrite json_value_list in Hj. revert Hj.
    induction IH as [|x l Hx _ IHl]; [discriminate|].
    cbn [forallb]. intros [Hjx Hjl]%andb_true_iff.
    rewrite dump_error_list_cons. intros [H|H]%or_else_some.
    + exact (Hx Hjx e H).
    + exact (IHl Hjl H).
  - rewrite json_value_dict in Hj. revert Hj.
    induction IH as [|[k x] kvs [_ Hx] _ IHl]; [discriminate|].
    cbn [json_items forallb fst snd]. intros [Hjx Hjl]%andb_true_iff.
    destruct k as [|b|n|f|s| |l|l|l|kvs']; try discriminate.
    rewrite dump_error_cons. intros [H|[H|H]%or_else_some]%or_else_some.
    + exact (encode_error_kind _ _ H).
    + exact (Hx Hjx e H).
    + exact (IHl Hjl H).
Qed.

(** X9: whatever the strict decoder returns is a value that JSON can
    denote -- no tuple, no set, no [...], string keys only -- so the only
    exception [json.dump] can raise on it is the one for a lone surrogate
    in a string. *)
Theorem X9_strict_decoding_gives_json_values (json_str : str) (v : pyval) :
  try_parse_json json_str = Some v ->
  json_value v = true
  /\ forall e, dump_error v = Some e ->
       e = UnicodeEncodeError "surrogates not allowed".
Proof.
  unfold try_parse_json. intros H%loads_json.
  split; [exact H|apply json_value_dump, H].
Qed.

Lemma X9_strict_decoding_gives_json_values_witness :
  try_parse_json (txt "{~a~: [1, 2.5, null, ~\ud800~]}")
  = Some (PyDict [(PyStr (u "a"),
                   PyList [PyInt 1; PyFloat (FFin false 25 (-1)); PyNone;
                           PyStr [55296%N]])])
  /\ json_value (PyDict [(PyStr (u "a"),
                   PyList [PyInt 1; PyFloat (FFin false 25 (-1)); PyNone;
                           PyStr [55296%N]])]) = true.
Proof.
  assert (H : try_parse_json (txt "{~a~: [1, 2.5, null, ~\ud800~]}")
              = Some (PyDict [(PyStr (u "a"),
                   PyList [PyInt 1; PyFloat (FFin false 25 (-1)); PyNone;
                           PyStr [55296%N]])]))
    by (vm_compute; reflexivity).
  split; [exact H|].
  exact (proj1 (X9_strict_decoding_gives_json_values _ _ H)).
Defined.

(** ** Success and failure of [process_file] *)

Lemma merge_shape (metadata parsed_json : pyval) :
  match merge metadata parsed_json with
  | Ok (PyDict _) =>
      (exists ms, metadata = PyDict ms) /\ exists ps, parsed_json = PyDict ps
  | Ok _ => False
  | Raise e =>
      ((forall ms, metadata <> PyDict ms)
       /\ e = TypeError ("'" ++ type_name metadata
                         ++ "' object is not a mapping"))
      \/ ((exists ms, metadata = PyDict ms)
          /\ (forall ps, parsed_json <> PyDict ps)
          /\ e = TypeError ("'" ++ type_name parsed_json
                            ++ "' object is not a mapping"))
  end.
Proof.
  destruct metadata as [|b|n|f|s| |l|l|l|ms];
    try (left; split; [discriminate|reflexivity]).
  destruct parsed_json as [|b|n|f|s| |l|l|l|ps];
    try (right; split; [eauto|split; [discriminate|reflexivity]]).
  rewrite merge_dicts. eauto.
Qed.

Lemma parse_truthy (text : str) (v : pyval) :
  parse text = Ok (Some v) -> truthy v = true.
Proof. intros H. apply (proj1 (parse_returns_success text) v H). Qed.

Lemma py_eq_str_r (x : pyval) (k : ustr) :
  Ast.py_eq x (PyStr k) = true <-> x = PyStr k.
Proof.
  destruct x as [|b|n|f|s| |l|l|l|kvs]; simpl;
    try (split; [discriminate|intros [=]]).
  - destruct (Float.strip_zeros _ _ _). split; [discriminate|intros [=]].
  - rewrite bool_decide_eq_true.
    split; [intros ->; reflexivity|intros [=]; auto].
Qed.

Lemma py_eq_str_l (y : pyval) (k : ustr) :
  Ast.py_eq (PyStr k) y = true <-> y = PyStr k.
Proof.
  destruct y as [|b|n|f|s| |l|l|l|kvs]; simpl;
    try (split; [discriminate|intros [=]]).
  - destruct (Float.strip_zeros _ _ _). split; [discriminate|intros [=]].
  - rewrite bool_decide_eq_true.
    split; [intros ->; reflexivity|intros [=]; auto].
Qed.

Lemma dict_get_put (acc : list (pyval * pyval)) (k' v : pyval) (k : ustr) :
  dict_get (Ast.dict_put acc k' v) (PyStr k)
  = if Ast.py_eq k' (PyStr k) then Some v else dict_get acc (PyStr k).
Proof.
  induction acc as [|[k2 v2] acc IH]; [reflexivity|].
  cbn [Ast.dict_put]. destruct (Ast.py_eq k2 k') eqn:H2; cbn [dict_get].
  - destruct (Ast.py_eq k2 (PyStr k)) eqn:Hk.
    + apply py_eq_str_r in Hk as ->. apply py_eq_str_l in H2 as ->.
      rewrite (proj2 (py_eq_str_r _ _) eq_refl). reflexivity.
    + destruct (Ast.py_eq k' (PyStr k)) eqn:Hk'; [|reflexivity].
      apply py_eq_str_r in Hk' as ->. apply py_eq_str_r in H2 as ->.
      rewrite (proj2 (py_eq_str_r _ _) eq_refl) in Hk. discriminate.
  - destruct (Ast.py_eq k2 (PyStr k)) eqn:Hk; [|exact IH].
    apply py_eq_str_r in Hk as ->.
    destruct (Ast.py_eq k' (PyStr k)) eqn:Hk'; [|reflexivity].
    apply py_eq_str_r in Hk' as ->.
    rewrite (proj2 (py_eq_str_r _ _) eq_refl) in H2. discriminate.
Qed.

Lemma dict_get_fold (l acc : list (pyval * pyval)) (k : ustr) :
  NoDup (map fst l) ->
  dict_get (fold_left (fun acc kv => Ast.dict_put acc kv.1 kv.2) l acc)
           (PyStr k)
  = match dict_get l (PyStr k) with
    | Some v => Some v
    | None => dict_get acc (PyStr k)
    end.
Proof.
  revert acc. induction l as [|[k1 v1] l IH]; intros acc Hnd; [reflexivity|].
  apply NoDup_cons in Hnd as [Hk1 Hnd]. cbn [fold_left map fst] in *.
  rewrite (IH _ Hnd), dict_get_put. cbn [dict_get fst snd].
  destruct (Ast.py_eq k1 (PyStr k)) eqn:Hk; [|reflexivity].
  apply py_eq_str_r in Hk as ->.
  destruct (dict_get l (PyStr k)) as [v|] eqn:Hg; [|reflexivity].
  exfalso. apply Hk1. clear -Hg.
  induction l as [|[k2 v2] l IH]; [discriminate|]. cbn [dict_get] in Hg.
  destruct (Ast.py_eq k2 (PyStr k)) eqn:Hk.
  - apply py_eq_str_r in Hk as ->. left.
  - right. apply IH, Hg.
Qed.

(** X10: in the record of a success the parsed fields override the
    metadata.  When [parse_response] returns a dict and the metadata file
    holds a JSON object, [process_file] succeeds, and for every string key
    the record has the value of the parsed dict where that has the key,
    and the value of the metadata otherwise. *)
Theorem X10_parsed_values_override_metadata (text : str)
    (ms ps : list (pyval * pyval)) :
  parse text = Ok (Some (PyDict ps)) ->
  NoDup (map fst ms) -> NoDup (map fst ps) ->
  exists record,
    process_file (ReadOk text) (MetaLoaded (PyDict ms))
    = (true, "Success" : str, Some (PyDict record))
    /\ forall k : ustr,
         dict_get record (PyStr k)
         = match dict_get ps (PyStr k) with
           | Some v => Some v
           | None => dict_get ms (PyStr k)
           end.
Proof.
  intros Hp Hms Hps. eexists. split.
  - unfold process_file. rewrite Hp.
    cbn [is_true from_option id]. rewrite (parse_truthy _ _ Hp).
    rewrite merge_dicts. reflexivity.
  - intros k. rewrite fold_left_app, (dict_get_fold _ _ _ Hps).
    rewrite (dict_get_fold _ _ _ Hms). destruct (dict_get ps _); [reflexivity|].
    destruct (dict_get ms _); reflexivity.
Qed.

Lemma X10_parsed_values_override_metadata_witness :
  let text : str := txt "{~ad_type~: ~A~, ~ad_attitude_scores~: [5, 6]}" in
  let ms := [ (PyStr (u "sample_id"), PyInt 7);
              (PyStr (u "ad_type"), PyStr (u "?")) ] in
  let ps := [ (PyStr (u "ad_type"), PyStr (u "A"));
              (PyStr (u "ad_attitude_scores"), PyList [PyInt 5; PyInt 6]) ] in
  parse text = Ok (Some (PyDict ps))
  /\ exists record,
       process_file (ReadOk text) (MetaLoaded (PyDict ms))
       = (true, "Success" : str, Some (PyDict record))
       /\ forall k : ustr,
            dict_get record (PyStr k)
            = match dict_get ps (PyStr k) with
              | Some v => Some v
              | None => dict_get ms (PyStr k)
              end.
Proof.
  cbv zeta.
  assert (Hp : parse (txt "{~ad_type~: ~A~, ~ad_attitude_scores~: [5, 6]}")
               = Ok (Some (PyDict
                   [ (PyStr (u "ad_type"), PyStr (u "A"));
                     (PyStr (u "ad_attitude_scores"),
                      PyList [PyInt 5; PyInt 6]) ]))).
  { vm_compute. reflexivity. }
  split; [exact Hp|].
  apply (X10_parsed_values_override_metadata _ _ _ Hp).
  - vm_compute. apply NoDup_cons. split.
    + intros [H|H]%elem_of_cons; [discriminate H|inversion H].
    + apply NoDup_singleton.
  - vm_compute. apply NoDup_cons. split.
    + intros [H|H]%elem_of_cons; [discriminate H|inversion H].
    + apply NoDup_singleton.
Defined.

(** X11: [process_file] reports a success exactly when the metadata file
    is absent or holds a JSON object and [parse_response] returns a dict;
    a success carries the message [Success] and a dict, a failure carries
    no record. *)
Theorem X11_process_file_success (text : str) (m : meta) :
  let '(success, msg, result) := process_file (ReadOk text) m in
  (success = true <->
     (m = MetaAbsent \/ exists ms, m = MetaLoaded (PyDict ms))
     /\ exists ps, parse text = Ok (Some (PyDict ps)))
  /\ (success = true ->
      msg = list_ascii_of_string "Success"
      /\ exists record, result = Some (PyDict record))
  /\ (success = false -> result = None).
Proof.
  unfold process_file.
  destruct m as [|md|e].
  3: { split; [split; [discriminate|intros [[[=]|[ms [=]]] _]]|].
       split; [discriminate|reflexivity]. }
  all: destruct (parse text) as [[v|]|e] eqn:Hp; cbn [is_true from_option id].
  all: try (split; [split; [discriminate|intros [_ [ps [=]]]]|];
            split; [discriminate|reflexivity]).
  all: rewrite (parse_truthy _ _ Hp).
  - pose proof (merge_shape (PyDict []) v) as Hm.
    destruct (merge (PyDict []) v) as [[|b|n|f|s| |l|l|l|r]|e];
      try contradiction.
    + destruct Hm as [_ [ps ->]].
      split; [split; [intros _; split; [left; reflexivity|eauto]|reflexivity]|].
      split; [eauto|discriminate].
    + split; [split; [discriminate|]|split; [discriminate|reflexivity]].
      intros [_ [ps [= ->]]]. exfalso.
      destruct Hm as [[Hm _]|(_ & Hm & _)]; [eapply Hm|eapply Hm]; reflexivity.
  - pose proof (merge_shape md v) as Hm.
    destruct (merge md v) as [[|b|n|f|s| |l|l|l|r]|e]; try contradiction.
    + destruct Hm as [[ms ->] [ps ->]].
      split; [split; [intros _; split; [right; eauto|eauto]|reflexivity]|].
      split; [eauto|discriminate].
    + split; [split; [discriminate|]|split; [discriminate|reflexivity]].
      intros [[[=]|[ms [= ->]]] [ps [= ->]]]. exfalso.
      destruct Hm as [[Hm _]|(_ & Hm & _)]; [eapply Hm|eapply Hm]; reflexivity.
Qed.



(** ** The statistics of a run *)

Lemma forallb_not_colon (s : str) :
  forallb (fun c => negb (Ascii.eqb c ":")) s = true <-> ":"%char ∉ s.
Proof.
  induction s as [|x s IH]; simpl.
  - split; [intros _; apply not_elem_of_nil|reflexivity].
  - rewrite andb_true_iff, IH, not_elem_of_cons, negb_true_iff, Ascii.eqb_neq.
    split; intros [H1 H2]; split; auto.
Qed.

Lemma span_not_colon (a b : str) :
  (":"%char ∉ a) ->
  span (fun c => negb (Ascii.eqb c ":")) (a ++ ":"%char :: b)
  = (a, ":"%char :: b).
Proof.
  induction a as [|x a IH]; intros Ha; [reflexivity|]. simpl.
  apply not_elem_of_cons in Ha as [Hx Ha].
  destruct (Ascii.eqb_spec x ":"); [congruence|]. simpl.
  rewrite (IH Ha). reflexivity.
Qed.

Lemma span_all (p : ascii -> bool) (s : str) :
  forallb p s = true -> span p s = (s, []).
Proof.
  induction s as [|x s IH]; [reflexivity|]. simpl.
  intros [-> Hs]%andb_true_iff. rewrite (IH Hs). reflexivity.
Qed.

Lemma error_type_no_colon (error_msg : str) : ":"%char ∉ error_type error_msg.
Proof.
  unfold error_type. apply forallb_not_colon.
  apply (span_spec (fun c => negb (Ascii.eqb c ":")) error_msg).
Qed.

(** X13: the error type of a failure is the message up to its first
    colon: it holds no colon, it is the beginning of the message, and it
    is the whole message when that holds no colon. *)
Theorem X13_error_type_is_head (error_msg : str) :
  (":"%char ∉ error_type error_msg)
  /\ error_type error_msg `prefix_of` error_msg
  /\ (":"%char ∉ error_msg -> error_type error_msg = error_msg)
  /\ (forall a b, error_msg = a ++ ":"%char :: b -> ":"%char ∉ a ->
        error_type error_msg = a).
Proof.
  split; [apply error_type_no_colon|]. unfold error_type.
  destruct (span_spec (fun c => negb (Ascii.eqb c ":")) error_msg)
    as (Heq & Hall & _).
  split; [eexists; exact Heq|].
  split.
  - intros H%forallb_not_colon. rewrite (span_all _ _ H). reflexivity.
  - intros a b -> Ha. rewrite (span_not_colon _ _ Ha). reflexivity.
Qed.

Lemma process_experiment_directory_app (d1 d2 : list response_entry)
    (st : stats) :
  process_experiment_directory st (d1 ++ d2) =
  match process_experiment_directory st d1 with
  | (st', None) => process_experiment_directory st' d2
  | (st', Some e) => (st', Some e)
  end.
Proof.
  revert st. induction d1 as [|f d1 IH]; intros st; [reflexivity|]. simpl.
  destruct (process_entry st f) as [st1 [e|]]; [reflexivity|apply IH].
Qed.

Lemma process_all_experiments_concat
    (experiments : list (list response_entry)) (st : stats) :
  process_all_experiments st experiments
  = process_experiment_directory st (concat experiments).
Proof.
  revert st. induction experiments as [|d ds IH]; intros st; [reflexivity|].
  simpl. rewrite process_experiment_directory_app.
  destruct (process_experiment_directory st d) as [st1 [e|]];
    [reflexivity|apply IH].
Qed.

(** X14: the statistics do not depend on how the response files are
    grouped into directories: processing the directories one after the
    other is processing all their files as one sequence, and processing a
    sequence is processing its first part and, if that comes to its end,
    the rest from the statistics reached. *)
Theorem X14_directories_are_one_sequence
    (experiments : list (list response_entry)) (d1 d2 : list response_entry)
    (st : stats) :
  process_all_experiments st experiments
  = process_experiment_directory st (concat experiments)
  /\ process_experiment_directory st (d1 ++ d2)
     = match process_experiment_directory st d1 with
       | (st', None) => process_experiment_directory st' d2
       | (st', Some e) => (st', Some e)
       end.
Proof.
  split;
    [apply process_all_experiments_concat
    |apply process_experiment_directory_app].
Qed.

Lemma process_entry_completes (st : stats) (f : response_entry) :
  snd (process_entry st f) = None <-> writable f.
Proof.
  unfold process_entry, writable.
  destruct (process_file _ _) as [[[|] msg] [r|]] eqn:Hp; simpl.
  - destruct (dump_error r); simpl.
    + split; [discriminate|intros [_ [=]]].
    + split; [intros _|reflexivity]. split; [|reflexivity].
      destruct (response_file f) as [text|m]; [eauto|].
      simpl in Hp. discriminate.
  - split; [intros _|reflexivity]. split; [|exact I].
    destruct (response_file f) as [text|m]; [eauto|]. simpl in Hp.
    discriminate.
  - destruct (response_file f) as [text|m]; simpl.
    + split; [eauto|reflexivity].
    + split; [discriminate|intros [[text [=]] _]].
  - destruct (response_file f) as [text|m]; simpl.
    + split; [eauto|reflexivity].
    + split; [discriminate|intros [[text [=]] _]].
Qed.

Lemma process_experiment_directory_completes_iff
    (files : list response_entry) (st : stats) :
  snd (process_experiment_directory st files) = None <-> Forall writable files.
Proof.
  revert st. induction files as [|f files IH]; intros st; simpl.
  - split; [constructor|reflexivity].
  - rewrite Forall_cons, <- (process_entry_completes st f).
    destruct (process_entry st f) as [st1 [e|]]; simpl.
    + split; [discriminate|intros [[=] _]].
    + rewrite IH. tauto.
Qed.

(** X15: a batch run comes to its end exactly when every response file
    can be read and every record of a success can be written by
    [json.dump]; otherwise an exception leaves the loop at the first file
    for which this fails. *)
Theorem X15_run_completes_iff
    (experiments : list (list response_entry)) (st : stats) :
  snd (process_all_experiments st experiments) = None
  <-> Forall writable (concat experiments).
Proof.
  rewrite process_all_experiments_concat.
  apply process_experiment_directory_completes_iff.
Qed.

(** X16: merging never makes a record that cannot be written: a response
    file that can be read is processed without an exception whenever the
    metadata, if there is any, can be written by [json.dump] and what
    [parse_response] returns can. *)
Theorem X16_merging_never_blocks_writing (text : str) (m : meta) :
  metadata_writable m ->
  (forall v, parse text = Ok (Some v) -> dump_error v = None) ->
  writable (Entry (ReadOk text) m).
Proof.
  intros Hm Hv. unfold writable. cbn [response_file metadata_file].
  split; [eauto|]. unfold process_file.
  destruct m as [|md|msg]; [| |exact I].
  - destruct (parse text) as [[v|]|e] eqn:Hp; [|exact I|exact I].
    cbn [is_true from_option id]. rewrite (parse_truthy _ _ Hp).
    pose proof (merge_shape (PyDict []) v) as Hs.
    destruct (merge (PyDict []) v) as [r|e] eqn:Hmerge; [|exact I].
    destruct r as [|b|n|f|s| |l|l|l|r]; try contradiction.
    destruct Hs as [_ [ps ->]].
    destruct (merge_writable [] ps eq_refl (Hv _ eq_refl)) as (r' & Hr & Hd).
    rewrite Hr in Hmerge. injection Hmerge as <-. exact Hd.
  - destruct (parse text) as [[v|]|e] eqn:Hp; [|exact I|exact I].
    cbn [is_true from_option id]. rewrite (parse_truthy _ _ Hp).
    pose proof (merge_shape md v) as Hs.
    destruct (merge md v) as [r|e] eqn:Hmerge; [|exact I].
    destruct r as [|b|n|f|s| |l|l|l|r]; try contradiction.
    destruct Hs as [[ms ->] [ps ->]].
    destruct (merge_writable ms ps Hm (Hv _ eq_refl)) as (r' & Hr & Hd).
    rewrite Hr in Hmerge. injection Hmerge as <-. exact Hd.
Qed.

Lemma X16_merging_never_blocks_writing_witness :
  writable (Entry (ReadOk "I like this ad 5 6 7 4")
                  (MetaLoaded (PyDict [(PyStr (u "sample_id"), PyInt 7)]))).
Proof.
  apply X16_merging_never_blocks_writing.
  - reflexivity.
  - intros v. assert (Hp : parse "I like this ad 5 6 7 4"
      = Ok (Some (unknown_record (Scores [5; 6; 7; 4]%Z []))))
      by (vm_compute; reflexivity).
    rewrite Hp. intros [= <-]. reflexivity.
Defined.

Lemma type_total_insert (m : gmap str nat) (ty : str) (n : nat) :
  m !! ty = None -> type_total (<[ty := n]> m) = n + type_total m.
Proof.
  intros H. unfold type_total.
  rewrite map_fold_insert_L; [reflexivity| |exact H]. intros. lia.
Qed.

Lemma type_total_bump (m : gmap str nat) (ty : str) :
  type_total (<[ty := S (default 0 (m !! ty))]> m) = S (type_total m).
Proof.
  destruct (m !! ty) as [n|] eqn:H; simpl.
  - rewrite <- (insert_delete_id m ty n H) at 2.
    rewrite <- insert_delete_eq.
    rewrite !type_total_insert by apply lookup_delete_eq. reflexivity.
  - rewrite type_total_insert by exact H. reflexivity.
Qed.

Lemma count_error_consistent (st : stats) (error_msg : str) :
  consistent st -> consistent (count_error st error_msg).
Proof.
  intros [Ht Hk]. unfold consistent, error_total, count_error in *.
  cbn [error_types failed]. split.
  - rewrite type_total_bump. rewrite Ht. reflexivity.
  - intros ty n. destruct (decide (ty = error_type error_msg)) as [->|Hne].
    + rewrite lookup_insert_eq. intros [= <-].
      split; [apply error_type_no_colon|lia].
    + rewrite lookup_insert_ne by congruence. apply Hk.
Qed.

Lemma process_entry_consistent (st : stats) (f : response_entry) :
  consistent st -> consistent (fst (process_entry st f)).
Proof.
  intros H. unfold process_entry.
  destruct (process_file _ _) as [[[|] msg] r].
  - destruct (dump_error _); exact H.
  - destruct (response_file f); apply count_error_consistent; exact H.
Qed.

Lemma process_experiment_directory_consistent
    (files : list response_entry) (st : stats) :
  consistent st -> consistent (fst (process_experiment_directory st files)).
Proof.
  revert st. induction files as [|f files IH]; intros st H; [exact H|]. simpl.
  pose proof (process_entry_consistent st f H) as H1.
  destruct (process_entry st f) as [st1 [e|]]; [exact H1|apply IH, H1].
Qed.

(** X17: after any batch run from fresh statistics, whether it came to
    its end or an exception left it, the failures recorded by error type
    add up to the failed counter, no recorded error type holds a colon,
    and no error type is recorded with a count of zero. *)
Theorem X17_error_types_add_up (experiments : list (list response_entry)) :
  let st := fst (process_all_experiments fresh_stats experiments) in
  error_total st = failed st
  /\ forall ty n, error_types st !! ty = Some n -> (":"%char ∉ ty) /\ 0 < n.
Proof.
  cbv zeta. rewrite process_all_experiments_concat.
  apply process_experiment_directory_consistent. split; [reflexivity|].
  intros ty n. cbn [error_types fresh_stats]. rewrite lookup_empty.
  discriminate.
Qed.

Lemma process_entry_steps (st st' : stats) (f : response_entry)
    (x : option exn) :
  process_entry st f = (st', x) ->
  total_processed st' = S (total_processed st)
  /\ successful st <= successful st' /\ failed st <= failed st'
  /\ successful st' + failed st' <= S (successful st + failed st)
  /\ (x = None -> successful st' + failed st' = S (successful st + failed st)).
Proof.
  unfold process_entry.
  destruct (process_file _ _) as [[[|] msg] r].
  - destruct (dump_error _); intros [= <- <-]; simpl; repeat split; try lia.
    discriminate.
  - destruct (response_file f); intros [= <- <-]; simpl; repeat split; lia.
Qed.

Lemma process_experiment_directory_steps (files : list response_entry)
    (st st' : stats) (x : option exn) :
  process_experiment_directory st files = (st', x) ->
  total_processed st <= total_processed st'
  /\ total_processed st' <= total_processed st + length files
  /\ successful st + failed st + (total_processed st' - total_processed st)
     <= successful st' + failed st'
        + (match x with Some _ => 1 | None => 0 end)
  /\ successful st' + failed st'
     <= successful st + failed st + (total_processed st' - total_processed st)
  /\ (x <> None -> total_processed st < total_processed st').
Proof.
  revert st. induction files as [|f files IH]; intros st; simpl.
  - intros [= <- <-]. repeat split; try lia. congruence.
  - destruct (process_entry st f) as [st1 [e|]] eqn:Hf.
    + intros [= <- <-]. apply process_entry_steps in Hf. lia.
    + intros H. apply IH in H. apply process_entry_steps in Hf.
      destruct Hf as (? & ? & ? & ? & Hn). specialize (Hn eq_refl).
      destruct x; lia.
Qed.

(** X18: when an exception leaves a batch run that started from fresh
    statistics, the counters are off by at most one: the file at which the
    run stopped is counted as processed, and the successes and failures
    together are the total or one less; the total is at most the number of
    files. *)
Theorem X18_counters_of_an_aborted_run
    (experiments : list (list response_entry)) (st : stats) (e : exn) :
  process_all_experiments fresh_stats experiments = (st, Some e) ->
  0 < total_processed st
  /\ total_processed st <= entry_count experiments
  /\ successful st + failed st <= total_processed st
  /\ total_processed st <= S (successful st + failed st).
Proof.
  rewrite process_all_experiments_concat. unfold entry_count.
  intros H%process_experiment_directory_steps. cbn in H.
  destruct H as (_ & H1 & H2 & H3 & H4).
  assert (0 < total_processed st) by (apply H4; discriminate). lia.
Qed.

Lemma X18_counters_of_an_aborted_run_witness :
  let experiments :=
    [ [ Entry (ReadOk (txt "{~a~: 1}")) MetaAbsent;
        Entry (ReadOk "{'a': {1, 2}}") MetaAbsent;
        Entry (ReadOk "5 like") MetaAbsent ] ] in
  let st := Stats 2 1 0 ∅ in
  let e := TypeError "Object of type set is not JSON serializable" in
  process_all_experiments fresh_stats experiments = (st, Some e)
  /\ 0 < total_processed st
  /\ total_processed st <= entry_count experiments
  /\ successful st + failed st <= total_processed st
  /\ total_processed st <= S (successful st + failed st).
Proof.
  cbv zeta.
  assert (H : process_all_experiments fresh_stats
    [ [ Entry (ReadOk (txt "{~a~: 1}")) MetaAbsent;
        Entry (ReadOk "{'a': {1, 2}}") MetaAbsent;
        Entry (ReadOk "5 like") MetaAbsent ] ]
    = (Stats 2 1 0 ∅,
       Some (TypeError "Object of type set is not JSON serializable")))
    by (vm_compute; reflexivity).
  split; [exact H|]. exact (X18_counters_of_an_aborted_run _ _ _ H).
Defined.

(** *** The counters of every run *)

(** [json.dump] raises a [TypeError] or a [UnicodeEncodeError]. *)
Lemma dump_error_kind (v : pyval) (e : exn) :
  dump_error v = Some e -> read_error e = false.
Proof.
  revert e.
  induction v as [|b|n|f|s| |l IH|l IH|l IH|kvs IH] using pyval_nested_ind;
    intros e; try discriminate.
  - intros ->%encode_error_kind. reflexivity.
  - intros [= <-]. reflexivity.
  - induction IH as [|x l Hx _ IHl]; [discriminate|].
    rewrite dump_error_list_cons. intros [H|H]%or_else_some; auto.
  - change (dump_error (PyTuple l)) with (dump_error (PyList l)).
    induction IH as [|x l Hx _ IHl]; [discriminate|].
    rewrite dump_error_list_cons. intros [H|H]%or_else_some; auto.
  - intros [= <-]. reflexivity.
  - induction IH as [|[k x] kvs [_ Hx] _ IHl]; [discriminate|].
    rewrite dump_error_cons. intros [H|[H|H]%or_else_some]%or_else_some; auto.
    destruct k; try discriminate H; try (injection H as <-; reflexivity).
    apply encode_error_kind in H as ->. reflexivity.
Qed.

(** One round of the loop, from counters that add up. *)
Lemma process_entry_stands (st st' : stats) (f : response_entry)
    (x : option exn) :
  process_entry st f = (st', x) ->
  successful st + failed st = total_processed st ->
  total_processed st' = S (total_processed st) /\ counters_stand st' x.
Proof.
  unfold process_entry, counters_stand.
  destruct (process_file _ _) as [[[|] msg] r].
  - destruct (dump_error _) as [e|] eqn:He; intros [= <- <-] Hst.
    + rewrite (dump_error_kind _ _ He). simpl. lia.
    + simpl. lia.
  - destruct (response_file f); intros [= <- <-] Hst; simpl; lia.
Qed.

Lemma process_experiment_directory_stands (files : list response_entry)
    (st st' : stats) (x : option exn) :
  process_experiment_directory st files = (st', x) ->
  successful st + failed st = total_processed st ->
  total_processed st' <= total_processed st + length files
  /\ (x = None -> total_processed st' = total_processed st + length files)
  /\ counters_stand st' x.
Proof.
  revert st. induction files as [|f files IH]; intros st; simpl.
  - intros [= <- <-] Hst. cbn. split; [lia|]. split; [lia|exact Hst].
  - destruct (process_entry st f) as [st1 [e|]] eqn:Hf.
    + intros [= <- <-] Hst.
      destruct (process_entry_stands _ _ _ _ Hf Hst) as [Ht Hc].
      split; [lia|]. split; [discriminate|exact Hc].
    + intros H Hst.
      destruct (process_entry_stands _ _ _ _ Hf Hst) as [Ht Hc].
      destruct (IH _ H Hc) as (H1 & H2 & H3).
      split; [lia|]. split; [|exact H3]. intros Hx. specialize (H2 Hx). lia.
Qed.

Lemma process_all_experiments_stands
    (experiments : list (list response_entry)) (st st' : stats)
    (x : option exn) :
  process_all_experiments st experiments = (st', x) ->
  successful st + failed st = total_processed st ->
  total_processed st' <= total_processed st + entry_count experiments
  /\ (x = None ->
      total_processed st' = total_processed st + entry_count experiments)
  /\ counters_stand st' x.
Proof.
  unfold entry_count.
  revert st. induction experiments as [|d ds IH]; intros st; simpl.
  - intros [= <- <-] Hst. cbn. split; [lia|]. split; [lia|exact Hst].
  - rewrite length_app.
    destruct (process_experiment_directory st d) as [st1 [e|]] eqn:Hd.
    + intros [= <- <-] Hst.
      destruct (process_experiment_directory_stands _ _ _ _ Hd Hst)
        as (H1 & _ & H3).
      split; [lia|]. split; [discriminate|exact H3].
    + intros H Hst.
      destruct (process_experiment_directory_stands _ _ _ _ Hd Hst)
        as (H1 & H2 & H3).
      specialize (H2 eq_refl).
      destruct (IH _ H H3) as (H4 & H5 & H6).
      split; [lia|]. split; [|exact H6]. intros Hx. specialize (H5 Hx). lia.
Qed.

(** C10 (as amended): after a batch run that starts from fresh
    statistics and comes to its end, the succeeded and the failed inputs
    add up to the total, and the total is the number of inputs.  A run
    that an exception ends has counted no more than the inputs it
    reached: when reading the response file once more for the error
    report ended it, the counters add up; when [json.dump] ended it, the
    last input is counted as processed and as neither a success nor a
    failure. *)
Theorem C10_counters_add_up (experiments : list (list response_entry)) :
  let '(st, x) := process_all_experiments fresh_stats experiments in
  match x with
  | None =>
      successful st + failed st = total_processed st
      /\ total_processed st = entry_count experiments
  | Some (ReadError _) =>
      successful st + failed st = total_processed st
      /\ total_processed st <= entry_count experiments
  | Some _ =>
      S (successful st + failed st) = total_processed st
      /\ total_processed st <= entry_count experiments
  end.
Proof.
  destruct (process_all_experiments fresh_stats experiments) as [st x] eqn:H.
  destruct (process_all_experiments_stands _ _ _ _ H eq_refl)
    as (H1 & H2 & H3).
  cbn in H1, H2. destruct x as [[msg|msg|msg]|]; cbn in H3.
  - split; [exact H3|exact H1].
  - split; [exact H3|exact H1].
  - split; [exact H3|exact H1].
  - split; [exact H3|exact (H2 eq_refl)].
Qed.

(** C10 fails as stated: a record with a tuple as key is recovered by the
    lenient decoder and refused by [json.dump], whose [TypeError] no
    [try] catches.  The run ends with two inputs processed, one success
    and no failure. *)
Lemma C10_counterexample :
  let experiments :=
    [ [ Entry (ReadOk (txt "{~a~: 1}")) MetaAbsent;
        Entry (ReadOk "{(1, 2): 3}") MetaAbsent;
        Entry (ReadOk "5 like") MetaAbsent ] ] in
  let st := Stats 2 1 0 ∅ in
  process_all_experiments fresh_stats experiments
  = (st, Some (TypeError
                 "keys must be str, int, float, bool or None, not tuple"))
  /\ successful st + failed st <> total_processed st.
Proof. cbv zeta. split; [vm_compute; reflexivity|cbn; lia]. Qed.

(** ** The names of the files, from the listing *)

Lemma ends_with_app (suffix s : str) : ends_with suffix (s ++ suffix) = true.
Proof. unfold ends_with. rewrite rev_app_distr. apply starts_with_app. Qed.

Lemma replace_from_skip (old new w s : str) :
  replace_from (length w) old new (w ++ s) = replace_from 0 old new s.
Proof. induction w as [|c w IH]; [reflexivity|exact IH]. Qed.

Lemma contains_cons (p : str) (c : ascii) (s : str) :
  contains p (c :: s) = false ->
  starts_with p (c :: s) = false /\ contains p s = false.
Proof. cbn [contains]. intros H%orb_false_iff. exact H. Qed.

(** In a name whose stem holds no [.txt], only the ending is an
    occurrence of [.txt]. *)
Lemma txt_only_at_end (stem : str) :
  contains ".txt" stem = false ->
  forall c t, (exists pre, stem = pre ++ c :: t) ->
  starts_with ".txt" (c :: t ++ ".txt") = false.
Proof.
  intros Hno c t [pre ->].
  assert (Hs : starts_with ".txt" (c :: t) = false).
  { clear -Hno. induction pre as [|x pre IH]; simpl in *.
    - apply orb_false_iff in Hno. tauto.
    - apply orb_false_iff in Hno as [_ Hno]. exact (IH Hno). }
  destruct t as [|a [|b [|d t]]]; simpl in *;
    rewrite ?andb_false_iff, ?Ascii.eqb_neq in *;
    try (destruct (Ascii.eqb_spec "." c); [|tauto]);
    try (destruct (Ascii.eqb_spec "t" a); [|tauto]);
    try (destruct (Ascii.eqb_spec "x" b); [|tauto]);
    try (destruct (Ascii.eqb_spec "t" d); [|tauto]);
    subst; simpl in *; try tauto; try (right; discriminate);
    try (right; right; discriminate); intuition discriminate.
Qed.

Lemma replace_txt_ending (new stem : str) :
  contains ".txt" stem = false ->
  replace ".txt" new (stem ++ ".txt") = stem ++ new.
Proof.
  intros Hno. unfold replace.
  assert (H : forall pre t, stem = pre ++ t ->
            replace_from 0 ".txt" new (t ++ ".txt") = t ++ new).
  { intros pre t. revert pre. induction t as [|c t IH]; intros pre Hstem.
    - cbn. rewrite app_nil_r. reflexivity.
    - cbn [app replace_from].
      rewrite (txt_only_at_end stem Hno c t) by eauto.
      f_equal. apply (IH (pre ++ [c])). rewrite <- app_assoc. exact Hstem. }
  apply (H []). reflexivity.
Qed.

Lemma replace_absent (old new s : str) :
  contains old s = false -> replace old new s = s.
Proof.
  unfold replace. induction s as [|c s IH]; [reflexivity|].
  intros [Hs Hc]%contains_cons. cbn [replace_from]. rewrite Hs, (IH Hc).
  reflexivity.
Qed.

Lemma replace_at_start (old new s : str) :
  old <> [] -> replace old new (old ++ s) = new ++ replace old new s.
Proof.
  destruct old as [|c old]; [congruence|]. intros _. unfold replace.
  pose proof (starts_with_app (c :: old) s) as H. cbn [app] in H.
  cbn [app replace_from]. rewrite H. cbn [length pred].
  rewrite replace_from_skip. reflexivity.
Qed.

(** X19: the response files of a directory are the names of its listing
    that end in [.txt]: the second test of the filter, that the name does
    not end in [_metadata.json], never rejects a name. *)
Theorem X19_response_files_end_in_txt (f : str) (listing : list str) :
  is_response_file f = ends_with ".txt" f
  /\ (f ∈ response_files listing
      <-> f ∈ listing /\ ends_with ".txt" f = true).
Proof.
  assert (H : forall g, is_response_file g = ends_with ".txt" g).
  { intros g. unfold is_response_file, ends_with.
    destruct (rev g) as [|c r]; [reflexivity|].
    change (starts_with (rev (".txt" : str)) (c :: r))
      with (Ascii.eqb "t" c && starts_with "xt." r).
    change (starts_with (rev ("_metadata.json" : str)) (c :: r))
      with (Ascii.eqb "n" c && starts_with "osj.atadatem_" r).
    destruct (Ascii.eqb_spec "t" c) as [<-|]; [|reflexivity].
    cbn [andb negb]. apply andb_true_r. }
  split; [apply H|].
  unfold response_files. rewrite list_elem_of_In, filter_In, H.
  rewrite <- list_elem_of_In. reflexivity.
Qed.

(** X20: for a response file whose name holds [.txt] only as its
    ending, the metadata file, the output file and the error report are
    named by the stem, the metadata file is not itself taken for a
    response file, and response files with different names are written to
    different output files. *)
Theorem X20_names_of_a_plain_response_file (stem : str) :
  contains ".txt" stem = false ->
  is_response_file (stem ++ ".txt") = true
  /\ metadata_filename (stem ++ ".txt") = stem ++ "_metadata.json"
  /\ json_filename (stem ++ ".txt") = stem ++ ".json"
  /\ error_filename (stem ++ ".txt") = stem ++ "_parse_error.txt"
  /\ is_response_file (metadata_filename (stem ++ ".txt")) = false
  /\ forall stem', contains ".txt" stem' = false ->
       json_filename (stem ++ ".txt") = json_filename (stem' ++ ".txt") ->
       stem = stem'.
Proof.
  intros Hno.
  unfold metadata_filename, json_filename, error_filename.
  rewrite !(replace_txt_ending _ _ Hno).
  unfold is_response_file, ends_with. rewrite !rev_app_distr.
  repeat split; try reflexivity.
  intros stem' Hno'. rewrite (replace_txt_ending _ _ Hno').
  apply app_inv_tail.
Qed.

Lemma X20_names_of_a_plain_response_file_witness :
  is_response_file "sample_001.txt" = true
  /\ metadata_filename "sample_001.txt" = "sample_001_metadata.json"
  /\ json_filename "sample_001.txt" = "sample_001.json"
  /\ error_filename "sample_001.txt" = "sample_001_parse_error.txt"
  /\ is_response_file (metadata_filename "sample_001.txt") = false
  /\ forall stem', contains ".txt" stem' = false ->
       json_filename "sample_001.txt" = json_filename (stem' ++ ".txt") ->
       ("sample_001" : str) = stem'.
Proof.
  apply (X20_names_of_a_plain_response_file "sample_001"). reflexivity.
Defined.

(** X21: the output directory of an experiment directory: a name that
    starts with [experiment_responses_] and holds it nowhere else gets
    [experiment_outputs_] in its place, and a name that does not hold
    [experiment_responses_] is kept as it is. *)
Theorem X21_output_directory_name (experiment_dir : str) :
  (contains "experiment_responses_" experiment_dir = false ->
   json_experiment_dir experiment_dir = experiment_dir)
  /\ forall run,
       experiment_dir = "experiment_responses_" ++ run ->
       contains "experiment_responses_" run = false ->
       json_experiment_dir experiment_dir = "experiment_outputs_" ++ run.
Proof.
  unfold json_experiment_dir. split.
  - apply replace_absent.
  - intros run -> Hrun.
    rewrite (replace_at_start "experiment_responses_") by discriminate.
    rewrite (replace_absent _ _ _ Hrun). reflexivity.
Qed.

(** ** The [TypeError] of the lenient decoder *)

Lemma unhashable_kind (v : pyval) (ty : str) :
  Ast.unhashable v = Some ty -> ty ∈ unhashable_types.
Proof.
  revert ty.
  induction v as [|b|n|f|s| |l IH|l IH|l IH|kvs IH] using pyval_nested_ind;
    intros ty; try discriminate.
  - intros [= <-]. left.
  - cbn [Ast.unhashable]. induction IH as [|x l Hx _ IHl]; [discriminate|].
    intros [H|H]%or_else_some; auto.
  - intros [= <-]. right. right. left.
  - intros [= <-]. right. left.
Qed.


Section Unhashable.
Import Ast.

(** Induction on syntax trees, through their lists of subtrees. *)
Lemma expr_nested_ind (P : expr -> Prop)
    (HConst : forall v, P (EConst v))
    (HName : forall id, P (EName id))
    (HTuple : forall elts, Forall P elts -> P (ETuple elts))
    (HList : forall elts, Forall P elts -> P (EList elts))
    (HSet : forall elts, Forall P elts -> P (ESet elts))
    (HDict : forall items,
        Forall (fun kv => P (fst kv) /\ P (snd kv)) items -> P (EDict items))
    (HCall : forall func args, P func -> Forall P args -> P (ECall func args))
    (HUnary : forall minus operand, P operand -> P (EUnary minus operand))
    (HBin : forall lhs minus rhs, P lhs -> P rhs -> P (EBin lhs minus rhs)) :
  forall e, P e.
Proof.
  fix IH 1. intros e.
  pose (all := fix all (l : list expr) : Forall P l :=
          match l with
          | [] => List.Forall_nil P
          | x :: l' => List.Forall_cons P x l' (IH x) (all l')
          end).
  destruct e as [v|id|elts|elts|elts|items|func args|minus operand|lhs minus rhs].
  - apply HConst.
  - apply HName.
  - apply HTuple, all.
  - apply HList, all.
  - apply HSet, all.
  - apply HDict.
    exact ((fix pairs (l : list (expr * expr))
              : Forall (fun kv => P (fst kv) /\ P (snd kv)) l :=
              match l with
              | [] => List.Forall_nil _
              | (k, x) :: l' =>
                  List.Forall_cons _ (k, x) l' (conj (IH k) (IH x)) (pairs l')
              end) items).
  - apply HCall; [apply IH|apply all].
  - apply HUnary, IH.
  - apply HBin; apply IH.
Qed.

Lemma bind_unhashable {A B} (x : outcome A) (f : A -> outcome B) (ty : str) :
  x ≫= f = Unhashable ty ->
  x = Unhashable ty \/ exists a, x = Val a /\ f a = Unhashable ty.
Proof.
  destruct x as [a| |ty']; cbn; intros H;
    [right; exists a; auto|discriminate|left; injection H as ->; reflexivity].
Qed.

Lemma hashed_unhashable (v : pyval) (ty : str) :
  hashed v = Unhashable ty -> ty ∈ unhashable_types.
Proof.
  unfold hashed. destruct (unhashable v) as [ty'|] eqn:H; [|discriminate].
  intros [= <-]. eapply unhashable_kind, H.
Qed.

Section UnhashableLoops.
Variable conv : expr -> outcome pyval.

Lemma convert_elts_unhashable (es : list expr) (ty : str) :
  Forall (fun x => conv x = Unhashable ty -> ty ∈ unhashable_types) es ->
  convert_elts conv es = Unhashable ty -> ty ∈ unhashable_types.
Proof.
  induction 1 as [|x es Hx _ IH]; [discriminate|]. cbn [convert_elts].
  intros [H|(v & _ & [H|(vs & _ & [=])]%bind_unhashable)]%bind_unhashable;
    auto.
Qed.

Lemma convert_set_unhashable (es : list expr) (ty : str) :
  Forall (fun x => conv x = Unhashable ty -> ty ∈ unhashable_types) es ->
  forall acc,
    convert_set conv es acc = Unhashable ty -> ty ∈ unhashable_types.
Proof.
  induction 1 as [|x es Hx _ IH]; intros acc; [discriminate|].
  cbn [convert_set].
  intros [H|(v & _ & [H|(v' & _ & H)]%bind_unhashable)]%bind_unhashable.
  - auto.
  - eapply hashed_unhashable, H.
  - eapply IH, H.
Qed.

Lemma convert_dict_unhashable (items : list (expr * expr)) (ty : str) :
  Forall (fun kv =>
            (conv (fst kv) = Unhashable ty -> ty ∈ unhashable_types)
            /\ (conv (snd kv) = Unhashable ty -> ty ∈ unhashable_types))
         items ->
  forall acc,
    convert_dict conv items acc = Unhashable ty -> ty ∈ unhashable_types.
Proof.
  induction 1 as [|[k x] items [Hk Hx] _ IH]; intros acc; [discriminate|].
  cbn [convert_dict]. cbn [fst snd] in *.
  intros [H|(v1 & _ & [H|(v2 & _ & [H|(v3 & _ & H)]%bind_unhashable)]
                       %bind_unhashable)]%bind_unhashable.
  - auto.
  - auto.
  - eapply hashed_unhashable, H.
  - eapply IH, H.
Qed.
End UnhashableLoops.

Lemma convert_signed_num_hashable (e : expr) (ty : str) :
  convert_signed_num e <> Unhashable ty.
Proof.
  destruct e as [[]| | | | | | |m [[]| | | | | | | |]|]; discriminate.
Qed.

(** The [TypeError] of a conversion names a list, a dict or a set. *)
Lemma convert_unhashable (e : expr) (ty : str) :
  convert e = Unhashable ty -> ty ∈ unhashable_types.
Proof.
  induction e as [c|id|elts IH|elts IH|elts IH|items IH|func args _ _
                  |minus operand _|lhs minus rhs _ _] using expr_nested_ind;
    cbn [convert].
  - discriminate.
  - discriminate.
  - intros [H|(vs & _ & [=])]%bind_unhashable.
    eapply convert_elts_unhashable; [exact IH|exact H].
  - intros [H|(vs & _ & [=])]%bind_unhashable.
    eapply convert_elts_unhashable; [exact IH|exact H].
  - apply convert_set_unhashable, IH.
  - apply convert_dict_unhashable, IH.
  - destruct (is_set_call func args); [discriminate|].
    intros H. exfalso. eapply convert_signed_num_hashable, H.
  - intros H. exfalso. eapply convert_signed_num_hashable, H.
  - intros [H|(v1 & _ & [H|(v2 & _ & [=])]%bind_unhashable)]%bind_unhashable;
      exfalso.
    + eapply convert_signed_num_hashable, H.
    + destruct rhs as [[]| | | | | | | |]; discriminate H.
Qed.

Lemma literal_eval_unhashable (text : str) (ty : str) :
  literal_eval text = Unhashable ty -> ty ∈ unhashable_types.
Proof.
  unfold literal_eval. cbv zeta.
  destruct (existsb _ _); [discriminate|].
  destruct (Nat.ltb _ _); [discriminate|].
  destruct (dangling_indent _ _ _); [discriminate|].
  destruct (lex _ _ _ _) as [ts|]; [|discriminate].
  destruct (parse ts) as [e|]; [|discriminate].
  apply convert_unhashable.
Qed.
End Unhashable.

(** X8: a [TypeError] leaves [parse_response] only from the lenient
    decoder, on a candidate block: it is the error of [ast.literal_eval]
    on a list, a dict or a set used as a key or as an element of a set.
    Then no attempt has succeeded and the heuristic is not tried;
    [process_file] catches the exception and reports its message as the
    failure, unless loading the metadata had failed before.  (Other
    exceptions of the interpreter, as the [ValueError] of [int()] on more
    than 4300 digits or a [RecursionError], are not modelled.) *)
Theorem X8_type_error_of_the_lenient_decoder (text msg : str) :
  parse text = Raise (TypeError msg) ->
  (exists b ty,
     b ∈ extract_json_blocks (clean_json_string text)
     /\ try_parse_with_ast b = Raise (TypeError msg)
     /\ msg = "unhashable type: '" ++ ty ++ "'"
     /\ ty ∈ unhashable_types)
  /\ Forall (fun a => ev_success a = false /\ ev_strategy a <> Heuristic)
            (attempts text)
  /\ forall m,
       process_file (ReadOk text) m
       = match m with
         | MetaFails msg' => (false, msg', None)
         | _ => (false, msg, None)
         end.
Proof.
  intros Hp. set (e := TypeError msg) in *.
  assert (Hblock : exists b, b ∈ extract_json_blocks (clean_json_string text)
                             /\ try_parse_with_ast b = Raise e
                             /\ Forall (fun a => ev_success a = false
                                                 /\ ev_strategy a <> Heuristic)
                                       (attempts text)).
  { revert Hp. unfold parse, attempts, compose.
    rewrite parse_response_eq.
    destruct (is_nil (strip text)); [discriminate|]. cbv zeta.
    destruct (is_true (try_parse_json _)) eqn:H0; [discriminate|].
    destruct (first_success BlockStruct _ _) as [t1 [p1|e1]] eqn:H1.
    2: { apply first_success_raise_block in H1 as (b & _ & [=]). }
    destruct (is_true p1) eqn:Hp1; [discriminate|].
    destruct (first_success BlockLenient _ _) as [t2 [p2|e2]] eqn:H2.
    { destruct (is_true p2); discriminate. }
    cbn [fst snd]. intros [= ->].
    pose proof (first_success_strategy BlockLenient try_parse_with_ast
                  (extract_json_blocks (clean_json_string text))) as Hs2.
    rewrite H2 in Hs2. cbn [fst] in Hs2.
    pose proof (first_success_raised _ _ _ _ _ H2) as [Hf2 _].
    apply first_success_exhausted in H1 as (_ & -> & _); [|exact Hp1].
    apply first_success_raise_block in H2 as (b & Hin & Hb).
    exists b. split; [exact Hin|]. split; [exact Hb|].
    constructor; [split; [reflexivity|discriminate]|].
    apply Forall_app. split.
    - apply Forall_forall. intros a [b' [-> _]]%list_elem_of_fmap.
      split; [reflexivity|discriminate].
    - apply Forall_forall. intros a Ha. split.
      + exact (proj1 (Forall_forall _ _) Hf2 a Ha).
      + rewrite (proj1 (Forall_forall _ _) Hs2 a Ha). discriminate. }
  destruct Hblock as (b & Hin & Hb & Hatt). split; [|split; [exact Hatt|]].
  - exists b. revert Hb. unfold try_parse_with_ast.
    destruct (Ast.literal_eval _) as [v| |ty] eqn:Hl; try discriminate.
    intros Hb. exists ty. split; [exact Hin|]. split; [exact Hb|].
    subst e. injection Hb as <-. split; [reflexivity|].
    eapply literal_eval_unhashable, Hl.
  - intros m. unfold process_file. rewrite Hp.
    destruct m as [|md|msg']; reflexivity.
Qed.

Lemma X8_type_error_of_the_lenient_decoder_witness :
  parse "{{1}: 2}" = Raise (TypeError "unhashable type: 'set'")
  /\ process_file (ReadOk "{{1}: 2}") MetaAbsent
     = (false, "unhashable type: 'set'" : str, None)
  /\ Forall (fun a => ev_success a = false /\ ev_strategy a <> Heuristic)
            (attempts "{{1}: 2}").
Proof.
  assert (Hp : parse "{{1}: 2}"
               = Raise (TypeError "unhashable type: 'set'"))
    by (vm_compute; reflexivity).
  split; [exact Hp|].
  destruct (X8_type_error_of_the_lenient_decoder _ _ Hp) as (_ & Ha & Hm).
  split; [exact (Hm MetaAbsent)|exact Ha].
Defined.

(** ** Greedy repetition, after a character *)

(** Greedy repetition of a class, when what follows the repetition
    depends on the character before it: [P] holds of that character all
    along. *)
Section GreedyClassAfter.
Variable p : ascii -> bool.
Variable k : mstate -> option mstate.
Variable P : option ascii -> Prop.
Hypothesis P_class : forall x, p x = true -> P (Some x).

Lemma star_cls_greedy_end (Q : mstate -> Prop) (tail : str)
    (g : option str) :
  stops p tail ->
  (forall pv, P pv -> exists out, k (MState pv tail g) = Some out /\ Q out) ->
  forall w n pv,
    P pv -> forallb p w = true -> length w <= n ->
    exists out,
      star_loop (run (Cls p)) true k n (MState pv (w ++ tail) g) = Some out
      /\ Q out.
Proof.
  intros Htail Hk w. induction w as [|x w IH]; intros n pv Hpv Hw Hn.
  - cbn [app]. destruct n as [|n]; cbn [star_loop]; [apply Hk, Hpv|].
    rewrite run_cls_stops by exact Htail. apply Hk, Hpv.
  - cbn [forallb] in Hw. apply andb_true_iff in Hw as [Hx Hw].
    destruct n as [|n]; [cbn [length] in Hn; lia|].
    cbn [star_loop app]. rewrite run_cls_cons, Hx. cbn [rest].
    rewrite (proj2 (Nat.ltb_lt (length (w ++ tail))
                               (length (x :: w ++ tail))))
      by (cbn [length]; lia).
    destruct (IH n (Some x) (P_class x Hx) Hw) as (out & -> & HQ);
      [cbn [length] in Hn; lia|].
    exists out. split; [reflexivity|exact HQ].
Qed.

Lemma star_cls_greedy_fails (tail : str) (g : option str) :
  stops p tail ->
  forall w,
    (forall pv w1 w2, P pv -> w = w1 ++ w2 ->
                      k (MState pv (w2 ++ tail) g) = None) ->
    forall n pv,
      P pv -> forallb p w = true ->
      star_loop (run (Cls p)) true k n (MState pv (w ++ tail) g) = None.
Proof.
  intros Htail w. induction w as [|x w IH]; intros Hk n pv Hpv Hw.
  - cbn [app]. pose proof (Hk pv [] [] Hpv eq_refl) as Hk0. cbn [app] in Hk0.
    destruct n as [|n]; cbn [star_loop]; [exact Hk0|].
    rewrite run_cls_stops by exact Htail. exact Hk0.
  - cbn [forallb] in Hw. apply andb_true_iff in Hw as [Hx Hw].
    pose proof (Hk pv [] (x :: w) Hpv eq_refl) as Hk0.
    destruct n as [|n]; cbn [star_loop]; [exact Hk0|].
    cbn [app]. rewrite run_cls_cons, Hx. cbn [rest].
    destruct (Nat.ltb _ _).
    + rewrite IH; [exact Hk0| |exact (P_class x Hx)|exact Hw].
      intros pv' w1 w2 Hpv' ->. apply (Hk pv' (x :: w1) w2 Hpv'). reflexivity.
    + exact Hk0.
Qed.
End GreedyClassAfter.

(** ** The comment rule *)

Lemma run_eps (k : mstate -> option mstate) (st : mstate) :
  run Eps k st = k st.
Proof. reflexivity. Qed.

Lemma stops_dot (tail : str) :
  stops dot tail -> at_eol true tail = true.
Proof.
  destruct tail as [|y tail]; [reflexivity|]. cbn [stops at_eol].
  unfold dot. intros ->%negb_false_iff. reflexivity.
Qed.

Lemma comment_match (adv : bool) (p : option ascii) (w tail : str) :
  forallb dot w = true -> stops dot tail ->
  exists st',
    match_at re_comment adv p ("/"%char :: "/"%char :: w ++ tail) = Some st'
    /\ rest st' = tail.
Proof.
  intros Hw Htail. unfold match_at, re_comment. cbv zeta.
  change (Lit "//") with (Seq (Chr "/") (Seq (Chr "/") Eps)).
  rewrite !run_seq, run_chr_cons, Ascii.eqb_refl.
  rewrite run_seq, run_chr_cons, Ascii.eqb_refl, run_eps, run_seq, run_star.
  cbn [rest].
  apply (star_cls_greedy_end dot _ (fun _ => True) (fun _ _ => I)
           (fun out => rest out = tail));
    [exact Htail| |exact I|exact Hw|rewrite length_app; lia].
  intros pv _. cbn [run rest]. rewrite (stops_dot _ Htail).
  exists (MState pv tail None). split; [|reflexivity].
  apply finish_shorter. cbn [rest length]. rewrite length_app. lia.
Qed.

Lemma comment_no_match (adv : bool) (p : option ascii) (s : str) :
  starts_with "//" s = false -> match_at re_comment adv p s = None.
Proof.
  intros Hs. unfold match_at, re_comment. cbv zeta.
  change (Lit "//") with (Seq (Chr "/") (Seq (Chr "/") Eps)).
  rewrite !run_seq.
  destruct s as [|a s]; [reflexivity|]. rewrite run_chr_cons.
  destruct (Ascii.eqb_spec "/" a) as [<-|]; [|reflexivity].
  rewrite run_seq.
  destruct s as [|b s]; [reflexivity|]. rewrite run_chr_cons.
  destruct (Ascii.eqb_spec "/" b) as [<-|]; [|reflexivity].
  discriminate Hs.
Qed.

Lemma cut_comments_line (w tail : str) :
  forallb dot w = true -> stops dot tail ->
  cut_comments true (w ++ tail) = cut_comments false tail.
Proof.
  intros Hw Htail. induction w as [|x w IH].
  - destruct tail as [|y tail]; [reflexivity|]. cbn [stops] in Htail.
    unfold dot in Htail. apply negb_false_iff in Htail.
    cbn [app cut_comments]. rewrite Htail.
    change (starts_with "//" (y :: tail))
      with (Ascii.eqb "/" y && starts_with "/" tail).
    destruct (Ascii.eqb_spec "/" y) as [<-|Hy]; [discriminate Htail|].
    reflexivity.
  - cbn [forallb] in Hw. apply andb_true_iff in Hw as [Hx Hw].
    cbn [app cut_comments]. unfold dot in Hx. apply negb_true_iff in Hx.
    rewrite Hx. exact (IH Hw).
Qed.

Lemma comment_sub_loop (n : nat) :
  forall s, length s <= n ->
  forall f adv p, length s < f ->
    sub_loop f re_comment [] adv p s = cut_comments false s.
Proof.
  induction n as [|n IH]; intros s Hn f adv p Hf.
  - destruct s; [|cbn [length] in Hn; lia].
    apply sub_loop_nil, comment_no_match. reflexivity.
  - destruct f as [|f]; [lia|].
    destruct s as [|c s']; [apply sub_loop_nil, comment_no_match; reflexivity|].
    destruct (starts_with "//" (c :: s')) eqn:Hs.
    + apply starts_with_split in Hs as [s2 Hs2].
      change ("//" ++ s2) with ("/"%char :: "/"%char :: s2) in Hs2.
      pose proof (span_spec dot s2) as Hspan.
      destruct (span dot s2) as [w tail]. cbn [fst snd] in Hspan.
      destruct Hspan as (Hsplit & Hw & Htail). rewrite Hs2, Hsplit.
      destruct (comment_match adv p w tail Hw Htail) as (st' & Hm & Hrest).
      rewrite (sub_loop_match _ _ _ _ _ _ _ Hm), Hrest. cbn [expand flat_map app].
      assert (Hlen : length tail < length (c :: s')).
      { rewrite Hs2, Hsplit. cbn [length]. rewrite length_app. lia. }
      rewrite IH by (cbn [length] in *; lia).
      change (cut_comments false ("/"%char :: "/"%char :: w ++ tail))
        with (cut_comments true (w ++ tail)).
      symmetry. apply (cut_comments_line w tail Hw Htail).
    + rewrite sub_loop_skip by (apply comment_no_match, Hs).
      rewrite IH by (cbn [length] in *; lia).
      cbn [cut_comments]. rewrite Hs. reflexivity.
Qed.

Lemma starts_with_slashes (c : ascii) (s : str) :
  starts_with "//" (c :: s) = Ascii.eqb "/" c && starts_with "/" s.
Proof. reflexivity. Qed.

Lemma starts_with_slash (c : ascii) (s : str) :
  starts_with "/" (c :: s) = Ascii.eqb "/" c.
Proof. cbn [starts_with list_ascii_of_string]. apply andb_true_r. Qed.

Lemma newline_no_slash (c : ascii) :
  is_newline c = true -> Ascii.eqb "/" c = false.
Proof.
  intros Hc. destruct (Ascii.eqb_spec "/" c) as [<-|]; [discriminate Hc|].
  reflexivity.
Qed.

Lemma cut_comments_head (s : str) :
  starts_with "/" (cut_comments true s) = false
  /\ (starts_with "/" s = false ->
      starts_with "/" (cut_comments false s) = false).
Proof.
  induction s as [|c s [IHt IHf]]; [split; reflexivity|]. split.
  - cbn [cut_comments]. destruct (is_newline c) eqn:Hc; [|exact IHt].
    rewrite starts_with_slash. apply newline_no_slash, Hc.
  - rewrite starts_with_slash. intros Hc. cbn [cut_comments].
    rewrite starts_with_slashes, Hc. cbn [andb].
    rewrite starts_with_slash. exact Hc.
Qed.

Lemma cut_comments_clean (s : str) :
  forall in_comment, contains "//" (cut_comments in_comment s) = false.
Proof.
  induction s as [|c s IH]; intros [|]; try reflexivity.
  - cbn [cut_comments]. destruct (is_newline c) eqn:Hc; [|apply IH].
    cbn [contains]. rewrite IH, starts_with_slashes.
    rewrite (newline_no_slash _ Hc). reflexivity.
  - cbn [cut_comments]. destruct (starts_with "//" (c :: s)) eqn:Hs; [apply IH|].
    cbn [contains]. rewrite IH, starts_with_slashes, orb_false_r.
    rewrite starts_with_slashes in Hs.
    destruct (Ascii.eqb "/" c); [|reflexivity]. cbn [andb] in *.
    apply cut_comments_head, Hs.
Qed.

Lemma cut_comments_lines (s : str) :
  forall in_comment,
    List.filter is_newline (cut_comments in_comment s)
    = List.filter is_newline s.
Proof.
  induction s as [|c s IH]; intros [|]; try reflexivity.
  - cbn [cut_comments List.filter].
    destruct (is_newline c) eqn:Hc; [|apply IH].
    cbn [List.filter]. rewrite Hc, IH. reflexivity.
  - cbn [cut_comments]. destruct (starts_with "//" (c :: s)) eqn:Hs.
    + rewrite IH. rewrite starts_with_slashes in Hs.
      apply andb_true_iff in Hs as [<-%Ascii.eqb_eq _]. reflexivity.
    + cbn [List.filter]. rewrite IH. reflexivity.
Qed.

Lemma cut_comments_sublist (s : str) :
  forall in_comment, cut_comments in_comment s `sublist_of` s.
Proof.
  induction s as [|c s IH]; intros [|]; [apply sublist_nil..| |].
  - cbn [cut_comments]. destruct (is_newline c).
    + apply sublist_skip, IH.
    + apply sublist_cons, IH.
  - cbn [cut_comments]. destruct (starts_with "//" (c :: s)).
    + apply sublist_cons, IH.
    + apply sublist_skip, IH.
Qed.

(** X22: the comment rule of the sanitizer cuts every line from its
    first double slash to the end of the line, as the scanner
    [cut_comments] does: no double slash is left, every line break is
    kept, and what is left is the text with characters taken out. *)
Theorem X22_comment_rule_cuts_lines (text : str) :
  strip_comments text = cut_comments false text
  /\ contains "//" (strip_comments text) = false
  /\ List.filter is_newline (strip_comments text)
     = List.filter is_newline text
  /\ strip_comments text `sublist_of` text.
Proof.
  assert (H : strip_comments text = cut_comments false text).
  { unfold strip_comments, sub.
    apply (comment_sub_loop (length text)); unfold loop_fuel; lia. }
  rewrite H. split; [reflexivity|]. split; [apply cut_comments_clean|].
  split; [apply cut_comments_lines|apply cut_comments_sublist].
Qed.

(** ** The number pattern of the heuristic *)

Lemma findall_loop_skip (r : re) (f : nat) (adv : bool) (p : option ascii)
    (c : ascii) (s' : str) :
  match_at r adv p (c :: s') = None ->
  findall_loop (S f) r adv p (c :: s') = findall_loop (S f) r false (Some c) s'.
Proof.
  intros Hm. cbn [findall_loop search]. rewrite Hm.
  destruct (search r false (Some c) s') as [[[sk wh] st1]|]; reflexivity.
Qed.

Lemma findall_loop_match (r : re) (f : nat) (adv : bool) (p : option ascii)
    (s : str) (st' : mstate) :
  match_at r adv p s = Some st' ->
  findall_loop (S f) r adv p s
  = (consumed (MState p s None) st', grp st')
      :: findall_loop f r (is_nil (consumed (MState p s None) st'))
           (prev st') (rest st').
Proof.
  intros Hm. cbn [findall_loop]. rewrite (search_match _ _ _ _ _ Hm).
  reflexivity.
Qed.

Lemma findall_loop_nil (r : re) (f : nat) (adv : bool) (p : option ascii) :
  match_at r adv p [] = None -> findall_loop f r adv p [] = [].
Proof.
  intros Hm. destruct f as [|f]; [reflexivity|].
  cbn [findall_loop search]. rewrite Hm. reflexivity.
Qed.

Lemma is_decimal_word (c : ascii) : is_decimal c = true -> is_word c = true.
Proof.
  unfold is_word, is_alnum, is_decimal. intros ->. reflexivity.
Qed.

Lemma run_wordb (k : mstate -> option mstate) (st : mstate) :
  run WordB k st
  = if xorb (word_at (prev st)) (word_at (head (rest st)))
    then k st else None.
Proof. reflexivity. Qed.

Lemma stops_word_head (tail : str) :
  stops is_word tail -> word_at (head tail) = false.
Proof. destruct tail as [|y tail]; [reflexivity|]. exact (fun H => H). Qed.

Lemma stops_word_decimal (tail : str) :
  stops is_word tail -> stops is_decimal tail.
Proof.
  destruct tail as [|y tail]; [exact (fun H => H)|]. cbn [stops].
  intros Hy. destruct (is_decimal y) eqn:Hd; [|reflexivity].
  rewrite (is_decimal_word _ Hd) in Hy. discriminate.
Qed.

(** A run of digits that is a word is a match, with the run in the
    group. *)
Lemma number_match (adv : bool) (p : option ascii) (x : ascii)
    (w tail : str) :
  word_at p = false ->
  is_decimal x = true -> forallb is_decimal w = true -> stops is_word tail ->
  exists st',
    match_at re_number adv p (x :: w ++ tail) = Some st'
    /\ rest st' = tail /\ grp st' = Some (x :: w)
    /\ word_at (prev st') = true.
Proof.
  intros Hp Hx Hw Htail. unfold match_at, re_number, Plus. cbv zeta.
  rewrite run_seq, run_wordb. cbn [prev rest head word_at].
  rewrite Hp, (is_decimal_word _ Hx). cbn [xorb].
  rewrite run_seq, run_group, run_seq, run_cls_cons, Hx, run_star.
  cbn [rest].
  apply (star_cls_greedy_end is_decimal _ (fun pv => word_at pv = true));
    [intros y Hy; exact (is_decimal_word _ Hy)
    |exact (stops_word_decimal _ Htail)
    |
    |exact (is_decimal_word _ Hx)|exact Hw|rewrite length_app; lia].
  intros pv Hpv. rewrite run_wordb. cbn [prev rest].
  rewrite Hpv, (stops_word_head _ Htail). cbn [xorb].
  eexists. split.
  - apply finish_shorter. cbn [rest length]. rewrite length_app. lia.
  - cbn [rest grp prev]. split; [reflexivity|]. split; [|exact Hpv].
    f_equal. apply (consumed_prefix p pv (x :: w) tail None None).
Qed.

(** No match starts inside a word. *)
Lemma number_no_match_inside (adv : bool) (p : option ascii) (c : ascii)
    (s : str) :
  word_at p = true -> is_word c = true ->
  match_at re_number adv p (c :: s) = None.
Proof.
  intros Hp Hc. unfold match_at, re_number. cbv zeta.
  rewrite run_seq, run_wordb. cbn [prev rest head word_at].
  rewrite Hp, Hc. reflexivity.
Qed.

(** No match starts where no word character stands. *)
Lemma number_no_match_outside (adv : bool) (p : option ascii) (s : str) :
  stops is_word s -> match_at re_number adv p s = None.
Proof.
  intros Hs. unfold match_at, re_number, Plus. cbv zeta.
  rewrite run_seq, run_wordb. cbn [prev rest].
  destruct (xorb _ _); [|reflexivity].
  rewrite run_seq, run_group, run_seq.
  apply run_cls_stops, stops_word_decimal, Hs.
Qed.

(** No match starts at a word that is not made of digits only. *)
Lemma number_no_match_word (adv : bool) (p : option ascii) (w tail : str) :
  forallb is_word w = true -> forallb is_decimal w = false ->
  match_at re_number adv p (w ++ tail) = None.
Proof.
  intros Hw Hd. unfold match_at, re_number, Plus. cbv zeta.
  rewrite run_seq, run_wordb. cbn [prev rest].
  destruct (xorb _ _); [|reflexivity].
  rewrite run_seq, run_group, run_seq.
  destruct (span_spec is_decimal w) as (Hsplit & Hds & Hstop).
  destruct (span is_decimal w) as [ds r]. cbn [fst snd] in *.
  destruct r as [|z r].
  { rewrite app_nil_r in Hsplit. subst ds. congruence. }
  cbn [stops] in Hstop.
  assert (Hz : is_word z = true).
  { rewrite Hsplit, forallb_app in Hw. apply andb_true_iff in Hw as [_ Hw].
    cbn [forallb] in Hw. apply andb_true_iff in Hw as [Hw _]. exact Hw. }
  rewrite Hsplit, <- app_assoc. cbn [app].
  destruct ds as [|x ds].
  - cbn [app]. rewrite run_cls_cons, Hstop. reflexivity.
  - cbn [app forallb] in *. apply andb_true_iff in Hds as [Hx Hds].
    rewrite run_cls_cons, Hx, run_star. cbn [rest].
    apply (star_cls_greedy_fails is_decimal _
             (fun pv => word_at pv = true));
      [intros y Hy; exact (is_decimal_word _ Hy)
      |exact Hstop
      |
      |exact (is_decimal_word _ Hx)|exact Hds].
    intros pv w1 w2 Hpv E. rewrite run_wordb. cbn [prev rest].
    rewrite Hpv.
    assert (Hh : word_at (head (w2 ++ z :: r ++ tail)) = true).
    { destruct w2 as [|y w2]; [exact Hz|].
      cbn [app head word_at]. apply is_decimal_word.
      rewrite E, forallb_app in Hds. apply andb_true_iff in Hds as [_ Hds].
      cbn [forallb] in Hds. apply andb_true_iff in Hds as [Hy _]. exact Hy. }
    rewrite Hh. reflexivity.
Qed.

Lemma digit_words_run (w word s : str) :
  forallb is_word w = true ->
  digit_words word (w ++ s) = digit_words (rev w ++ word) s.
Proof.
  revert word. induction w as [|x w IH]; intros word Hw; [reflexivity|].
  cbn [forallb] in Hw. apply andb_true_iff in Hw as [Hx Hw].
  cbn [app digit_words rev]. rewrite Hx, (IH _ Hw), <- app_assoc.
  reflexivity.
Qed.

Lemma digit_words_after (word tail : str) :
  stops is_word tail ->
  digit_words word tail
  = number_word word
    ++ match tail with [] => [] | _ :: t => digit_words [] t end.
Proof.
  destruct tail as [|y t]; cbn [stops digit_words].
  - rewrite app_nil_r. reflexivity.
  - intros ->. reflexivity.
Qed.

Lemma number_word_rev (w : str) :
  number_word (rev w)
  = if negb (is_nil w) && forallb is_decimal w then [w] else [].
Proof.
  unfold number_word. rewrite is_nil_rev, forallb_rev, rev_involutive.
  reflexivity.
Qed.

(** From inside a word the search goes on after the word. *)
Lemma number_skip_word (f : nat) (w tail : str) :
  forallb is_word w = true ->
  forall adv p, word_at p = true ->
  exists adv' p',
    word_at p' = true
    /\ findall_loop (S f) re_number adv p (w ++ tail)
       = findall_loop (S f) re_number adv' p' tail.
Proof.
  induction w as [|x w IH]; intros Hw adv p Hp; [eauto|].
  cbn [forallb] in Hw. apply andb_true_iff in Hw as [Hx Hw].
  cbn [app]. rewrite findall_loop_skip
    by (apply number_no_match_inside; assumption).
  apply (IH Hw false (Some x)). exact Hx.
Qed.

(** After a word the search goes on behind the character that ends it. *)
Lemma number_after_word (f : nat) (tail : str) (adv : bool)
    (p : option ascii) :
  stops is_word tail ->
  findall_loop (S f) re_number adv p tail
  = match tail with
    | [] => []
    | y :: t => findall_loop (S f) re_number false (Some y) t
    end.
Proof.
  intros Htail. destruct tail as [|y t].
  - apply findall_loop_nil, number_no_match_outside. exact I.
  - apply findall_loop_skip, number_no_match_outside, Htail.
Qed.

(** The matches of the number pattern are the digit words of the
    scanner, with any fuel above the length of the text. *)
Lemma number_findall_loop (n : nat) :
  forall s, length s <= n ->
  forall f adv p, length s < f -> word_at p = false ->
    findall_loop f re_number adv p s
    = map (fun w => (w, Some w)) (digit_words [] s).
Proof.
  induction n as [|n IH]; intros s Hn f adv p Hf Hp.
  - destruct s; [|cbn [length] in Hn; lia].
    apply findall_loop_nil, number_no_match_outside. exact I.
  - destruct f as [|f]; [lia|].
    destruct s as [|x s'];
      [apply findall_loop_nil, number_no_match_outside; exact I|].
    destruct (span_spec is_word (x :: s')) as (Hs & Hw & Hstop).
    destruct (span is_word (x :: s')) as [w tail]. cbn [fst snd] in *.
    assert (Hlen : length w + length tail = S (length s'))
      by (rewrite <- length_app, <- Hs; reflexivity).
    cbn [length] in Hn, Hf.
    (* what follows the word *)
    assert (Htl : forall f' adv' p', length tail <= S f' ->
              findall_loop (S f') re_number adv' p' tail
              = map (fun w => (w, Some w))
                    match tail with [] => [] | _ :: t => digit_words [] t end).
    { intros f' adv' p' Hf'. rewrite (number_after_word _ _ _ _ Hstop).
      destruct tail as [|y t]; [reflexivity|].
      cbn [stops] in Hstop. cbn [length] in *.
      apply IH; [lia|lia|exact Hstop]. }
    rewrite Hs, (digit_words_run w [] tail Hw), app_nil_r.
    rewrite (digit_words_after _ _ Hstop), number_word_rev, map_app.
    destruct w as [|x0 w0].
    + (* the text starts with no word character *)
      cbn [app] in Hs. subst tail. cbn [is_nil negb andb map app].
      apply Htl. cbn [length]. lia.
    + cbn [is_nil negb andb]. cbn [length] in Hlen.
      destruct (forallb is_decimal (x0 :: w0)) eqn:Hd.
      * (* a word of digits *)
        cbn [forallb] in Hd. apply andb_true_iff in Hd as [Hx0 Hd].
        destruct (number_match adv p x0 w0 tail Hp Hx0 Hd Hstop)
          as (st' & Hm & Hrest & Hgrp & Hprev).
        cbn [app]. rewrite (findall_loop_match _ _ _ _ _ _ Hm).
        rewrite Hrest, Hgrp.
        assert (Hc : consumed (MState p (x0 :: w0 ++ tail) None) st'
                     = x0 :: w0).
        { destruct st' as [pv' r' g']. cbn [rest] in Hrest. subst r'.
          apply (consumed_prefix p pv' (x0 :: w0) tail None g'). }
        rewrite Hc. cbn [map app is_nil]. f_equal.
        destruct f as [|f].
        { destruct tail; [reflexivity|cbn [length] in *; lia]. }
        apply Htl. lia.
      * (* a word that is not a number *)
        cbn [map app].
        rewrite findall_loop_skip
          by (apply (number_no_match_word adv p (x0 :: w0) tail); assumption).
        cbn [forallb] in Hw. apply andb_true_iff in Hw as [Hx0 Hw0].
        destruct (number_skip_word f w0 tail Hw0 false (Some x0) Hx0)
          as (adv' & p' & _ & ->).
        apply Htl. lia.
Qed.

(** X23: the numbers the heuristic reads are the longest runs of word
    characters that are made of decimal digits only, in the order of the
    text, as the scanner [digit_words] gives them; digits glued to a
    letter or an underscore are no number. The scores are those of them
    between 1 and 7. *)
Theorem X23_numbers_are_digit_words (text : str) :
  findall1 re_number text = digit_words [] text
  /\ likert_numbers text
     = List.filter in_likert (map int_of_digits (digit_words [] text)).
Proof.
  assert (H : findall1 re_number text = digit_words [] text).
  { unfold findall1, matches.
    rewrite (number_findall_loop (length text));
      [|lia|unfold loop_fuel; lia|reflexivity].
    rewrite map_map. cbn [snd]. apply map_id. }
  split; [exact H|]. unfold likert_numbers. rewrite H. reflexivity.
Qed.

(** ** The scenario of the heuristic *)

(** C7: the response of scenario 4 is recovered by the heuristic as the
    record with category [unknown], attitude scores 5 6 7 4 and intention
    scores 2 3 1, after the direct attempt.  In general the heuristic
    reads the integer tokens of the raw text (the longest runs of word
    characters that are digits only), keeps those from 1 to 7, gives the
    first four of them to the attitude sequence when an attitude keyword
    is present, and the fifth to the seventh (or those that remain) to
    the intention sequence when an intention or purchase keyword is
    present.  Two texts with numbers outside the range show the filter
    at work. *)
Theorem C7_scenario_heuristic :
  parse "The ad attitude scores are 5 6 7 4 and intention is 2 3 1"
  = Ok (Some (PyDict
      [ (PyStr (u "ad_type"), PyStr (u "unknown"));
        (PyStr (u "ad_attitude_scores"),
         PyList [PyInt 5; PyInt 6; PyInt 7; PyInt 4]);
        (PyStr (u "purchase_intention_scores"),
         PyList [PyInt 2; PyInt 3; PyInt 1]) ]))
  /\ map ev_strategy
       (attempts "The ad attitude scores are 5 6 7 4 and intention is 2 3 1")
     = [StructDirect; Heuristic]
  /\ (forall text : str,
        let kept :=
          List.filter (fun n => (1 <=? n)%Z && (n <=? 7)%Z)
                      (map int_of_digits (digit_words [] text)) in
        extract_scores_from_text text
        = Scores (if attitude_keyword text then take 4 kept else [])
                 (if intention_keyword text
                  then take 3 (drop 4 kept) else []))
  /\ extract_scores_from_text
       "My attitude: 9 5 0 6 12 7 4, in q4 the intention was 8 2 3 10 1"
     = Scores [5; 6; 7; 4]%Z [2; 3; 1]%Z
  /\ extract_scores_from_text "I would purchase it: 3 4 5 6 7 8 1 2 3"
     = Scores [] [7; 1; 2]%Z.
Proof.
  split; [vm_compute; reflexivity|].
  split; [vm_compute; reflexivity|].
  split; [|split; vm_compute; reflexivity].
  intros text. cbv zeta. rewrite extract_scores_spec. unfold likert_numbers.
  assert (H : findall1 re_number text = digit_words [] text).
  { unfold findall1, matches.
    rewrite (number_findall_loop (length text));
      [|lia|unfold loop_fuel; lia|reflexivity].
    rewrite map_map. cbn [snd]. apply map_id. }
  rewrite H. reflexivity.
Qed.

(** ** The lenient decoder *)

Import Ast.


Section ConvertLoops.
Variable conv : expr -> outcome pyval.



End ConvertLoops.





